(** * Seating allocation engine: conflict graph, room allocation, seat placement

    A shallow embedding of [conflict_graph.py], [room_assignment.py] and
    [seat_layout.py], and the properties of the three stages.

    Conventions of the embedding:
    - a Python [dict] (and [defaultdict]) whose iteration order is observed is
      a list of key/value pairs in insertion order; one that is only looked
      up by key is a [gmap];
    - a Python [set] is a [gset];
    - Python integers are [Z]; counters that start at 0 and only grow are [nat];
    - a [raise] is a [Raised] outcome. *)

From stdpp Require Import base gmap strings list fin_maps fin_sets.
From Stdlib Require Import ZArith Lia.

Open Scope string_scope.
Open Scope list_scope.
Open Scope Z_scope.
Open Scope nat_scope.

(* ===================================================================== *)
(** * Python containers and builtins *)
(* ===================================================================== *)

Module Py.

Section dict.
Context {K V : Type} `{EqDecision K}.

  (** [d.get(k)] / [k in d] on an insertion-ordered dict. *)
Fixpoint dict_get (k : K) (d : list (K * V)) : option V :=
    match d with
    | [] => None
    | (k', v) :: d' => if decide (k' = k) then Some v else dict_get k d'
    end.

  (** [d[k] = v]: overwrite in place, or append a new key at the end. *)
Fixpoint dict_set (k : K) (v : V) (d : list (K * V)) : list (K * V) :=
    match d with
    | [] => [(k, v)]
    | (k', v') :: d' =>
        if decide (k' = k) then (k', v) :: d' else (k', v') :: dict_set k v d'
    end.

Definition dict_has (k : K) (d : list (K * V)) : bool :=
    bool_decide (is_Some (dict_get k d)).
End dict.

Section defaultdict.
Context {K A : Type} `{EqDecision K}.

  (** [d[k]] on a [defaultdict(list)] read: the stored list, or [[]]. *)
Definition dd_get (k : K) (d : list (K * list A)) : list A :=
    default [] (dict_get k d).

  (** [d[k].extend(xs)] on a [defaultdict(list)]: a missing key is created. *)
Definition dd_extend (k : K) (xs : list A) (d : list (K * list A))
    : list (K * list A) :=
    dict_set k (dd_get k d ++ xs) d.

  (** [d[k].append(x)]. *)
Definition dd_append (k : K) (x : A) (d : list (K * list A))
    : list (K * list A) :=
    dd_extend k [x] d.
End defaultdict.

(** [range(n)]. *)
Definition range (n : Z) : list Z := Z.of_nat <$> seq 0 (Z.to_nat n).

(** [range(start, stop, 2)]. *)
Definition range2 (start stop : Z) : list Z :=
  (λ k : nat, (start + 2 * Z.of_nat k)%Z) <$> seq 0 (Z.to_nat ((stop - start + 1) / 2)).

(** [max(xs, key=...)]: the first element whose key is maximal;
    [gt a b] is [key(a) > key(b)]. *)
Definition max_by {A} (gt : A → A → bool) (xs : list A) : option A :=
  match xs with
  | [] => None
  | x :: xs' => Some (foldl (λ best y, if gt y best then y else best) x xs')
  end.

(** [sorted(xs, key=key, reverse=True)]: stable, descending by key. *)
Fixpoint insert_desc {A} (key : A → Z) (x : A) (l : list A) : list A :=
  match l with
  | [] => [x]
  | y :: l' => if (key y <=? key x)%Z then x :: y :: l' else y :: insert_desc key x l'
  end.

Definition sorted_desc {A} (key : A → Z) (l : list A) : list A :=
  foldr (insert_desc key) [] l.

(** [int(s)] for a [str] of ASCII characters, or [None] where it raises
    [ValueError]: optional whitespace at both ends, an optional sign
    directly before the digits, and decimal digits with single underscores
    between them.  (Python also takes Unicode digits and spaces, which an
    ASCII string does not hold, and an interpreter may refuse more than
    [sys.get_int_max_str_digits()] digits; no such limit is set here.) *)
Definition is_space (c : Ascii.ascii) : bool :=
  bool_decide (Ascii.nat_of_ascii c ∈ [9; 10; 11; 12; 13; 32]).

Definition digit_of (c : Ascii.ascii) : option Z :=
  let n := Ascii.nat_of_ascii c in
  if bool_decide (48 ≤ n ≤ 57) then Some (Z.of_nat (n - 48)) else None.

(** The digits; [after_digit] is whether the character before was one. *)
Fixpoint digits_value (acc : Z) (after_digit : bool) (l : list Ascii.ascii) : option Z :=
  match l with
  | [] => if after_digit then Some acc else None
  | c :: l' =>
      match digit_of c with
      | Some d => digits_value (acc * 10 + d)%Z true l'
      | None =>
          if after_digit && bool_decide (Ascii.nat_of_ascii c = 95)
          then digits_value acc false l'
          else None
      end
  end.

Fixpoint lstrip (l : list Ascii.ascii) : list Ascii.ascii :=
  match l with
  | c :: l' => if is_space c then lstrip l' else l
  | [] => []
  end.

Definition int_of_str (s : string) : option Z :=
  match reverse (lstrip (reverse (lstrip (String.list_ascii_of_string s)))) with
  | [] => None
  | c :: l =>
      if bool_decide (Ascii.nat_of_ascii c = 43) then digits_value 0 false l
      else if bool_decide (Ascii.nat_of_ascii c = 45)
      then Z.opp <$> digits_value 0 false l
      else digits_value 0 false (c :: l)
  end.

(** Outcome of a call that may raise. *)
Inductive outcome (E A : Type) : Type :=
| Returned (a : A)
| Raised (e : E).
Arguments Returned {E A} a.
Arguments Raised {E A} e.

End Py.

(* ===================================================================== *)
(** * conflict_graph.py *)
(* ===================================================================== *)

Module ConflictGraph.
Import Py.

Definition FRIEND_EDGE_WEIGHT : Z := 5.
Definition SECTION_EDGE_WEIGHT : Z := 2.

(** ** The part of [networkx.Graph] the module uses

    Nodes in insertion order and one entry per undirected edge with its
    weight.  [add_edge] on an existing edge only rewrites the weight. *)
Record Graph : Type := mkGraph {
  nodes : list string;
  edges : list (string * string * Z)
}.

Definition empty_graph : Graph := mkGraph [] [].

Definition joins (u v : string) (e : string * string * Z) : bool :=
  bool_decide ((e.1.1 = u ∧ e.1.2 = v) ∨ (e.1.1 = v ∧ e.1.2 = u)).

Definition has_edge (g : Graph) (u v : string) : bool :=
  existsb (joins u v) (edges g).

Definition add_node (g : Graph) (n : string) : Graph :=
  if bool_decide (n ∈ nodes g) then g else mkGraph (nodes g ++ [n]) (edges g).

Definition set_weight (u v : string) (w : Z) (e : string * string * Z)
  : string * string * Z :=
  if joins u v e then (e.1.1, e.1.2, w) else e.

Definition add_edge (g : Graph) (u v : string) (w : Z) : Graph :=
  let g' := add_node (add_node g u) v in
  if has_edge g' u v
  then mkGraph (nodes g') (set_weight u v w <$> edges g')
  else mkGraph (nodes g') (edges g' ++ [(u, v, w)]).

(** [graph[u][v]['weight'] += w] *)
Definition add_weight (g : Graph) (u v : string) (w : Z) : Graph :=
  mkGraph (nodes g)
    ((λ e, if joins u v e then (e.1.1, e.1.2, (e.2 + w)%Z) else e) <$> edges g).

Definition other_ends (v : string) (e : string * string * Z) : list string :=
  (if bool_decide (e.1.1 = v) then [e.1.2] else []) ++
  (if bool_decide (e.1.2 = v) then [e.1.1] else []).

(** [graph.neighbors(v)]: each neighbour once (a self-loop lists [v]). *)
Definition neighbors (g : Graph) (v : string) : list string :=
  remove_dups (edges g ≫= other_ends v).

(** [graph.degree()]: a self-loop counts twice. *)
Definition degree (g : Graph) (v : string) : nat :=
  length (neighbors g v) + (if bool_decide (v ∈ neighbors g v) then 1 else 0).

(** ** The roster *)
Record Row : Type := mkRow {
  StudentID : string;
  ExamDate : string;
  ExamTime : string;
  Batch : string;
  Year : Z;
  Department : string
}.

Definition same_slot (s1 s2 : Row) : bool :=
  bool_decide (ExamDate s1 = ExamDate s2) && bool_decide (ExamTime s1 = ExamTime s2).

(** [for i in range(len(df)): for j in range(i + 1, len(df)): ...] with the
    body adding the hard edge of weight [w]. *)
Fixpoint add_slot_edges (w : Z) (df : list Row) (g : Graph) : Graph :=
  match df with
  | [] => g
  | s1 :: rest =>
      add_slot_edges w rest
        (foldl (λ g s2, if same_slot s1 s2
                        then add_edge g (StudentID s1) (StudentID s2) w
                        else g) g rest)
  end.

Definition add_friend_edge (student_ids : gset string) (g : Graph)
    (p : string * string) : Graph :=
  if bool_decide (p.1 ∈ student_ids) && bool_decide (p.2 ∈ student_ids) then
    if has_edge g p.1 p.2
    then add_weight g p.1 p.2 FRIEND_EDGE_WEIGHT
    else add_edge g p.1 p.2 FRIEND_EDGE_WEIGHT
  else g.

Definition section_key (r : Row) : string * Z * string :=
  (Batch r, Year r, Department r).

Definition section_groups (df : list Row) : list (string * Z * string * list string) :=
  foldl (λ d r, dd_append (section_key r) (StudentID r) d) [] df.

Fixpoint add_section_edges (students : list string) (g : Graph) : Graph :=
  match students with
  | [] => g
  | s1 :: rest =>
      add_section_edges rest
        (foldl (λ g s2, if has_edge g s1 s2 then g
                        else add_edge g s1 s2 SECTION_EDGE_WEIGHT) g rest)
  end.

(** [friend_pairs] is the set in the order its iteration yields the pairs;
    [None] makes the function fetch the pairs [db_pairs] from the database. *)
Definition build_enhanced_conflict_graph (db_pairs : list (string * string))
    (df : list Row) (friend_pairs : option (list (string * string)))
    (section_separation : bool) : Graph :=
  let graph := foldl add_node empty_graph (StudentID <$> df) in
  let graph := add_slot_edges 10 df graph in
  let friend_pairs := default db_pairs friend_pairs in
  let student_ids : gset string := list_to_set (StudentID <$> df) in
  let graph := foldl (add_friend_edge student_ids) graph friend_pairs in
  if section_separation then
    foldl (λ g students,
             if bool_decide (1 < length students)
             then add_section_edges students g else g)
          graph ((section_groups df).*2)
  else graph.

(** ** DSatur *)

Definition used_colors (g : Graph) (colors : list (string * nat)) (node : string)
  : gset nat :=
  list_to_set (omap (λ nbr, dict_get nbr colors) (neighbors g node)).

(** [color = 0; while color in used_colors: color += 1]; the loop leaves
    within [size used_colors] increments, which is the fuel given. *)
Fixpoint lowest_free_from (used : gset nat) (fuel : nat) (color : nat) : nat :=
  match fuel with
  | O => color
  | S fuel' =>
      if bool_decide (color ∈ used) then lowest_free_from used fuel' (S color)
      else color
  end.

Definition lowest_free (used : gset nat) : nat :=
  lowest_free_from used (size used) 0.

Definition update_saturation (g : Graph) (colors : list (string * nat))
    (saturation : gmap string (gset nat)) : gmap string (gset nat) :=
  foldl (λ sat node,
           if dict_has node colors then sat
           else <[node := used_colors g colors node]> sat)
        saturation (nodes g).

Definition sat_key_gt (g : Graph) (saturation : gmap string (gset nat))
    (x y : string) : bool :=
  let kx := (size (default ∅ (saturation !! x)), degree g x) in
  let ky := (size (default ∅ (saturation !! y)), degree g y) in
  bool_decide (ky.1 < kx.1 ∨ (ky.1 = kx.1 ∧ ky.2 < kx.2)).

(** The [while len(colors) < len(graph.nodes)] loop. *)
Fixpoint dsatur_loop (g : Graph) (fuel : nat) (colors : list (string * nat))
    (saturation : gmap string (gset nat)) : list (string * nat) :=
  match fuel with
  | O => colors
  | S fuel' =>
      if bool_decide (length colors < length (nodes g)) then
        let saturation := update_saturation g colors saturation in
        let uncolored := filter (λ node, dict_has node colors = false) (nodes g) in
        match max_by (sat_key_gt g saturation) uncolored with
        | None => colors
        | Some next_node =>
            let color := lowest_free (used_colors g colors next_node) in
            dsatur_loop g fuel' (dict_set next_node color colors) saturation
        end
      else colors
  end.

Definition dsatur_from (g : Graph) (fuel : nat) : list (string * nat) :=
  match max_by (λ x y, bool_decide (degree g y < degree g x)) (nodes g) with
  | None => []
  | Some current => dsatur_loop g fuel [(current, 0)] ∅
  end.

(** Every iteration colours one more node, so [len(graph.nodes)] iterations
    always suffice ([dsatur_enough_fuel] below). *)
Definition dsatur_coloring (g : Graph) : list (string * nat) :=
  dsatur_from g (length (nodes g)).

(** ** Colour groups *)

Definition group_by_color (color_mapping : list (string * nat))
  : list (nat * list string) :=
  foldl (λ groups sc, dd_append sc.2 sc.1 groups) [] color_mapping.

Definition basic_conflict_graph (df : list Row) : Graph :=
  add_slot_edges 1 df (foldl add_node empty_graph (StudentID <$> df)).

Definition get_colored_groups (db_pairs : list (string * string))
    (df : list Row) (friend_pairs : option (list (string * string)))
    (enable_friend_separation enable_section_separation : bool)
  : list (nat * list string) :=
  let graph :=
    if enable_friend_separation || enable_section_separation then
      build_enhanced_conflict_graph db_pairs df
        (if enable_friend_separation then friend_pairs else Some [])
        enable_section_separation
    else basic_conflict_graph df in
  group_by_color (dsatur_coloring graph).

End ConflictGraph.
(* ===================================================================== *)
(** * room_assignment.py *)
(* ===================================================================== *)

Module RoomAssignment.
Import Py.

(** What a metadata dict holds under ['Year']: an [int], or a [str] such as
    [extract_student_metadata] stores ([str(row['Year'])]). *)
Inductive year_value : Type :=
| YearInt (y : Z)
| YearStr (text : string).

#[global] Instance year_value_eq_dec : EqDecision year_value.
Proof. solve_decision. Defined.

(** A student's metadata dict, with the keys the engine reads; [None] is an
    absent key. *)
Record Metadata : Type := mkMetadata {
  md_Name : option string;
  md_Year : option year_value;
  md_Subject : option string;
  md_Department : option string;
  md_Branch : option string;
  md_Batch : option string;
  md_ExamTime : option string
}.

(** The [ValueError] messages: the two of the module, and that of [int]. *)
Inductive message : Type :=
| NotEnoughCapacity (need have : Z)
    (* "Not enough room capacity. Need {need} seats, have {have}" *)
| NoValidAssignment
    (* "No valid room assignment possible with current constraints" *)
| InvalidLiteral (text : string).
    (* "invalid literal for int() with base 10: {text!r}" *)

Inductive exn : Type :=
| KeyError (key : string)      (* student_metadata[sid], sid absent *)
| TypeError                    (* int(None): the entry has no Year *)
| ValueError (msg : message).



(** [class Student]; [subject] and [department] are [None] when the
    metadata has no such key. *)
Record Student : Type := mkStudent {
  student_id : string;
  year : Z;
  subject : option string;
  department : option string;
  branch : string;
  batch : string
}.


(** [Student.__init__]: [int(metadata.get('Year'))] comes first and raises
    [TypeError] for [None] and [ValueError] for a string [int] rejects. *)
Definition make_Student (sid : string) (metadata : Metadata) : outcome exn Student :=
  let student (y : Z) :=
    {| student_id := sid;
       year := y;
       subject := md_Subject metadata;
       department := md_Department metadata;
       branch := default (default "Unknown" (md_Batch metadata)) (md_Branch metadata);
       batch := default "Unknown" (md_Batch metadata) |} in
  match md_Year metadata with
  | None => Raised TypeError
  | Some (YearInt y) => Returned (student y)
  | Some (YearStr text) =>
      match int_of_str text with
      | Some y => Returned (student y)
      | None => Raised (ValueError (InvalidLiteral text))
      end
  end.

(** A room's configuration dict, as [RoomConfig.__init__] accepts it:
    ['room_name'] and an integer ['capacity'] are present, and a ceiling is
    an integer or its key is absent ([None]).  [cfg_allowed_years] is [None]
    when the key is absent or an empty string, and otherwise the listed
    years (the comma-separated string or the list, converted by [int]). *)
Record room_config : Type := mkRoomCfg {
  cfg_room_name : string;
  cfg_capacity : Z;
  cfg_max_subjects : option Z;
  cfg_max_branches : option Z;
  cfg_max_departments : option Z;
  cfg_max_years : option Z;
  cfg_allowed_years : option (list Z);
  cfg_layout_columns : option Z;
  cfg_columns : option Z;
  cfg_layout_rows : option Z;
  cfg_rows : option Z
}.

(** [class RoomConfig] *)
Record RoomConfig : Type := mkRoomConfig {
  room_id : string;
  capacity : Z;
  max_subjects : Z;
  max_branches : Z;
  max_departments : Z;
  max_years : Z;
  allowed_years : gset Z
}.

Definition make_RoomConfig (config : room_config) : RoomConfig :=
  {| room_id := cfg_room_name config;
     capacity := cfg_capacity config;
     max_subjects := default 0%Z (cfg_max_subjects config);
     max_branches := default 0%Z (cfg_max_branches config);
     max_departments := default 2%Z (cfg_max_departments config);
     max_years := default 2%Z (cfg_max_years config);
     allowed_years :=
       match cfg_allowed_years config with
       | Some l => list_to_set l
       | None => list_to_set [1; 2; 3; 4; 5; 6]%Z
       end |}.

(** One entry of [room_status].  The backtracking search keeps no
    ['students'] list; there the field stays empty. *)
Record RoomStatus : Type := mkStatus {
  remaining_capacity : Z;
  subjects : gset (option string);
  branches : gset string;
  years : gset Z;
  departments : gset (option string);
  students : list string
}.

#[global] Instance RoomStatus_inhabited : Inhabited RoomStatus :=
  populate (mkStatus 0 ∅ ∅ ∅ ∅ []).

Definition fresh_status (room : RoomConfig) : RoomStatus :=
  mkStatus (capacity room) ∅ ∅ ∅ ∅ [].

(** [{room.room_id: {...} for room in rooms}] *)
Definition init_status (rooms : list RoomConfig) : gmap string RoomStatus :=
  foldl (λ m room, <[room_id room := fresh_status room]> m) ∅ rooms.

Definition group_years (group : list Student) : gset Z := list_to_set (year <$> group).
Definition group_subjects (group : list Student) : gset (option string) :=
  list_to_set (subject <$> group).
Definition group_branches (group : list Student) : gset string :=
  list_to_set (branch <$> group).
Definition group_departments (group : list Student) : gset (option string) :=
  list_to_set (department <$> group).

(** [room.max_x > 0 and len(seen.union(new)) > room.max_x] *)
Definition over_ceiling `{Countable A} (ceiling : Z) (seen new : gset A) : bool :=
  bool_decide (0 < ceiling)%Z && bool_decide (ceiling < Z.of_nat (size (seen ∪ new)))%Z.

(** The chain of [continue]s in the room loop of [first_fit_decreasing]. *)
Definition ffd_accepts (room : RoomConfig) (status : RoomStatus)
    (group : list Student) : bool :=
  if bool_decide (remaining_capacity status < Z.of_nat (length group))%Z then false
  else if negb (bool_decide (group_years group ⊆ allowed_years room)) then false
  else if over_ceiling (max_years room) (years status) (group_years group) then false
  else if over_ceiling (max_departments room) (departments status)
            (group_departments group) then false
  else if over_ceiling (max_subjects room) (subjects status) (group_subjects group) then false
  else if over_ceiling (max_branches room) (branches status) (group_branches group) then false
  else true.

(** The status updates of a placement; [with_students] is the
    [status['students'].extend(...)] only [first_fit_decreasing] does. *)
Definition place_status (with_students : bool) (status : RoomStatus)
    (group : list Student) : RoomStatus :=
  {| remaining_capacity := (remaining_capacity status - Z.of_nat (length group))%Z;
     subjects := subjects status ∪ group_subjects group;
     branches := branches status ∪ group_branches group;
     years := years status ∪ group_years group;
     departments := departments status ∪ group_departments group;
     students := if with_students then students status ++ (student_id <$> group)
                 else students status |}.

(** [for room in sorted_rooms: ...]: the first accepting room takes the group. *)
Fixpoint ffd_place (sorted_rooms : list RoomConfig) (group : list Student)
    (room_status : gmap string RoomStatus) (assignments : list (string * list string))
  : option (gmap string RoomStatus * list (string * list string)) :=
  match sorted_rooms with
  | [] => None
  | room :: rest =>
      let status := room_status !!! room_id room in
      if ffd_accepts room status group then
        Some (<[room_id room := place_status true status group]> room_status,
              dd_extend (room_id room) (student_id <$> group) assignments)
      else ffd_place rest group room_status assignments
  end.

(** [for group in sorted_groups: ...]; [None] is [all_groups_placed = False]. *)
Fixpoint ffd_loop (rooms : list RoomConfig) (sorted_groups : list (list Student))
    (room_status : gmap string RoomStatus) (assignments : list (string * list string))
  : option (list (string * list string)) :=
  match sorted_groups with
  | [] => Some assignments
  | group :: rest =>
      let sorted_rooms :=
        sorted_desc (λ x, remaining_capacity (room_status !!! room_id x)) rooms in
      match ffd_place sorted_rooms group room_status assignments with
      | Some (room_status, assignments) => ffd_loop rooms rest room_status assignments
      | None => None
      end
  end.

Definition group_size (group : list Student) : Z := Z.of_nat (length group).

Definition nonempty_rooms (assignments : list (string * list string))
  : list (string * list string) :=
  filter (λ kv, kv.2 ≠ []) assignments.

Definition first_fit_decreasing (groups : list (nat * list Student))
    (rooms : list RoomConfig) : option (list (string * list string)) :=
  let sorted_groups := sorted_desc group_size groups.*2 in
  match ffd_loop rooms sorted_groups (init_status rooms) [] with
  | Some assignments => Some (nonempty_rooms assignments)
  | None => None
  end.

(** [can_place(room_id, group_students)]; [next(...)] always finds the
    room, the id being that of a room of [rooms]. *)
Definition can_place (rooms : list RoomConfig) (room_status : gmap string RoomStatus)
    (rid : string) (group_students : list Student) : bool :=
  match list_find (λ r, room_id r = rid) rooms with
  | None => false
  | Some (_, room_config) =>
      let status := room_status !!! rid in
      if bool_decide (remaining_capacity status < Z.of_nat (length group_students))%Z
      then false
      else if negb (bool_decide (group_years group_students ⊆ allowed_years room_config))
      then false
      else if over_ceiling (max_years room_config) (years status)
                (group_years group_students) then false
      else if over_ceiling (max_departments room_config) (departments status)
                (group_departments group_students) then false
      else if over_ceiling (max_subjects room_config) (subjects status)
                (group_subjects group_students) then false
      else if over_ceiling (max_branches room_config) (branches status)
                (group_branches group_students) then false
      else true
  end.

(** The state the search mutates: [room_status] and [room_assignments]. *)
Record search_state : Type := mkSearch {
  s_status : gmap string RoomStatus;
  s_assignments : list (string * list string)
}.

(** "Make assignment" *)
Definition make_assignment (st : search_state) (room : RoomConfig)
    (group : list Student) : search_state :=
  {| s_status := <[room_id room :=
                     place_status false (s_status st !!! room_id room) group]> (s_status st);
     s_assignments := dd_extend (room_id room) (student_id <$> group) (s_assignments st) |}.

(** "Backtrack": the five saved fields are written back and the group's ids
    are filtered out of the room's list. *)
Definition backtrack (st : search_state) (room : RoomConfig)
    (original_status : RoomStatus) (group : list Student) : search_state :=
  {| s_status := <[room_id room := original_status]> (s_status st);
     s_assignments :=
       dict_set (room_id room)
         (filter (λ sid, sid ∉ (student_id <$> group))
                 (dd_get (room_id room) (s_assignments st)))
         (s_assignments st) |}.

(** The [for room in rooms] loop of [dfs(index)] for the group at [index];
    [dfs_next] is [dfs(index + 1)]. *)
Fixpoint try_rooms (rooms : list RoomConfig)
    (dfs_next : search_state → bool * search_state) (group : list Student)
    (candidates : list RoomConfig) (st : search_state) : bool * search_state :=
  match candidates with
  | [] => (false, st)
  | room :: candidates' =>
      if can_place rooms (s_status st) (room_id room) group then
        let original_status := s_status st !!! room_id room in
        let r := dfs_next (make_assignment st room group) in
        if r.1 then (true, r.2)
        else try_rooms rooms dfs_next group candidates'
               (backtrack r.2 room original_status group)
      else try_rooms rooms dfs_next group candidates' st
  end.

(** [dfs(index)], on the groups from [index] on. *)
Fixpoint dfs (rooms : list RoomConfig) (groups : list (list Student))
    (st : search_state) : bool * search_state :=
  match groups with
  | [] => (true, st)
  | group :: rest => try_rooms rooms (dfs rooms rest) group rooms st
  end.

Definition backtracking_assign (groups : list (nat * list Student))
    (rooms : list RoomConfig) : outcome exn (list (string * list string)) :=
  let sorted_groups := sorted_desc group_size groups.*2 in
  let r := dfs rooms sorted_groups (mkSearch (init_status rooms) []) in
  if r.1 then Returned (nonempty_rooms (s_assignments r.2))
  else Raised (ValueError NoValidAssignment).

(** [[Student(sid, student_metadata[sid]) for sid in student_ids]] *)
Fixpoint make_students (student_metadata : gmap string Metadata)
    (student_ids : list string) : outcome exn (list Student) :=
  match student_ids with
  | [] => Returned []
  | sid :: rest =>
      match student_metadata !! sid with
      | None => Raised (KeyError sid)
      | Some metadata =>
          match make_Student sid metadata with
          | Raised e => Raised e
          | Returned s =>
              match make_students student_metadata rest with
              | Raised e => Raised e
              | Returned ss => Returned (s :: ss)
              end
          end
      end
  end.

(** [for color, student_ids in groups.items(): student_groups[color] = ...] *)
Fixpoint make_student_groups (student_metadata : gmap string Metadata)
    (groups : list (nat * list string)) (student_groups : list (nat * list Student))
  : outcome exn (list (nat * list Student)) :=
  match groups with
  | [] => Returned student_groups
  | (color, student_ids) :: rest =>
      match make_students student_metadata student_ids with
      | Raised e => Raised e
      | Returned ss =>
          make_student_groups student_metadata rest (dict_set color ss student_groups)
      end
  end.

Definition sum_Z (l : list Z) : Z := foldl Z.add 0%Z l.

Definition assign_rooms_to_groups (groups : list (nat * list string))
    (student_metadata : gmap string Metadata) (rooms_config : list room_config)
  : outcome exn (list (string * list string)) :=
  let room_objects := make_RoomConfig <$> rooms_config in
  match make_student_groups student_metadata groups [] with
  | Raised e => Raised e
  | Returned student_groups =>
      let total_students := sum_Z (group_size <$> student_groups.*2) in
      let total_capacity := sum_Z (capacity <$> room_objects) in
      if bool_decide (total_capacity < total_students)%Z then
        Raised (ValueError (NotEnoughCapacity total_students total_capacity))
      else
        match first_fit_decreasing student_groups room_objects with
        | Some ffd_result => Returned ffd_result
        | None => backtracking_assign student_groups room_objects
        end
  end.

End RoomAssignment.
(* ===================================================================== *)
(** * seat_layout.py *)
(* ===================================================================== *)

Module SeatLayout.
Import Py RoomAssignment.

(** [get_adjacent_positions(x, y, cols, rows)]: the 8-neighbourhood inside
    the grid. *)
Definition get_adjacent_positions (x y cols rows : Z) : list (Z * Z) :=
  dx ← [-1; 0; 1]%Z;
  dy ← [-1; 0; 1]%Z;
  if bool_decide (dx = 0 ∧ dy = 0)%Z then []
  else
    let nx := (x + dx)%Z in
    let ny := (y + dy)%Z in
    if bool_decide (0 ≤ nx < cols ∧ 0 ≤ ny < rows)%Z then [(nx, ny)] else [].

Definition is_adjacent_to_friend (x y : Z) (student_id : string)
    (assigned_positions : gmap (Z * Z) string)
    (friend_graph : gmap string (gset string)) (cols rows : Z) : bool :=
  match friend_graph !! student_id with
  | None => false
  | Some friends =>
      existsb (λ adj,
                 match assigned_positions !! adj with
                 | Some adjacent_student => bool_decide (adjacent_student ∈ friends)
                 | None => false
                 end)
              (get_adjacent_positions x y cols rows)
  end.

(** [(idx % cols, idx // cols)] *)
Definition cell_of (cols idx : Z) : Z * Z := ((idx `mod` cols)%Z, (idx `div` cols)%Z).

Definition find_non_adjacent_position (student_id : string)
    (assigned_positions : gmap (Z * Z) string)
    (friend_graph : gmap string (gset string)) (cols rows : Z)
  : option (Z * Z * Z) :=
  let total_seats := (cols * rows)%Z in
  match list_find (λ idx,
          assigned_positions !! cell_of cols idx = None ∧
          is_adjacent_to_friend (cell_of cols idx).1 (cell_of cols idx).2 student_id
            assigned_positions friend_graph cols rows = false)
        (range total_seats) with
  | Some (_, idx) => Some (cell_of cols idx, (idx + 1)%Z)
  | None =>
      match list_find (λ idx, assigned_positions !! cell_of cols idx = None)
              (range total_seats) with
      | Some (_, idx) => Some (cell_of cols idx, (idx + 1)%Z)
      | None => None
      end
  end.

(** [while any(queues): for q in queues: if q: result.append(q.popleft())];
    a round shortens every non-empty queue, so [fuel] rounds, with [fuel]
    the number of queued students, always suffice. *)
Fixpoint interleave_loop {A} (fuel : nat) (queues : list (list A)) : list A :=
  match fuel with
  | O => []
  | S fuel' =>
      if existsb (λ q, bool_decide (q ≠ [])) queues
      then omap head queues ++ interleave_loop fuel' (tail <$> queues)
      else []
  end.

Definition interleave_groups {A} (groups : list (list A)) : list A :=
  let non_empty_groups := filter (λ group, group ≠ []) groups in
  match non_empty_groups with
  | [] => []
  | _ => interleave_loop (length (concat non_empty_groups)) non_empty_groups
  end.

(** [metadata.get(sid, {}).get('Year', 'Unknown')]: the value as stored,
    not converted. *)
Definition year_of (metadata : gmap string Metadata) (sid : string) : year_value :=
  default (YearStr "Unknown") (metadata !! sid ≫= md_Year).

Definition year_groups (metadata : gmap string Metadata) (students : list string)
  : list (year_value * list string) :=
  foldl (λ d sid, dd_append (year_of metadata sid) sid d) [] students.

(** The room's [(cols, rows)]; [room_config] is [None] when it is not a dict. *)
Definition room_layout (room_config : option (gmap string room_config)) (room : string)
  : Z * Z :=
  match room_config with
  | Some d =>
      match d !! room with
      | Some layout_info =>
          (default (default 6%Z (cfg_columns layout_info)) (cfg_layout_columns layout_info),
           default (default 5%Z (cfg_rows layout_info)) (cfg_layout_rows layout_info))
      | None => (6%Z, 5%Z)
      end
  | None => (6%Z, 5%Z)
  end.

(** One seat of the output. *)
Record Seat : Type := mkSeat {
  seat_x : Z;
  seat_y : Z;
  seat_student_id : string;
  seat_no : Z;
  seat_Name : string;
  seat_Department : string;
  seat_Branch : string;
  seat_Year : year_value;
  seat_Subject : string;
  seat_ExamTime : string
}.

Definition make_seat (metadata : gmap string Metadata) (student_id : string)
    (position : Z * Z * Z) : Seat :=
  let student_info := metadata !! student_id in
  let get (f : Metadata → option string) := default "Unknown" (student_info ≫= f) in
  {| seat_x := position.1.1;
     seat_y := position.1.2;
     seat_student_id := student_id;
     seat_no := position.2;
     seat_Name := get md_Name;
     seat_Department := get md_Department;
     seat_Branch := get md_Branch;
     seat_Year := default (YearStr "Unknown") (student_info ≫= md_Year);
     seat_Subject := get md_Subject;
     seat_ExamTime := get md_ExamTime |}.

(** An entry of [adjacency_violations]. *)
Record Violation : Type := mkViolation {
  v_room : string;
  v_student_id : string;
  v_position : Z * Z
}.

(** The locals of the placement loop of one room. *)
Record placing : Type := mkPlacing {
  seats : list Seat;
  assigned_positions : gmap (Z * Z) string;
  adjacency_violations : list Violation
}.

(** The body of [for student_id in queue]. *)
Definition place_student (metadata : gmap string Metadata)
    (friend_graph : gmap string (gset string)) (room : string) (cols rows : Z)
    (st : placing) (student_id : string) : placing :=
  match find_non_adjacent_position student_id (assigned_positions st) friend_graph
          cols rows with
  | None => st
  | Some position =>
      let assigned := <[position.1 := student_id]> (assigned_positions st) in
      {| seats := seats st ++ [make_seat metadata student_id position];
         assigned_positions := assigned;
         adjacency_violations :=
           if is_adjacent_to_friend position.1.1 position.1.2 student_id assigned
                friend_graph cols rows
           then adjacency_violations st ++ [mkViolation room student_id position.1]
           else adjacency_violations st |}
  end.

(** The body of [for room, students in room_assignment.items()], on the
    pair of [seating] and [adjacency_violations]. *)
Definition separation_room (metadata : gmap string Metadata)
    (room_config : option (gmap string room_config))
    (friend_graph : gmap string (gset string))
    (acc : list (string * list Seat) * list Violation)
    (entry : string * list string) : list (string * list Seat) * list Violation :=
  match entry.2 with
  | [] => acc
  | _ =>
      let queue := interleave_groups (year_groups metadata entry.2).*2 in
      let layout := room_layout room_config entry.1 in
      let st := foldl (place_student metadata friend_graph entry.1 layout.1 layout.2)
                  (mkPlacing [] ∅ acc.2) queue in
      (dict_set entry.1 (seats st) acc.1, adjacency_violations st)
  end.

(** The whole loop: the [seating] dict and the [adjacency_violations] list
    as they stand when the function reaches its [return]. *)
Definition separation_loop (metadata : gmap string Metadata)
    (room_config : option (gmap string room_config))
    (friend_graph : gmap string (gset string))
    (room_assignment : list (string * list string))
  : list (string * list Seat) * list Violation :=
  foldl (separation_room metadata room_config friend_graph) ([], []) room_assignment.

(** [return seating]; a [friend_graph] of [None] is fetched from the
    database, [db_friend_graph]. *)
Definition assign_seats_with_separation (db_friend_graph : gmap string (gset string))
    (room_assignment : list (string * list string)) (metadata : gmap string Metadata)
    (room_config : option (gmap string room_config))
    (friend_graph : option (gmap string (gset string))) : list (string * list Seat) :=
  (separation_loop metadata room_config (default db_friend_graph friend_graph)
     room_assignment).1.

(** [(i % cols, i // cols, i + 1)] *)
Definition row_major (cols i : Z) : Z * Z * Z := (cell_of cols i, (i + 1)%Z).

(** A checkerboard pass flattened: the cells [(col, row, idx + 1)] in the
    order the two nested loops visit them, [start_of row] being the first
    column of the row. *)
Definition checkerboard (start_of : Z → Z) (cols rows : Z) : list (Z * Z * Z) :=
  row ← range rows;
  col ← range2 (start_of row) cols;
  [((col, row), (row * cols + col + 1)%Z)].

(** The appends of a pass, up to the [return positions] that leaves the
    function once [len(positions) >= num_students] ([inl]); [inr] is the
    pass running to its end.  [check_seen] is the [if pos not in positions]
    of the second pass. *)
Fixpoint fill_until (num_students : Z) (check_seen : bool)
    (cells : list (Z * Z * Z)) (positions : list (Z * Z * Z))
  : list (Z * Z * Z) + list (Z * Z * Z) :=
  match cells with
  | [] => inr positions
  | pos :: rest =>
      if check_seen && bool_decide (pos ∈ positions)
      then fill_until num_students check_seen rest positions
      else
        let positions := positions ++ [pos] in
        if bool_decide (num_students ≤ Z.of_nat (length positions))%Z
        then inl positions
        else fill_until num_students check_seen rest positions
  end.

(** [get_spread_positions(num_students, cols, rows)], for
    [num_students >= 1]: the callers pass the length of a non-empty queue
    (with 0 and a non-empty grid the division raises). *)
Definition get_spread_positions (num_students cols rows : Z) : list (Z * Z * Z) :=
  let total_seats := (cols * rows)%Z in
  if bool_decide (total_seats ≤ num_students)%Z then
    row_major cols <$> range total_seats
  else
    let spacing := Z.max 1 (total_seats `div` num_students) in
    if bool_decide (2 ≤ spacing)%Z then
      match fill_until num_students false
              (checkerboard (λ row, row `mod` 2)%Z cols rows) [] with
      | inl positions => positions
      | inr positions =>
          match fill_until num_students true
                  (checkerboard (λ row, 1 - row `mod` 2)%Z cols rows) positions with
          | inl positions => positions
          | inr positions => take (Z.to_nat num_students) positions
          end
      end
    else
      take (Z.to_nat num_students)
        (row_major cols <$> range (Z.min num_students total_seats)).

(** The body of the room loop of [assign_seats_in_room]. *)
Definition spread_room (metadata : gmap string Metadata)
    (room_config : option (gmap string room_config))
    (seating : list (string * list Seat)) (entry : string * list string)
  : list (string * list Seat) :=
  match entry.2 with
  | [] => seating
  | _ =>
      let queue := interleave_groups (year_groups metadata entry.2).*2 in
      let layout := room_layout room_config entry.1 in
      let positions :=
        get_spread_positions (Z.of_nat (length queue)) layout.1 layout.2 in
      dict_set entry.1 (zip_with (make_seat metadata) queue positions) seating
  end.

(** [if friend_graph:] *)
Definition truthy (friend_graph : option (gmap string (gset string))) : bool :=
  match friend_graph with
  | Some g => negb (bool_decide (g = ∅))
  | None => false
  end.

Definition assign_seats_in_room (db_friend_graph : gmap string (gset string))
    (room_assignment : list (string * list string)) (metadata : gmap string Metadata)
    (room_config : option (gmap string room_config))
    (friend_graph : option (gmap string (gset string))) : list (string * list Seat) :=
  if truthy friend_graph then
    assign_seats_with_separation db_friend_graph room_assignment metadata room_config
      friend_graph
  else
    foldl (spread_room metadata room_config) [] room_assignment.

End SeatLayout.
(* ===================================================================== *)
(** * Between the stages *)
(* ===================================================================== *)

Module Pipeline.
Import Py ConflictGraph RoomAssignment SeatLayout.

(** [{r['room_name']: r for r in current_rooms_config}]: of two rooms with
    one name the later one stays. *)
Definition room_config_dict (current_rooms_config : list room_config)
  : gmap string room_config :=
  foldl (λ d r, <[cfg_room_name r := r]> d) ∅ current_rooms_config.

End Pipeline.
(* ===================================================================== *)
(** * conflict_graph.py: the colouring with its statistics *)
(* ===================================================================== *)

Module ConflictGraphStats.
Import Py ConflictGraph.

(** The [stats] dict of [get_colored_groups_with_stats]. *)
Record Stats : Type := mkStats {
  total_students : nat;
  total_groups : nat;
  graph_edges : nat;
  friend_pairs_applied : nat;
  chromatic_number : nat
}.

(** [get_colored_groups_with_stats]; [friend_pairs] is the set in the order
    its iteration yields the pairs, each pair once, so its [len] is the
    length of the list. *)
Definition get_colored_groups_with_stats (db_pairs : list (string * string))
    (df : list Row) (friend_pairs : option (list (string * string)))
    (enable_friend_separation enable_section_separation : bool)
  : list (nat * list string) * Stats :=
  let friend_pairs :=
    if enable_friend_separation then Some (default db_pairs friend_pairs)
    else friend_pairs in
  let graph :=
    build_enhanced_conflict_graph db_pairs df
      (if enable_friend_separation then friend_pairs else Some [])
      enable_section_separation in
  let color_mapping := dsatur_coloring graph in
  let groups := group_by_color color_mapping in
  (groups,
   {| total_students := length df;
      total_groups := length groups;
      graph_edges := length (edges graph);
      friend_pairs_applied :=
        match friend_pairs with
        | Some pairs => length pairs
        | None => 0
        end;
      chromatic_number := size (list_to_set color_mapping.*2 : gset nat) |}).

End ConflictGraphStats.
(* ===================================================================== *)
(** * models/relationships.py and the relationship loaders *)
(* ===================================================================== *)

Module Relationships.
Import Py.

Inductive RelationshipType : Type := FRIEND | RELATIVE | SAME_HOSTEL | SAME_ROOM.

(** A row of [student_relationships], with the columns the class methods
    read or write.  A table is the list of its rows as the session holds
    them, a query without [order_by] yielding them in that order. *)
Record StudentRelationship : Type := mkRelationship {
  student1_id : Z;
  student2_id : Z;
  relationship_type : RelationshipType;
  reported_by : option Z;
  notes : option string;
  is_active : bool
}.

(** [if notes:] *)
Definition notes_given (notes : option string) : bool :=
  match notes with
  | Some text => negb (bool_decide (text = ""))
  | None => false
  end.

(** [StudentRelationship.add_relationship]: the table afterwards and the
    row returned.  A new row gets [is_active] from the column default. *)
Definition add_relationship (table : list StudentRelationship)
    (student_a_id student_b_id : Z) (rel_type : RelationshipType)
    (reported_by : option Z) (notes : option string)
  : list StudentRelationship * StudentRelationship :=
  let s1 := Z.min student_a_id student_b_id in
  let s2 := Z.max student_a_id student_b_id in
  match list_find (λ r, student1_id r = s1 ∧ student2_id r = s2) table with
  | Some (i, existing) =>
      let existing :=
        {| student1_id := student1_id existing;
           student2_id := student2_id existing;
           relationship_type := rel_type;
           reported_by := Relationships.reported_by existing;
           notes := if notes_given notes then notes else Relationships.notes existing;
           is_active := true |} in
      (<[i := existing]> table, existing)
  | None =>
      let rel := mkRelationship s1 s2 rel_type reported_by notes true in
      (table ++ [rel], rel)
  end.

(** [ActiveMixin.deactivate] on the row at index [i]. *)
Definition deactivate (table : list StudentRelationship) (i : nat)
  : list StudentRelationship :=
  match table !! i with
  | Some r =>
      <[i := mkRelationship (student1_id r) (student2_id r) (relationship_type r)
               (reported_by r) (notes r) false]> table
  | None => table
  end.

(** [StudentRelationship.get_all_pairs] *)
Definition get_all_pairs (table : list StudentRelationship) : gset (Z * Z) :=
  list_to_set ((λ r, (student1_id r, student2_id r)) <$> filter (λ r, is_active r = true) table).

(** [graph[k].add(v)] on a [defaultdict(set)] *)
Definition graph_add (k v : Z) (graph : gmap Z (gset Z)) : gmap Z (gset Z) :=
  <[k := default ∅ (graph !! k) ∪ {[v]}]> graph.

(** [StudentRelationship.get_friend_graph] *)
Definition get_friend_graph (table : list StudentRelationship) : gmap Z (gset Z) :=
  foldl (λ graph rel,
           graph_add (student2_id rel) (student1_id rel)
             (graph_add (student1_id rel) (student2_id rel) graph))
        ∅ (filter (λ r, is_active r = true) table).

(** The CHECK and UNIQUE constraints of the table: a flush of rows that
    break them fails. *)
Definition constraints (table : list StudentRelationship) : Prop :=
  Forall (λ r, (student1_id r < student2_id r)%Z) table ∧
  NoDup ((λ r, (student1_id r, student2_id r)) <$> table).

(** ** main.py: [load_friend_relationships]

    The loop that builds [friends_map] from the fetched rows
    [(student1, student2, relationship_type)]. *)
Definition ensure_key (k : string) (friends_map : list (string * list string))
  : list (string * list string) :=
  if dict_has k friends_map then friends_map else dict_set k [] friends_map.

Definition friends_map_step (friends_map : list (string * list string))
    (row : string * string * string) : list (string * list string) :=
  let s1 := row.1.1 in
  let s2 := row.1.2 in
  let friends_map := ensure_key s1 friends_map in
  let friends_map := ensure_key s2 friends_map in
  let friends_map := dict_set s1 (dd_get s1 friends_map ++ [s2]) friends_map in
  dict_set s2 (dd_get s2 friends_map ++ [s1]) friends_map.

Definition build_friends_map (relationships : list (string * string * string))
  : list (string * list string) :=
  foldl friends_map_step [] relationships.

(** [friends_map] as the seat placer reads it: [student_id in friend_graph],
    [friend_graph[student_id]] and [adjacent_student in friends]. *)
Definition as_friend_graph (friends_map : list (string * list string))
  : gmap string (gset string) :=
  foldl (λ g kv, <[kv.1 := list_to_set kv.2]> g) ∅ friends_map.

End Relationships.
(* ===================================================================== *)
(** * main.py: the students of a session dealt out to the rooms *)
(* ===================================================================== *)

Module Main.
Import Py RoomAssignment.

(** [l[start:stop]]: a negative index counts from the end, and both ends
    are clamped to the list. *)
Definition py_slice {A} (l : list A) (start stop : Z) : list A :=
  let n := Z.of_nat (length l) in
  let clamp (i : Z) := if bool_decide (i < 0)%Z then Z.max (i + n) 0 else Z.min i n in
  take (Z.to_nat (clamp stop - clamp start)) (drop (Z.to_nat (clamp start)) l).

(** The body of [for room_config in current_rooms_config], on the pair
    of [room_assignment] and [student_idx]. *)
Definition deal_room (student_ids : list string)
    (st : list (string * list string) * Z) (room_config : room_config)
  : list (string * list string) * Z :=
  let room_name := cfg_room_name room_config in
  let capacity := cfg_capacity room_config in
  let room_students := py_slice student_ids st.2 (st.2 + capacity) in
  match room_students with
  | [] => st
  | _ => (dict_set room_name room_students st.1,
          (st.2 + Z.of_nat (length room_students))%Z)
  end.

(** [room_assignment] and [student_idx] after the loop. *)
Definition deal_students (student_ids : list string)
    (current_rooms_config : list room_config) : list (string * list string) * Z :=
  foldl (deal_room student_ids) ([], 0%Z) current_rooms_config.

End Main.
(* ===================================================================== *)
(** * models/room.py and models/seating.py: stored seats *)
(* ===================================================================== *)

Module Models.
Import Py.

(** A row of [seating_assignments], with the columns the methods read. *)
Record SeatingAssignment : Type := mkSeating {
  sa_id : Z;
  sa_exam_id : Z;
  sa_student_id : Z;
  sa_room_id : Z;
  sa_seat_number : Z;
  sa_seat_x : Z;
  sa_seat_y : Z
}.

(** [Room.get_seat_grid(exam_id)] for the room [room_id] with the layout
    [layout_columns] by [layout_rows]; the query yields the rows of the
    table in its order. *)
Definition get_seat_grid (table : list SeatingAssignment)
    (room_id layout_columns layout_rows exam_id : Z)
  : list (list (option SeatingAssignment)) :=
  let assignments :=
    filter (λ a, sa_room_id a = room_id ∧ sa_exam_id a = exam_id) table in
  let grid := replicate (Z.to_nat layout_rows) (replicate (Z.to_nat layout_columns) None) in
  foldl (λ grid assignment,
           if bool_decide ((0 ≤ sa_seat_y assignment < layout_rows)%Z ∧
                           (0 ≤ sa_seat_x assignment < layout_columns)%Z)
           then alter (λ row, <[Z.to_nat (sa_seat_x assignment) := Some assignment]> row)
                      (Z.to_nat (sa_seat_y assignment)) grid
           else grid)
        grid assignments.

(** [SeatingAssignment.get_adjacent_students] *)
Definition get_adjacent_students (table : list SeatingAssignment)
    (self : SeatingAssignment) : list SeatingAssignment :=
  filter (λ a, sa_exam_id a = sa_exam_id self ∧ sa_room_id a = sa_room_id self ∧
               sa_id a ≠ sa_id self ∧
               (Z.abs (sa_seat_x a - sa_seat_x self) ≤ 1)%Z ∧
               (Z.abs (sa_seat_y a - sa_seat_y self) ≤ 1)%Z)
         table.

End Models.
(* ===================================================================== *)
(** * Facts about the Python containers *)
(* ===================================================================== *)

Module PyFacts.
Import Py.

(** ** Facts about the containers *)

Section dict_facts.
Context {K V : Type} `{EqDecision K}.
Implicit Types (d : list (K * V)) (k : K) (v : V).

Lemma dict_get_None k d : dict_get k d = None ↔ k ∉ d.*1.
Proof.
  induction d as [|[k' v'] d IH]; simpl.
  - split; [intros _; apply not_elem_of_nil | done].
  - rewrite not_elem_of_cons. destruct (decide (k' = k)); subst.
    + split; [done | intros [? _]; done].
    + rewrite IH. intuition congruence.
Qed.

Lemma dict_get_is_Some k d : is_Some (dict_get k d) ↔ k ∈ d.*1.
Proof.
  rewrite <- not_eq_None_Some, dict_get_None.
  split; [apply dec_stable | auto].
Qed.

Lemma dict_has_true k d : dict_has k d = true ↔ k ∈ d.*1.
Proof. unfold dict_has. rewrite bool_decide_eq_true. apply dict_get_is_Some. Qed.

Lemma dict_has_false k d : dict_has k d = false ↔ k ∉ d.*1.
Proof.
  unfold dict_has. rewrite bool_decide_eq_false, dict_get_is_Some. done.
Qed.

Lemma dict_get_elem k v d : dict_get k d = Some v → (k, v) ∈ d.
Proof.
  induction d as [|[k' v'] d IH]; simpl; [done|].
  case_decide; subst.
  - intros [= ->]. left.
  - intros ?. right. auto.
Qed.

Lemma dict_get_unique k v d : NoDup d.*1 → (k, v) ∈ d → dict_get k d = Some v.
Proof.
  induction d as [|[k' v'] d IH]; simpl.
  - intros _ ?%elem_of_nil. done.
  - rewrite NoDup_cons. intros [Hk Hd] [Heq|Hin]%elem_of_cons.
    + injection Heq as -> ->. by rewrite decide_True.
    + case_decide; subst; [|auto].
      exfalso. apply Hk. apply (list_elem_of_fmap_2 fst) in Hin. done.
Qed.

Lemma dict_get_set k k' v d :
  dict_get k' (dict_set k v d) = if decide (k = k') then Some v else dict_get k' d.
Proof.
  induction d as [|[k0 v0] d IH]; simpl.
  - repeat case_decide; congruence.
  - destruct (decide (k0 = k)) as [->|]; simpl.
    + repeat case_decide; congruence.
    + rewrite IH. repeat case_decide; congruence.
Qed.

Lemma dict_set_fresh k v d : k ∉ d.*1 → dict_set k v d = d ++ [(k, v)].
Proof.
  induction d as [|[k0 v0] d IH]; simpl; [done|].
  rewrite not_elem_of_cons. intros [? ?].
  rewrite decide_False by done. by rewrite IH.
Qed.

Lemma dict_set_keys_present k v d : k ∈ d.*1 → (dict_set k v d).*1 = d.*1.
Proof.
  induction d as [|[k0 v0] d IH]; simpl.
  - intros ?%elem_of_nil. done.
  - intros Hin. case_decide; subst; simpl; [done|].
    f_equal. apply IH. apply elem_of_cons in Hin as [?|?]; [congruence | done].
Qed.

Lemma dict_set_keys k v d :
  (dict_set k v d).*1 = if decide (k ∈ d.*1) then d.*1 else d.*1 ++ [k].
Proof.
  case_decide.
  - by apply dict_set_keys_present.
  - rewrite dict_set_fresh by done. by rewrite fmap_app.
Qed.

Lemma dict_set_NoDup k v d : NoDup d.*1 → NoDup (dict_set k v d).*1.
Proof.
  intros Hd. rewrite dict_set_keys. case_decide; [done|].
  apply NoDup_app. split_and!; [done | | apply NoDup_singleton].
  intros x Hx ->%list_elem_of_singleton. done.
Qed.
End dict_facts.

Lemma max_by_elem {A} (gt : A → A → bool) xs x : max_by gt xs = Some x → x ∈ xs.
Proof.
destruct xs as [|x0 xs]; simpl; [done|]. intros [= <-].
assert (∀ l b, foldl (λ best y, if gt y best then y else best) b l ∈ b :: l) as H.
{ induction l as [|y l IH]; intros b; simpl; [left|].
  specialize (IH (if gt y b then y else b)).
  apply elem_of_cons in IH as [->|?].
  - destruct (gt y b); [right; left | left].
  - right. by right. }
apply H.
Qed.

Lemma max_by_is_Some {A} (gt : A → A → bool) xs : xs ≠ [] → is_Some (max_by gt xs).
Proof. destruct xs; [done | eauto]. Qed.


Section defaultdict_facts.
Context {K A : Type} `{EqDecision K}.
Implicit Types (d : list (K * list A)) (k : K) (xs : list A).

Lemma elem_of_dict_set {V} k (v : V) (d : list (K * V)) kv :
  kv ∈ dict_set k v d → kv ∈ d ∨ kv = (k, v).
Proof.
  induction d as [|[k0 v0] d IH]; simpl.
  - intros ->%list_elem_of_singleton. by right.
  - case_decide; subst.
    + intros [->|?]%elem_of_cons; [by right | left; by right].
    + intros [->|?]%elem_of_cons; [left; by left|].
      destruct IH as [?|?]; [done | left; by right | by right].
Qed.

Lemma dict_set_concat k m xs d :
  dict_get k d = Some m → concat (dict_set k (m ++ xs) d).*2 ≡ₚ concat d.*2 ++ xs.
Proof.
  induction d as [|[k0 v0] d IH]; simpl; [done|].
  case_decide; subst; simpl.
  - intros [= ->]. rewrite <- !(assoc_L (++)). f_equiv. apply Permutation_app_comm.
  - intros Hm. rewrite IH by done. by rewrite (assoc_L (++)).
Qed.

Lemma dd_extend_concat k xs d : concat (dd_extend k xs d).*2 ≡ₚ concat d.*2 ++ xs.
Proof.
  unfold dd_extend, dd_get. destruct (dict_get k d) as [m|] eqn:Hget; simpl.
  - by apply dict_set_concat.
  - apply dict_get_None in Hget. rewrite dict_set_fresh by done.
    rewrite fmap_app, concat_app. simpl. by rewrite app_nil_r.
Qed.

Lemma dd_extend_NoDup k xs d : NoDup d.*1 → NoDup (dd_extend k xs d).*1.
Proof. apply dict_set_NoDup. Qed.

Lemma dd_get_extend k k' xs d :
  dd_get k' (dd_extend k xs d) = if decide (k = k') then dd_get k d ++ xs else dd_get k' d.
Proof. unfold dd_extend, dd_get at 1. rewrite dict_get_set. by case_decide. Qed.

Lemma elem_of_dd_get k a d : a ∈ dd_get k d → ∃ m, (k, m) ∈ d ∧ a ∈ m.
Proof.
  unfold dd_get. destruct (dict_get k d) as [m|] eqn:Hget; simpl.
  - intros ?. exists m. split; [by apply dict_get_elem | done].
  - by intros ?%elem_of_nil.
Qed.

Lemma dd_get_unique k m d : NoDup d.*1 → (k, m) ∈ d → dd_get k d = m.
Proof. intros ? ?. unfold dd_get. by erewrite dict_get_unique. Qed.

(** The [defaultdict(list)] grouping loop
    [for x in l: d[key(x)].append(val(x))]. *)
Lemma group_by_spec {X} (key : X → K) (val : X → A) (l : list X) d0 :
  (NoDup d0.*1 → NoDup (foldl (λ d x, dd_append (key x) (val x) d) d0 l).*1) ∧
  concat (foldl (λ d x, dd_append (key x) (val x) d) d0 l).*2
    ≡ₚ concat d0.*2 ++ (val <$> l) ∧
  (∀ k m a, (k, m) ∈ foldl (λ d x, dd_append (key x) (val x) d) d0 l → a ∈ m →
     (∃ m0, (k, m0) ∈ d0 ∧ a ∈ m0) ∨ ∃ x, x ∈ l ∧ key x = k ∧ val x = a).
Proof.
  revert d0. induction l as [|x l IH]; intros d0; simpl.
  - split_and!; [done | by rewrite app_nil_r | eauto].
  - destruct (IH (dd_append (key x) (val x) d0)) as (Hnd & Hperm & Hmem).
    split_and!.
    + intros ?. by apply Hnd, dd_extend_NoDup.
    + rewrite Hperm. unfold dd_append. rewrite dd_extend_concat.
      by rewrite <- (assoc_L (++)).
    + intros k m a Hin Ha. destruct (Hmem k m a Hin Ha) as [(m0 & Hm0 & Ha0)|(x' & ? & ? & ?)].
      * apply elem_of_dict_set in Hm0 as [?|Heq]; [eauto|]. injection Heq as -> ->.
        apply elem_of_app in Ha0 as [Ha0| ->%list_elem_of_singleton].
        -- left. by apply elem_of_dd_get.
        -- right. exists x. split; [left | done].
      * right. exists x'. split; [by right | done].
Qed.
End defaultdict_facts.

Lemma dict_set_concat_shrink {K A : Type} `{EqDecision K} (k : K) (m xs : list A)
    (d : list (K * list A)) :
  dd_get k d = m ++ xs → concat d.*2 ≡ₚ concat (dict_set k m d).*2 ++ xs.
Proof.
  unfold dd_get. destruct (dict_get k d) as [v|] eqn:Hget; simpl.
  - intros ->. revert Hget. induction d as [|[k0 v0] d IH]; simpl; [done|].
    case_decide; subst; simpl.
    + intros [= ->]. rewrite <- !(assoc_L (++)). f_equiv. apply Permutation_app_comm.
    + intros Hm. rewrite (IH Hm) at 1. by rewrite (assoc_L (++)).
  - intros Hnil. symmetry in Hnil. apply app_eq_nil in Hnil as [-> ->].
    apply dict_get_None in Hget. rewrite dict_set_fresh by done.
    rewrite fmap_app, concat_app. simpl. by rewrite !app_nil_r.
Qed.

Lemma insert_desc_Permutation {A} (key : A → Z) x l : insert_desc key x l ≡ₚ x :: l.
Proof.
  induction l as [|y l IH]; simpl; [done|].
  destruct (key y <=? key x)%Z; [done|]. rewrite IH. apply Permutation_swap.
Qed.

Lemma sorted_desc_Permutation {A} (key : A → Z) l : sorted_desc key l ≡ₚ l.
Proof.
  induction l as [|x l IH]; simpl; [done|].
  by rewrite insert_desc_Permutation, IH.
Qed.

Lemma filter_not_elem_of_keep {A} `{EqDecision A} (xs ys : list A) :
  (∀ x, x ∈ xs → x ∉ ys) → filter (λ x, x ∉ ys) xs = xs.
Proof.
  induction xs as [|x xs IH]; intros H; [done|].
  rewrite filter_cons_True by (apply H; left). f_equal. apply IH.
  intros y ?. apply H. by right.
Qed.

Lemma filter_not_elem_of_drop {A} `{EqDecision A} (xs ys : list A) :
  (∀ x, x ∈ xs → x ∈ ys) → filter (λ x, x ∉ ys) xs = [].
Proof.
  induction xs as [|x xs IH]; intros H; [done|].
  rewrite filter_cons_False by (intros Hn; apply Hn, H; left). apply IH.
  intros y ?. apply H. by right.
Qed.

Lemma elem_of_concat {A} (x : A) (ls : list (list A)) :
  x ∈ concat ls ↔ ∃ l, l ∈ ls ∧ x ∈ l.
Proof.
  induction ls as [|l ls IH]; simpl.
  - split; [by intros ?%elem_of_nil | by intros (l & ?%elem_of_nil & _)].
  - rewrite elem_of_app, IH. split.
    + intros [?|(l' & ? & ?)]; [exists l; split; [left|done] | exists l'; split; [by right|done]].
    + intros (l' & [->|?]%elem_of_cons & ?); [by left | right; eauto].
Qed.

(** ** [range] *)

Lemma elem_of_range n x : x ∈ range n ↔ (0 ≤ x < n)%Z.
Proof.
  unfold range. rewrite list_elem_of_fmap. setoid_rewrite elem_of_seq. split.
  - intros (k & -> & ?). lia.
  - intros ?. exists (Z.to_nat x). lia.
Qed.

Lemma NoDup_range n : NoDup (range n).
Proof. unfold range. apply NoDup_fmap_2; [apply Nat2Z.inj' | apply NoDup_seq]. Qed.

Lemma length_range n : length (range n) = Z.to_nat n.
Proof. unfold range. by rewrite length_fmap, length_seq. Qed.

Lemma take_range (k : nat) n :
  (Z.of_nat k ≤ n)%Z → take k (range n) = range (Z.of_nat k).
Proof.
  intros Hk. unfold range. rewrite <- fmap_take. f_equal. rewrite Nat2Z.id.
  replace (Z.to_nat n) with (k + (Z.to_nat n - k)) by lia.
  rewrite seq_app. rewrite take_app_length'; [done | by rewrite length_seq].
Qed.

Lemma elem_of_range2 start stop x :
  x ∈ range2 start stop ↔ ∃ k : nat, x = (start + 2 * Z.of_nat k)%Z ∧ (x < stop)%Z.
Proof.
  unfold range2. rewrite list_elem_of_fmap. setoid_rewrite elem_of_seq. split.
  - intros (k & -> & [_ Hk]). exists k. split; [done|].
    assert (Z.of_nat k < (stop - start + 1) `div` 2)%Z as Hlt by lia.
    pose proof (Z.div_mod (stop - start + 1) 2 ltac:(lia)).
    pose proof (Z.mod_pos_bound (stop - start + 1) 2 ltac:(lia)). lia.
  - intros (k & -> & Hk). exists k. split; [done|]. split; [lia|]. simpl.
    assert (Z.of_nat k + 1 ≤ (stop - start + 1) `div` 2)%Z; [|lia].
    apply Z.div_le_lower_bound; lia.
Qed.

Lemma NoDup_range2 start stop : NoDup (range2 start stop).
Proof.
  unfold range2. apply NoDup_fmap_2; [|apply NoDup_seq].
  intros a b ?. lia.
Qed.

End PyFacts.
(* ===================================================================== *)
(** * Properties of the conflict graph and of the colouring *)
(* ===================================================================== *)

Module ConflictGraphProofs.
Import Py PyFacts ConflictGraph.

(** The invariant of a [networkx.Graph]: every node once, and both ends of
    every edge are nodes. *)
Definition wf_graph (g : Graph) : Prop :=
  NoDup (nodes g) ∧ Forall (λ e, e.1.1 ∈ nodes g ∧ e.1.2 ∈ nodes g) (edges g).

#[global] Instance wf_graph_dec g : Decision (wf_graph g).
Proof. unfold wf_graph. apply _. Defined.

(** What a finished colouring has to satisfy. *)
Record coloring_inv (g : Graph) (colors : list (string * nat)) : Prop := {
  ci_nodup : NoDup colors.*1;
  ci_nodes : ∀ n, n ∈ colors.*1 → n ∈ nodes g;
  ci_proper : ∀ u v cu cv,
    u ≠ v → has_edge g u v = true →
    dict_get u colors = Some cu → dict_get v colors = Some cv → cu ≠ cv
}.

(** Two graphs the colouring cannot tell apart. *)
Definition graph_equiv (g1 g2 : Graph) : Prop :=
  nodes g1 = nodes g2 ∧ ∀ a b, has_edge g1 a b = has_edge g2 a b.

(** [g'] has every node and every edge of [g]. *)
Definition extends (g g' : Graph) : Prop :=
  (∀ n, n ∈ nodes g → n ∈ nodes g') ∧
  (∀ a b, has_edge g a b = true → has_edge g' a b = true).

(** ** networkx *)

Lemma joins_sym u v e : joins u v e = joins v u e.
Proof. unfold joins. apply bool_decide_ext. tauto. Qed.

Lemma has_edge_sym g u v : has_edge g u v = has_edge g v u.
Proof.
  unfold has_edge. induction (edges g) as [|e l IH]; simpl; [done|].
  by rewrite IH, joins_sym.
Qed.

Lemma has_edge_true g u v :
  has_edge g u v = true ↔ ∃ e, e ∈ edges g ∧ joins u v e = true.
Proof.
  unfold has_edge. induction (edges g) as [|e l IH]; simpl.
  - split; [done | intros (e & ?%elem_of_nil & _); done].
  - rewrite orb_true_iff, IH. split.
    + intros [?|(e' & ? & ?)]; [exists e | exists e']; split; auto; by constructor.
    + intros (e' & [->|?]%elem_of_cons & ?); [by left | right; eauto].
Qed.

Lemma elem_of_neighbors g u v : u ∈ neighbors g v ↔ has_edge g v u = true.
Proof.
  unfold neighbors. rewrite elem_of_remove_dups, list_elem_of_bind, has_edge_true.
  split; intros (e & H1 & H2); exists e.
  - split; [done|]. unfold other_ends in H1. unfold joins.
    apply bool_decide_eq_true.
    apply elem_of_app in H1 as [H1|H1]; case_bool_decide; try by apply elem_of_nil in H1.
    + apply list_elem_of_singleton in H1. auto.
    + apply list_elem_of_singleton in H1. auto.
  - split; [|done]. unfold joins in H2. apply bool_decide_eq_true in H2.
    unfold other_ends. apply elem_of_app.
    destruct H2 as [[H2 H3]|[H2 H3]].
    + left. rewrite bool_decide_eq_true_2 by done. by apply list_elem_of_singleton.
    + right. rewrite bool_decide_eq_true_2 by done. by apply list_elem_of_singleton.
Qed.

Lemma NoDup_neighbors g v : NoDup (neighbors g v).
Proof. apply NoDup_remove_dups. Qed.

Lemma elem_of_add_node g n x : x ∈ nodes (add_node g n) ↔ x ∈ nodes g ∨ x = n.
Proof.
  unfold add_node. case_bool_decide; simpl.
  - split; [auto | intros [?| ->]; done].
  - rewrite elem_of_app, list_elem_of_singleton. done.
Qed.

Lemma edges_add_node g n : edges (add_node g n) = edges g.
Proof. unfold add_node. by case_bool_decide. Qed.

Lemma has_edge_add_node g n a b : has_edge (add_node g n) a b = has_edge g a b.
Proof. unfold has_edge. by rewrite edges_add_node. Qed.

Lemma add_node_present g n : n ∈ nodes g → add_node g n = g.
Proof. intros. unfold add_node. by rewrite bool_decide_eq_true_2. Qed.

Lemma wf_add_node g n : wf_graph g → wf_graph (add_node g n).
Proof.
  intros [Hn He]. split.
  - unfold add_node. case_bool_decide; simpl; [done|].
    apply NoDup_app. split_and!; [done | | apply NoDup_singleton].
    intros x Hx ->%list_elem_of_singleton. done.
  - rewrite edges_add_node. eapply Forall_impl; [done|].
    intros e [? ?]. rewrite !elem_of_add_node. auto.
Qed.

Lemma nodes_add_edge g u v w : nodes (add_edge g u v w) = nodes (add_node (add_node g u) v).
Proof. unfold add_edge. by destruct (has_edge _ u v). Qed.

Lemma existsb_joins_fmap a b (f : string * string * Z → string * string * Z) l :
  (∀ e, (f e).1 = e.1) → existsb (joins a b) (f <$> l) = existsb (joins a b) l.
Proof.
  intros Hf. induction l as [|e l IH]; csimpl; [done|]. rewrite IH. f_equal.
  unfold joins. by rewrite Hf.
Qed.

Lemma has_edge_add_edge g u v w a b :
  has_edge (add_edge g u v w) a b = has_edge g a b || joins a b (u, v, w).
Proof.
  unfold add_edge.
  destruct (has_edge (add_node (add_node g u) v) u v) eqn:Hhas; unfold has_edge; simpl.
  - rewrite existsb_joins_fmap.
    2:{ intros [[x y] z]. unfold set_weight. by destruct (joins u v _). }
    rewrite !edges_add_node. rewrite !has_edge_add_node in Hhas.
    fold (has_edge g a b).
    destruct (joins a b (u, v, w)) eqn:Hj; [|by rewrite orb_false_r].
    rewrite orb_true_r. unfold joins in Hj. apply bool_decide_eq_true in Hj. simpl in Hj.
    destruct Hj as [[-> ->]|[-> ->]]; [done | by rewrite has_edge_sym].
  - rewrite !edges_add_node, existsb_app. simpl. by rewrite orb_false_r.
Qed.

Lemma wf_add_edge g u v w : wf_graph g → wf_graph (add_edge g u v w).
Proof.
  intros Hwf. pose proof (wf_add_node _ v (wf_add_node _ u Hwf)) as [Hn He].
  assert (u ∈ nodes (add_node (add_node g u) v)) by (rewrite !elem_of_add_node; auto).
  assert (v ∈ nodes (add_node (add_node g u) v)) by (rewrite !elem_of_add_node; auto).
  unfold add_edge. destruct (has_edge _ u v); split; simpl; try done.
  - apply Forall_fmap. eapply Forall_impl; [done|].
    intros e [? ?]. unfold set_weight. simpl. by destruct (joins u v e).
  - apply Forall_app. split; [done|]. by repeat constructor.
Qed.

Lemma has_edge_add_weight g u v w a b : has_edge (add_weight g u v w) a b = has_edge g a b.
Proof.
  unfold has_edge, add_weight. simpl. apply existsb_joins_fmap.
  intros [[x y] z]. by destruct (joins u v _).
Qed.

Lemma wf_add_weight g u v w : wf_graph g → wf_graph (add_weight g u v w).
Proof.
  intros [Hn He]. split; simpl; [done|].
  apply Forall_fmap. eapply Forall_impl; [done|].
  intros e [? ?]. simpl. by destruct (joins u v e).
Qed.

(** ** The lowest free colour *)

Lemma lowest_free_from_not_used used fuel color :
  (∀ i, i < color → i ∈ used) → size used ≤ fuel + color →
  lowest_free_from used fuel color ∉ used.
Proof.
  revert color. induction fuel as [|fuel IH]; intros color Hlow Hsize; simpl.
  - assert (set_seq 0 color ⊆ used) as Hsub.
    { intros i [_ ?]%elem_of_set_seq. apply Hlow. lia. }
    apply set_subseteq_size_eq in Hsub; [|rewrite size_set_seq; lia].
    rewrite <- Hsub, elem_of_set_seq. lia.
  - case_bool_decide; [|done]. apply IH; [|lia].
    intros i Hi. destruct (decide (i = color)) as [->|]; [done|]. apply Hlow. lia.
Qed.

Lemma lowest_free_not_used used : lowest_free used ∉ used.
Proof. apply lowest_free_from_not_used; [lia | lia]. Qed.

(** More fuel than [size used] changes nothing: the loop has left by then. *)
Lemma lowest_free_from_enough used fuel :
  size used ≤ fuel → lowest_free_from used fuel 0 = lowest_free used.
Proof.
  unfold lowest_free.
  assert (∀ f1 f2 c, (∀ i, i < c → i ∈ used) → size used ≤ f1 + c → size used ≤ f2 + c →
            lowest_free_from used f1 c = lowest_free_from used f2 c) as H.
  { induction f1 as [|f1 IH]; intros f2 c Hlow H1 H2.
    - pose proof (lowest_free_from_not_used used 0 c Hlow H1) as Hc. simpl in *.
      destruct f2; simpl; [done|]. by rewrite bool_decide_eq_false_2.
    - destruct f2 as [|f2].
      + pose proof (lowest_free_from_not_used used 0 c Hlow H2) as Hc. simpl in *.
        by rewrite bool_decide_eq_false_2.
      + simpl. case_bool_decide; [|done]. apply IH; [|lia|lia].
        intros i Hi. destruct (decide (i = c)) as [->|]; [done|]. apply Hlow. lia. }
  intros. apply H; [lia|lia|lia].
Qed.

Lemma elem_of_used_colors g colors node c :
  c ∈ used_colors g colors node ↔
  ∃ nbr, has_edge g node nbr = true ∧ dict_get nbr colors = Some c.
Proof.
  unfold used_colors. rewrite elem_of_list_to_set, list_elem_of_omap.
  by setoid_rewrite elem_of_neighbors.
Qed.

(** ** DSatur *)

Lemma coloring_inv_step g colors next :
  coloring_inv g colors → next ∈ nodes g → next ∉ colors.*1 →
  coloring_inv g (dict_set next (lowest_free (used_colors g colors next)) colors).
Proof.
  intros [Hnd Hn Hp] Hnext Hfresh. split.
  - by apply dict_set_NoDup.
  - intros n. rewrite dict_set_keys, decide_False by done.
    rewrite elem_of_app, list_elem_of_singleton. intros [?| ->]; auto.
  - intros u v cu cv Huv He. rewrite !dict_get_set.
    pose proof (lowest_free_not_used (used_colors g colors next)) as Hfree.
    destruct (decide (next = u)) as [<-|], (decide (next = v)) as [<-|]; [done| | |by apply Hp].
    + intros [= <-] Hv Heq. apply Hfree. rewrite Heq.
      apply elem_of_used_colors. eauto.
    + intros Hu [= <-] Heq. apply Hfree. rewrite <- Heq.
      apply elem_of_used_colors. exists u. by rewrite has_edge_sym.
Qed.

Lemma all_colored_of_length g (colors : list (string * nat)) :
  NoDup (nodes g) → coloring_inv g colors → length (nodes g) ≤ length colors →
  ∀ n, n ∈ nodes g → n ∈ colors.*1.
Proof.
  intros Hnd [Hk Hn _] Hlen n Hin.
  assert (colors.*1 ≡ₚ nodes g) as Hperm.
  { apply submseteq_length_Permutation; [by apply NoDup_submseteq|].
    by rewrite length_fmap. }
  by rewrite Hperm.
Qed.

Lemma uncolored_nil g (colors : list (string * nat)) :
  filter (λ node, dict_has node colors = false) (nodes g) = [] →
  ∀ n, n ∈ nodes g → n ∈ colors.*1.
Proof.
  intros Hnil n Hin. destruct (dict_has n colors) eqn:Hhas; [by apply dict_has_true|].
  assert (n ∈ filter (λ node, dict_has node colors = false) (nodes g)) as H
    by (by apply list_elem_of_filter).
  rewrite Hnil in H. by apply elem_of_nil in H.
Qed.

Lemma next_node_uncolored g (colors : list (string * nat)) gt next :
  max_by gt (filter (λ node, dict_has node colors = false) (nodes g)) = Some next →
  next ∈ nodes g ∧ next ∉ colors.*1.
Proof.
  intros [Hhas Hin]%max_by_elem%list_elem_of_filter. split; [done|].
  by apply dict_has_false.
Qed.

Lemma dsatur_loop_inv g fuel colors sat :
  NoDup (nodes g) → coloring_inv g colors →
  length (nodes g) ≤ fuel + length colors →
  coloring_inv g (dsatur_loop g fuel colors sat) ∧
  ∀ n, n ∈ nodes g → n ∈ (dsatur_loop g fuel colors sat).*1.
Proof.
  intros Hnd. revert colors sat.
  induction fuel as [|fuel IH]; intros colors sat Hinv Hlen; simpl.
  - split; [done|]. apply all_colored_of_length; [done|done|lia].
  - case_bool_decide as Hlt.
    2:{ split; [done|]. apply all_colored_of_length; [done|done|lia]. }
    destruct (max_by _ _) as [next|] eqn:Hmax.
    + apply next_node_uncolored in Hmax as [Hin Hfresh].
      apply IH; [by apply coloring_inv_step|].
      rewrite dict_set_fresh, length_app by done. simpl. lia.
    + split; [done|]. apply uncolored_nil.
      unfold max_by in Hmax. by destruct (filter _ _).
Qed.

Lemma dsatur_loop_enough g fuel fuel' colors sat :
  NoDup (nodes g) → coloring_inv g colors →
  length (nodes g) ≤ fuel + length colors → fuel ≤ fuel' →
  dsatur_loop g fuel' colors sat = dsatur_loop g fuel colors sat.
Proof.
  intros Hnd. revert fuel' colors sat.
  induction fuel as [|fuel IH]; intros fuel' colors sat Hinv Hlen Hle.
  - destruct fuel'; simpl; [done|]. rewrite bool_decide_eq_false_2 by lia. done.
  - destruct fuel' as [|fuel']; [lia|]. simpl.
    case_bool_decide; [|done].
    destruct (max_by _ _) as [next|] eqn:Hmax; [|done].
    apply next_node_uncolored in Hmax as [Hin Hfresh].
    apply IH; [by apply coloring_inv_step| |lia].
    rewrite dict_set_fresh, length_app by done. simpl. lia.
Qed.

Lemma coloring_inv_first g current c :
  current ∈ nodes g → coloring_inv g [(current, c)].
Proof.
  intros Hin. split; simpl.
  - apply NoDup_singleton.
  - by intros n ->%list_elem_of_singleton.
  - intros u v cu cv Huv _. repeat case_decide; congruence.
Qed.

Lemma dsatur_coloring_inv g :
  NoDup (nodes g) →
  coloring_inv g (dsatur_coloring g) ∧
  ∀ n, n ∈ nodes g → n ∈ (dsatur_coloring g).*1.
Proof.
  intros Hnd. unfold dsatur_coloring, dsatur_from.
  destruct (max_by _ (nodes g)) as [current|] eqn:Hmax.
  - apply dsatur_loop_inv; [done| |simpl; lia].
    apply coloring_inv_first. by apply max_by_elem in Hmax.
  - unfold max_by in Hmax. destruct (nodes g); [|done].
    split; [|by intros n ?%elem_of_nil].
    split; simpl; [constructor | by intros n ?%elem_of_nil | done].
Qed.

Lemma dsatur_enough_fuel g fuel :
  NoDup (nodes g) → length (nodes g) ≤ fuel → dsatur_from g fuel = dsatur_coloring g.
Proof.
  intros Hnd Hle. unfold dsatur_coloring, dsatur_from.
  destruct (max_by _ (nodes g)) as [current|] eqn:Hmax; [|done].
  apply dsatur_loop_enough; [done| |simpl; lia|done].
  apply coloring_inv_first. by apply max_by_elem in Hmax.
Qed.

Lemma has_edge_nodes g u v :
  wf_graph g → has_edge g u v = true → u ∈ nodes g ∧ v ∈ nodes g.
Proof.
  intros [_ He] (e & Hin & Hj)%has_edge_true.
  rewrite Forall_forall in He. destruct (He e Hin) as [H1 H2].
  unfold joins in Hj. apply bool_decide_eq_true in Hj.
  destruct Hj as [[<- <-]|[<- <-]]; auto.
Qed.

Lemma dsatur_colors_differ g u v :
  wf_graph g → has_edge g u v = true → u ≠ v →
  ∃ cu cv, dict_get u (dsatur_coloring g) = Some cu ∧
           dict_get v (dsatur_coloring g) = Some cv ∧ cu ≠ cv.
Proof.
  intros Hwf He Huv. destruct (dsatur_coloring_inv g) as [Hinv Hall]; [apply Hwf|].
  destruct (has_edge_nodes g u v Hwf He) as [Hu Hv].
  apply Hall, dict_get_is_Some in Hu as [cu Hcu].
  apply Hall, dict_get_is_Some in Hv as [cv Hcv].
  exists cu, cv. split_and!; [done|done|]. by eapply (ci_proper _ _ Hinv u v).
Qed.

(** ** The builder only ever adds nodes and edges *)

Lemma extends_refl g : extends g g.
Proof. by split. Qed.

Lemma extends_trans g1 g2 g3 : extends g1 g2 → extends g2 g3 → extends g1 g3.
Proof. intros [? ?] [? ?]. split; auto. Qed.

Lemma extends_add_node g n : extends g (add_node g n).
Proof.
  split; [intros x ?; apply elem_of_add_node; auto|].
  intros a b. by rewrite has_edge_add_node.
Qed.

Lemma extends_add_edge g u v w : extends g (add_edge g u v w).
Proof.
  split.
  - intros n ?. rewrite nodes_add_edge, !elem_of_add_node. auto.
  - intros a b H. by rewrite has_edge_add_edge, H.
Qed.

Lemma extends_add_weight g u v w : extends g (add_weight g u v w).
Proof. split; [done|]. intros a b. by rewrite has_edge_add_weight. Qed.

Lemma has_edge_add_edge_same g u v w : has_edge (add_edge g u v w) u v = true.
Proof.
  rewrite has_edge_add_edge. apply orb_true_iff. right.
  unfold joins. apply bool_decide_eq_true. simpl. auto.
Qed.

Lemma foldl_grows {A} (f : Graph → A → Graph) l g :
  (∀ g x, wf_graph g → wf_graph (f g x) ∧ extends g (f g x)) →
  wf_graph g → wf_graph (foldl f g l) ∧ extends g (foldl f g l).
Proof.
  intros Hf. revert g. induction l as [|x l IH]; intros g Hwf; simpl.
  - split; [done | apply extends_refl].
  - destruct (Hf g x Hwf) as [Hwf' Hext]. destruct (IH _ Hwf') as [? ?].
    split; [done|]. by eapply extends_trans.
Qed.

Lemma slot_step_grows w s1 g s2 :
  wf_graph g →
  wf_graph (if same_slot s1 s2 then add_edge g (StudentID s1) (StudentID s2) w else g) ∧
  extends g (if same_slot s1 s2 then add_edge g (StudentID s1) (StudentID s2) w else g).
Proof.
  intros Hwf. destruct (same_slot s1 s2).
  - split; [by apply wf_add_edge | apply extends_add_edge].
  - split; [done | apply extends_refl].
Qed.

Lemma add_slot_edges_grows w df g :
  wf_graph g → wf_graph (add_slot_edges w df g) ∧ extends g (add_slot_edges w df g).
Proof.
  revert g. induction df as [|s1 rest IH]; intros g Hwf; simpl.
  - split; [done | apply extends_refl].
  - destruct (foldl_grows (λ g s2, if same_slot s1 s2
        then add_edge g (StudentID s1) (StudentID s2) w else g) rest g) as [Hwf' Hext];
      [intros; by apply slot_step_grows | done |].
    destruct (IH _ Hwf') as [? ?]. split; [done|]. by eapply extends_trans.
Qed.

Lemma slot_row_edges w s1 rest g s2 :
  wf_graph g → s2 ∈ rest → same_slot s1 s2 = true →
  has_edge (foldl (λ g s2, if same_slot s1 s2
                           then add_edge g (StudentID s1) (StudentID s2) w else g) g rest)
           (StudentID s1) (StudentID s2) = true.
Proof.
  revert g. induction rest as [|x rest IH]; intros g Hwf Hin Hslot.
  - by apply elem_of_nil in Hin.
  - simpl. apply elem_of_cons in Hin as [->|Hin].
    + rewrite Hslot.
      destruct (foldl_grows (λ g s2, if same_slot s1 s2
          then add_edge g (StudentID s1) (StudentID s2) w else g) rest
          (add_edge g (StudentID s1) (StudentID x) w)) as [_ [_ Hext]];
        [intros; by apply slot_step_grows | by apply wf_add_edge |].
      apply Hext, has_edge_add_edge_same.
    + apply IH; [|done|done]. by apply slot_step_grows.
Qed.

Lemma same_slot_sym s1 s2 : same_slot s1 s2 = same_slot s2 s1.
Proof.
  unfold same_slot. f_equal; apply bool_decide_ext; split; congruence.
Qed.

Lemma add_slot_edges_conflict w df g r1 r2 :
  wf_graph g → r1 ∈ df → r2 ∈ df → StudentID r1 ≠ StudentID r2 →
  same_slot r1 r2 = true →
  has_edge (add_slot_edges w df g) (StudentID r1) (StudentID r2) = true.
Proof.
  revert g. induction df as [|s1 rest IH]; intros g Hwf H1 H2 Hne Hslot.
  - by apply elem_of_nil in H1.
  - simpl.
    destruct (foldl_grows (λ g s2, if same_slot s1 s2
        then add_edge g (StudentID s1) (StudentID s2) w else g) rest g) as [Hwf' _];
      [intros; by apply slot_step_grows | done |].
    destruct (add_slot_edges_grows w rest _ Hwf') as [_ [_ Hext]].
    apply elem_of_cons in H1 as [->|H1], H2 as [->|H2].
    + done.
    + apply Hext. by apply slot_row_edges.
    + apply Hext. rewrite has_edge_sym. apply slot_row_edges; [done|done|].
      by rewrite same_slot_sym.
    + by apply IH.
Qed.

Lemma friend_step_grows ids g p :
  wf_graph g → wf_graph (add_friend_edge ids g p) ∧ extends g (add_friend_edge ids g p).
Proof.
  intros Hwf. unfold add_friend_edge.
  destruct (_ && _); [|split; [done | apply extends_refl]].
  destruct (has_edge g p.1 p.2).
  - split; [by apply wf_add_weight | apply extends_add_weight].
  - split; [by apply wf_add_edge | apply extends_add_edge].
Qed.

Lemma section_step_grows s1 g s2 :
  wf_graph g →
  wf_graph (if has_edge g s1 s2 then g else add_edge g s1 s2 SECTION_EDGE_WEIGHT) ∧
  extends g (if has_edge g s1 s2 then g else add_edge g s1 s2 SECTION_EDGE_WEIGHT).
Proof.
  intros Hwf. destruct (has_edge g s1 s2).
  - split; [done | apply extends_refl].
  - split; [by apply wf_add_edge | apply extends_add_edge].
Qed.

Lemma add_section_edges_grows students g :
  wf_graph g →
  wf_graph (add_section_edges students g) ∧ extends g (add_section_edges students g).
Proof.
  revert g. induction students as [|s1 rest IH]; intros g Hwf; simpl.
  - split; [done | apply extends_refl].
  - destruct (foldl_grows (λ g s2, if has_edge g s1 s2 then g
        else add_edge g s1 s2 SECTION_EDGE_WEIGHT) rest g) as [Hwf' Hext];
      [intros; by apply section_step_grows | done |].
    destruct (IH _ Hwf') as [? ?]. split; [done|]. by eapply extends_trans.
Qed.

Lemma wf_empty_graph : wf_graph empty_graph.
Proof. split; simpl; constructor. Qed.

Lemma add_nodes_grows ids g :
  wf_graph g →
  wf_graph (foldl add_node g ids) ∧ extends g (foldl add_node g ids) ∧
  ∀ n, n ∈ ids → n ∈ nodes (foldl add_node g ids).
Proof.
  revert g. induction ids as [|x ids IH]; intros g Hwf; simpl.
  - split_and!; [done | apply extends_refl | by intros n ?%elem_of_nil].
  - destruct (IH (add_node g x)) as (? & Hext & Hall); [by apply wf_add_node|].
    split_and!; [done | eapply extends_trans; [apply extends_add_node | done] |].
    intros n [->|?]%elem_of_cons; [|auto].
    apply Hext, elem_of_add_node. auto.
Qed.

Lemma basic_conflict_graph_spec df :
  wf_graph (basic_conflict_graph df) ∧
  (∀ r, r ∈ df → StudentID r ∈ nodes (basic_conflict_graph df)) ∧
  (∀ r1 r2, r1 ∈ df → r2 ∈ df → StudentID r1 ≠ StudentID r2 →
     same_slot r1 r2 = true →
     has_edge (basic_conflict_graph df) (StudentID r1) (StudentID r2) = true).
Proof.
  unfold basic_conflict_graph.
  destruct (add_nodes_grows (StudentID <$> df) empty_graph wf_empty_graph)
    as (Hwf0 & _ & Hall).
  destruct (add_slot_edges_grows 1 df _ Hwf0) as [Hwf1 [Hn1 _]].
  split_and!; [done | |].
  - intros r Hr. apply Hn1, Hall. by apply list_elem_of_fmap_2.
  - intros. by apply add_slot_edges_conflict.
Qed.

Lemma build_enhanced_conflict_graph_spec db_pairs df friend_pairs section_separation :
  let g := build_enhanced_conflict_graph db_pairs df friend_pairs section_separation in
  wf_graph g ∧
  (∀ r, r ∈ df → StudentID r ∈ nodes g) ∧
  (∀ r1 r2, r1 ∈ df → r2 ∈ df → StudentID r1 ≠ StudentID r2 →
     same_slot r1 r2 = true → has_edge g (StudentID r1) (StudentID r2) = true).
Proof.
  unfold build_enhanced_conflict_graph.
  destruct (add_nodes_grows (StudentID <$> df) empty_graph wf_empty_graph)
    as (Hwf0 & _ & Hall).
  destruct (add_slot_edges_grows 10 df _ Hwf0) as [Hwf1 [Hn1 _]].
  pose proof (λ r1 r2, add_slot_edges_conflict 10 df _ r1 r2 Hwf0) as Hconf.
  set (g1 := add_slot_edges 10 df (foldl add_node empty_graph (StudentID <$> df))) in *.
  destruct (foldl_grows (add_friend_edge (list_to_set (StudentID <$> df)))
              (default db_pairs friend_pairs) g1) as [Hwf2 Hext2];
    [intros; by apply friend_step_grows | done |].
  set (g2 := foldl _ g1 _) in *.
  assert (wf_graph g2 ∧ extends g1 g2) as [Hwf3 [Hn3 He3]] by done.
  destruct section_separation.
  - destruct (foldl_grows (λ g students, if bool_decide (1 < length students)
        then add_section_edges students g else g) ((section_groups df).*2) g2)
      as [Hwf4 [Hn4 He4]]; [|done|].
    { intros g x Hg. case_bool_decide; [by apply add_section_edges_grows|].
      split; [done | apply extends_refl]. }
    simpl. split_and!; [done | |].
    + intros r Hr. apply Hn4, Hn3, Hn1, Hall. by apply list_elem_of_fmap_2.
    + intros. apply He4, He3. by apply Hconf.
  - simpl. split_and!; [done | |].
    + intros r Hr. apply Hn3, Hn1, Hall. by apply list_elem_of_fmap_2.
    + intros. apply He3. by apply Hconf.
Qed.

(** ** Colour groups *)

Lemma group_by_color_spec (colors : list (string * nat)) :
  NoDup colors.*1 →
  NoDup (group_by_color colors).*1 ∧
  concat (group_by_color colors).*2 ≡ₚ colors.*1 ∧
  (∀ c m s, (c, m) ∈ group_by_color colors → s ∈ m → dict_get s colors = Some c).
Proof.
  intros Hnd. unfold group_by_color.
  destruct (group_by_spec (K:=nat) (A:=string) snd fst colors []) as (H1 & H2 & H3).
  split_and!.
  - apply H1. constructor.
  - by rewrite H2.
  - intros c m s Hin Hs. destruct (H3 c m s Hin Hs) as [(m0 & ?%elem_of_nil & _)|([s' c'] & ? & ? & ?)];
      [done|]. simpl in *; subst. by apply dict_get_unique.
Qed.

Definition triangle : Graph :=
  mkGraph ["a"; "b"; "c"] [("a", "b", 10%Z); ("b", "c", 10%Z); ("a", "c", 10%Z)].

(** C6.  On every well-formed finite graph, DSatur terminates (the loop has
    left after [len(graph.nodes)] iterations, whatever fuel is added), gives
    every node a colour, and gives the two ends of every edge between
    distinct nodes different colours; the empty graph is mapped to the empty
    colouring, a single node to colour 0, and a complete graph on k nodes to
    k distinct colours.  (A self-loop, which a [networkx] graph may hold,
    joins a node to itself and is not an edge between two nodes.) *)
Theorem dsatur_coloring_proper (g : Graph) :
  wf_graph g →
  (∀ fuel, length (nodes g) ≤ fuel → dsatur_from g fuel = dsatur_coloring g) ∧
  (∀ n, n ∈ nodes g ↔ is_Some (dict_get n (dsatur_coloring g))) ∧
  (∀ u v, has_edge g u v = true → u ≠ v →
     ∃ cu cv, dict_get u (dsatur_coloring g) = Some cu ∧
              dict_get v (dsatur_coloring g) = Some cv ∧ cu ≠ cv) ∧
  (nodes g = [] → dsatur_coloring g = []) ∧
  (∀ n, nodes g = [n] → dsatur_coloring g = [(n, 0)]) ∧
  ((∀ u v, u ∈ nodes g → v ∈ nodes g → u ≠ v → has_edge g u v = true) →
   size (list_to_set (dsatur_coloring g).*2 : gset nat) = length (nodes g)).
Proof.
  intros Hwf. pose proof Hwf as [Hnd _].
  destruct (dsatur_coloring_inv g Hnd) as [Hinv Hall].
  split_and!.
  - intros fuel ?. by apply dsatur_enough_fuel.
  - intros n. rewrite dict_get_is_Some. split; [apply Hall | apply (ci_nodes _ _ Hinv)].
  - intros u v ? ?. by apply dsatur_colors_differ.
  - intros Hnil. unfold dsatur_coloring, dsatur_from. by rewrite Hnil.
  - intros n Hn. unfold dsatur_coloring, dsatur_from. rewrite Hn. simpl.
    rewrite Hn. simpl. done.
  - intros Hcomplete.
    assert ((dsatur_coloring g).*1 ≡ₚ nodes g) as Hperm.
    { apply NoDup_Permutation; [apply (ci_nodup _ _ Hinv) | done |].
      intros n. split; [apply (ci_nodes _ _ Hinv) | apply Hall]. }
    rewrite size_list_to_set.
    + by rewrite <- Hperm, !length_fmap.
    + apply NoDup_fmap_2_strong; [|eapply NoDup_fmap_1, (ci_nodup _ _ Hinv)].
      intros [u cu] [v cv] Hu Hv Heq. simpl in Heq. subst cv.
      destruct (decide (u = v)) as [->|Hne]; [done|]. exfalso.
      assert (u ∈ nodes g) by (apply (ci_nodes _ _ Hinv); by apply (list_elem_of_fmap_2 fst) in Hu).
      assert (v ∈ nodes g) by (apply (ci_nodes _ _ Hinv); by apply (list_elem_of_fmap_2 fst) in Hv).
      eapply (ci_proper _ _ Hinv u v cu cu); [done|by apply Hcomplete| | |done];
        by apply dict_get_unique; [apply (ci_nodup _ _ Hinv)|].
Qed.

Lemma dsatur_coloring_proper_witness :
  dsatur_coloring triangle = [("a", 0); ("b", 1); ("c", 2)] ∧
  size (list_to_set (dsatur_coloring triangle).*2 : gset nat) = 3.
Proof.
  assert (wf_graph triangle) as Hwf by (apply (bool_decide_unpack _); vm_compute; exact I).
  destruct (dsatur_coloring_proper triangle Hwf) as (_ & _ & _ & _ & _ & Hk).
  split; [vm_compute; reflexivity|].
  apply Hk. intros u v Hu Hv Hne.
  apply list_elem_of_In in Hu, Hv. simpl in Hu, Hv.
  destruct Hu as [<-|[<-|[<-|[]]]], Hv as [<-|[<-|[<-|[]]]];
    first [exfalso; apply Hne; reflexivity | vm_compute; reflexivity].
Defined.

(** C1.  Whatever the roster, the friend pairs and the two separation flags,
    two examinees (distinct identifiers) whose rows share exam date and exam
    time never land in the same colour group, and every examinee of the
    roster is in exactly one group: the group keys are distinct, the groups
    taken together hold no identifier twice, and they hold every identifier
    of the roster. *)
Theorem get_colored_groups_separates db_pairs (df : list Row) friend_pairs
    (enable_friend_separation enable_section_separation : bool) :
  let groups := get_colored_groups db_pairs df friend_pairs
                  enable_friend_separation enable_section_separation in
  NoDup groups.*1 ∧
  NoDup (concat groups.*2) ∧
  (∀ r, r ∈ df → StudentID r ∈ concat groups.*2) ∧
  (∀ r1 r2, r1 ∈ df → r2 ∈ df → StudentID r1 ≠ StudentID r2 →
     ExamDate r1 = ExamDate r2 → ExamTime r1 = ExamTime r2 →
     ∀ c1 m1 c2 m2, (c1, m1) ∈ groups → (c2, m2) ∈ groups →
       StudentID r1 ∈ m1 → StudentID r2 ∈ m2 → c1 ≠ c2).
Proof.
  unfold get_colored_groups.
  set (g := if enable_friend_separation || enable_section_separation then _ else _).
  assert (wf_graph g ∧ (∀ r, r ∈ df → StudentID r ∈ nodes g) ∧
          (∀ r1 r2, r1 ∈ df → r2 ∈ df → StudentID r1 ≠ StudentID r2 →
             same_slot r1 r2 = true → has_edge g (StudentID r1) (StudentID r2) = true))
    as (Hwf & Hnodes & Hedges).
  { unfold g. destruct (_ || _).
    - apply build_enhanced_conflict_graph_spec.
    - apply basic_conflict_graph_spec. }
  clearbody g. pose proof Hwf as [Hnd _].
  destruct (dsatur_coloring_inv g Hnd) as [Hinv Hall].
  destruct (group_by_color_spec (dsatur_coloring g) (ci_nodup _ _ Hinv)) as (Hk & Hperm & Hmem).
  simpl. split_and!.
  - done.
  - rewrite Hperm. apply (ci_nodup _ _ Hinv).
  - intros r Hr. rewrite Hperm. by apply Hall, Hnodes.
  - intros r1 r2 H1 H2 Hne Hd Ht c1 m1 c2 m2 Hg1 Hg2 Hs1 Hs2 ->.
    apply (Hmem _ _ _ Hg1) in Hs1. apply (Hmem _ _ _ Hg2) in Hs2.
    eapply (ci_proper _ _ Hinv (StudentID r1) (StudentID r2)); [done| |done|done|done].
    apply Hedges; [done|done|done|].
    unfold same_slot. by rewrite !bool_decide_eq_true_2.
Qed.

End ConflictGraphProofs.
(* ===================================================================== *)
(** * Properties of the room allocator *)
(* ===================================================================== *)

Module RoomAssignmentProofs.
Import Py PyFacts RoomAssignment.

(** ** What a valid packing is *)

(** A packing: the room each group went to, in placement order. *)
Definition occ_of (h : list (RoomConfig * list Student)) (rid : string) : list Student :=
  h ≫= λ p, if decide (room_id p.1 = rid) then p.2 else [].

Definition under_ceiling {A : Type} `{Countable A} (ceiling : Z) (S : gset A) : Prop :=
  (0 < ceiling)%Z → (Z.of_nat (size S) ≤ ceiling)%Z.

(** The occupants [occ] respect the capacity, the allowed years and the
    positive ceilings of [room]. *)
Definition fits_room (room : RoomConfig) (occ : list Student) : Prop :=
  (Z.of_nat (length occ) ≤ capacity room)%Z ∧
  group_years occ ⊆ allowed_years room ∧
  under_ceiling (max_years room) (group_years occ) ∧
  under_ceiling (max_departments room) (group_departments occ) ∧
  under_ceiling (max_subjects room) (group_subjects occ) ∧
  under_ceiling (max_branches room) (group_branches occ).

(** Every group sits in a room of the catalogue that fits all it was given. *)
Definition packing_ok (rooms : list RoomConfig) (h : list (RoomConfig * list Student)) : Prop :=
  ∀ p, p ∈ h → p.1 ∈ rooms ∧ fits_room p.1 (occ_of h (room_id p.1)).

(** The status entry of a room holding [occ]. *)
Definition summary (with_students : bool) (room : RoomConfig) (occ : list Student)
  : RoomStatus :=
  mkStatus (capacity room - Z.of_nat (length occ)) (group_subjects occ)
    (group_branches occ) (group_years occ) (group_departments occ)
    (if with_students then student_id <$> occ else []).

(** One placement on [room_status], and the placements of a packing replayed. *)
Definition place (b : bool) (m : gmap string RoomStatus) (p : RoomConfig * list Student)
  : gmap string RoomStatus :=
  <[room_id p.1 := place_status b (m !!! room_id p.1) p.2]> m.

Definition status_of (b : bool) (rooms : list RoomConfig)
    (h : list (RoomConfig * list Student)) : gmap string RoomStatus :=
  foldl (place b) (init_status rooms) h.

(** Every placement of [h], made in turn from [m], passes the acceptance test. *)
Fixpoint accepted (b : bool) (rooms : list RoomConfig) (m : gmap string RoomStatus)
    (h : list (RoomConfig * list Student)) : Prop :=
  match h with
  | [] => True
  | p :: h' =>
      p.1 ∈ rooms ∧ ffd_accepts p.1 (m !!! room_id p.1) p.2 = true ∧
      accepted b rooms (place b m p) h'
  end.

(** The room lists [asg] hold exactly the groups of [h]. *)
Definition asg_matches (h : list (RoomConfig * list Student))
    (asg : list (string * list string)) : Prop :=
  NoDup asg.*1 ∧
  (∀ rid, dd_get rid asg = student_id <$> occ_of h rid) ∧
  concat asg.*2 ≡ₚ student_id <$> concat h.*2.

(** The search state is the one the placements [h] lead to. *)
Definition tracks (rooms : list RoomConfig) (h : list (RoomConfig * list Student))
    (st : search_state) : Prop :=
  s_status st = status_of false rooms h ∧ asg_matches h (s_assignments st).

(** What the placements made so far guarantee for every room. *)
Definition history_ok (rooms : list RoomConfig) (h : list (RoomConfig * list Student)) : Prop :=
  ∀ room, room ∈ rooms →
    (room_id room ∈ (λ p, room_id p.1) <$> h →
       (Z.of_nat (length (occ_of h (room_id room))) ≤ capacity room)%Z) ∧
    group_years (occ_of h (room_id room)) ⊆ allowed_years room ∧
    under_ceiling (max_years room) (group_years (occ_of h (room_id room))) ∧
    under_ceiling (max_departments room) (group_departments (occ_of h (room_id room))) ∧
    under_ceiling (max_subjects room) (group_subjects (occ_of h (room_id room))) ∧
    under_ceiling (max_branches room) (group_branches (occ_of h (room_id room))).

(** The student was built from its metadata entry. *)
Definition from_metadata (student_metadata : gmap string Metadata) (s : Student) : Prop :=
  ∃ metadata, student_metadata !! student_id s = Some metadata ∧
              make_Student (student_id s) metadata = Returned s.




(** ** Diversity ceilings *)

(** The same status, or student, with one attribute replaced. *)
Definition set_subjects (S : gset (option string)) (st : RoomStatus) : RoomStatus :=
  mkStatus (remaining_capacity st) S (branches st) (years st) (departments st) (students st).
Definition set_branches (S : gset string) (st : RoomStatus) : RoomStatus :=
  mkStatus (remaining_capacity st) (subjects st) S (years st) (departments st) (students st).
Definition set_years (S : gset Z) (st : RoomStatus) : RoomStatus :=
  mkStatus (remaining_capacity st) (subjects st) (branches st) S (departments st) (students st).
Definition set_departments (S : gset (option string)) (st : RoomStatus) : RoomStatus :=
  mkStatus (remaining_capacity st) (subjects st) (branches st) (years st) S (students st).

Definition with_subject (f : Student → option string) (s : Student) : Student :=
  mkStudent (student_id s) (year s) (f s) (department s) (branch s) (batch s).
Definition with_branch (f : Student → string) (s : Student) : Student :=
  mkStudent (student_id s) (year s) (subject s) (department s) (f s) (batch s).
Definition with_department (f : Student → option string) (s : Student) : Student :=
  mkStudent (student_id s) (year s) (subject s) (f s) (branch s) (batch s).

Lemma over_ceiling_zero {A : Type} `{Countable A} (seen new : gset A) : over_ceiling 0 seen new = false.
Proof. unfold over_ceiling. by rewrite bool_decide_eq_false_2 by lia. Qed.

(** [can_place] applies to the room it looks up the checks the FFD loop
    applies inline. *)
Lemma can_place_ffd_accepts rooms room_status rid group :
  can_place rooms room_status rid group =
  match list_find (λ r, room_id r = rid) rooms with
  | Some (_, room) => ffd_accepts room (room_status !!! rid) group
  | None => false
  end.
Proof. unfold can_place, ffd_accepts. by destruct (list_find _ _) as [[? ?]|]. Qed.

Lemma fmap_fmap_same {B} (f : Student → B) (h : Student → Student) (group : list Student) :
  (∀ s, f (h s) = f s) → f <$> (h <$> group) = f <$> group.
Proof.
  intros Hh. rewrite <- list_fmap_compose. apply list_fmap_ext. intros ? s _. apply Hh.
Qed.

Definition lab : RoomConfig := mkRoomConfig "Lab" 10 0 0 0 0 (list_to_set [1; 2; 3]%Z).

(** C10.  Absent from a room's configuration, [max_subjects] and
    [max_branches] are 0 and [max_departments] and [max_years] are 2; and a
    ceiling of 0 takes its check out of both acceptance tests: whatever
    subjects (branches, departments, years) the room already holds and the
    group brings, the answer of the FFD test and of [can_place] is the one
    the other checks give. *)
Theorem zero_ceiling_disables_check :
  (∀ config, cfg_max_subjects config = None → max_subjects (make_RoomConfig config) = 0%Z) ∧
  (∀ config, cfg_max_branches config = None → max_branches (make_RoomConfig config) = 0%Z) ∧
  (∀ config, cfg_max_departments config = None →
     max_departments (make_RoomConfig config) = 2%Z) ∧
  (∀ config, cfg_max_years config = None → max_years (make_RoomConfig config) = 2%Z) ∧
  (∀ rooms room_status rid group,
     can_place rooms room_status rid group =
     match list_find (λ r, room_id r = rid) rooms with
     | Some (_, room) => ffd_accepts room (room_status !!! rid) group
     | None => false
     end) ∧
  (∀ room status group, max_subjects room = 0%Z → ∀ S f,
     ffd_accepts room (set_subjects S status) (with_subject f <$> group) =
     ffd_accepts room status group) ∧
  (∀ room status group, max_branches room = 0%Z → ∀ S f,
     ffd_accepts room (set_branches S status) (with_branch f <$> group) =
     ffd_accepts room status group) ∧
  (∀ room status group, max_departments room = 0%Z → ∀ S f,
     ffd_accepts room (set_departments S status) (with_department f <$> group) =
     ffd_accepts room status group) ∧
  (∀ room status group, max_years room = 0%Z → ∀ S,
     ffd_accepts room (set_years S status) group = ffd_accepts room status group).
Proof.
  split_and!.
  - intros config H. simpl. by rewrite H.
  - intros config H. simpl. by rewrite H.
  - intros config H. simpl. by rewrite H.
  - intros config H. simpl. by rewrite H.
  - apply can_place_ffd_accepts.
  - intros room status group H S f. unfold ffd_accepts. rewrite H, !over_ceiling_zero.
    unfold group_years, group_departments, group_branches. simpl.
    by rewrite length_fmap, !fmap_fmap_same.
  - intros room status group H S f. unfold ffd_accepts. rewrite H, !over_ceiling_zero.
    unfold group_years, group_departments, group_subjects. simpl.
    by rewrite length_fmap, !fmap_fmap_same.
  - intros room status group H S f. unfold ffd_accepts. rewrite H, !over_ceiling_zero.
    unfold group_years, group_branches, group_subjects. simpl.
    by rewrite length_fmap, !fmap_fmap_same.
  - intros room status group H S. unfold ffd_accepts. rewrite H, !over_ceiling_zero.
    done.
Qed.

Lemma zero_ceiling_disables_check_witness :
  ffd_accepts lab (set_subjects {[Some "Physics"; Some "Maths"; None]} (fresh_status lab))
    (with_subject (λ _, Some "Chemistry") <$> [mkStudent "s1" 1 (Some "Art") None "CS" "A"]) =
  ffd_accepts lab (fresh_status lab) [mkStudent "s1" 1 (Some "Art") None "CS" "A"].
Proof.
  exact (proj1 (proj2 (proj2 (proj2 (proj2 (proj2 zero_ceiling_disables_check)))))
           lab (fresh_status lab) [mkStudent "s1" 1 (Some "Art") None "CS" "A"] eq_refl
           {[Some "Physics"; Some "Maths"; None]} (λ _, Some "Chemistry")).
Defined.

(** ** The acceptance test *)

Lemma over_ceiling_false {A : Type} `{Countable A} ceiling (seen new : gset A) :
  over_ceiling ceiling seen new = false ↔ under_ceiling ceiling (seen ∪ new).
Proof.
  unfold over_ceiling, under_ceiling. rewrite andb_false_iff, !bool_decide_eq_false. lia.
Qed.

Lemma ffd_accepts_true room st g :
  ffd_accepts room st g = true ↔
  (Z.of_nat (length g) ≤ remaining_capacity st)%Z ∧
  group_years g ⊆ allowed_years room ∧
  under_ceiling (max_years room) (years st ∪ group_years g) ∧
  under_ceiling (max_departments room) (departments st ∪ group_departments g) ∧
  under_ceiling (max_subjects room) (subjects st ∪ group_subjects g) ∧
  under_ceiling (max_branches room) (branches st ∪ group_branches g).
Proof.
  unfold ffd_accepts. rewrite <- !over_ceiling_false.
  case_bool_decide; [split; [done | intros [? _]; lia]|].
  case_bool_decide; simpl; [|split; [done | intros (_ & ? & _); done]].
  repeat (destruct (over_ceiling _ _ _); [split; [done | intros ?; intuition congruence]|]).
  split; [intros _; split_and!; [lia|done..] | done].
Qed.

(** ** Replaying a packing *)

Section allocator.
Variable rooms : list RoomConfig.
Hypothesis rooms_nodup : NoDup (room_id <$> rooms).

Lemma same_room r1 r2 : r1 ∈ rooms → r2 ∈ rooms → room_id r1 = room_id r2 → r1 = r2.
Proof.
  intros H1 H2 Heq. clear -rooms_nodup H1 H2 Heq.
  induction rooms as [|r l IH]; [by apply elem_of_nil in H1|].
  simpl in rooms_nodup. apply NoDup_cons in rooms_nodup as [Hr Hl].
  apply elem_of_cons in H1 as [->|H1], H2 as [->|H2]; [done| | |by apply IH].
  - exfalso. apply Hr. rewrite Heq. by apply list_elem_of_fmap_2.
  - exfalso. apply Hr. rewrite <- Heq. by apply list_elem_of_fmap_2.
Qed.

Lemma init_status_other (l : list RoomConfig) (m : gmap string RoomStatus) rid :
  rid ∉ room_id <$> l →
  foldl (λ m room, <[room_id room := fresh_status room]> m) m l !! rid = m !! rid.
Proof.
  revert m. induction l as [|r l IH]; intros m Hnot; simpl; [done|].
  simpl in Hnot. apply not_elem_of_cons in Hnot as [? ?].
  rewrite IH by done. by rewrite lookup_insert_ne.
Qed.

Lemma init_status_lookup room :
  room ∈ rooms → init_status rooms !! room_id room = Some (fresh_status room).
Proof.
  unfold init_status. generalize (∅ : gmap string RoomStatus).
  clear -rooms_nodup. induction rooms as [|r l IH]; intros m Hin; [by apply elem_of_nil in Hin|].
  simpl in *. apply NoDup_cons in rooms_nodup as [Hr Hl].
  apply elem_of_cons in Hin as [->|Hin].
  - rewrite init_status_other by done. by rewrite lookup_insert_eq.
  - by apply IH.
Qed.

Lemma occ_of_app h1 h2 rid : occ_of (h1 ++ h2) rid = occ_of h1 rid ++ occ_of h2 rid.
Proof. unfold occ_of. by rewrite bind_app. Qed.

Lemma occ_of_cons p h rid :
  occ_of (p :: h) rid = (if decide (room_id p.1 = rid) then p.2 else []) ++ occ_of h rid.
Proof. done. Qed.

Lemma place_status_summary b room occ g :
  place_status b (summary b room occ) g = summary b room (occ ++ g).
Proof.
  unfold place_status, summary, group_subjects, group_branches, group_years,
    group_departments. simpl.
  rewrite !fmap_app, !list_to_set_app_L, length_app. f_equal; [lia|].
  by destruct b.
Qed.

Lemma status_of_snoc b h p : status_of b rooms (h ++ [p]) = place b (status_of b rooms h) p.
Proof. unfold status_of. by rewrite foldl_app. Qed.

Lemma status_of_lookup b h room :
  room ∈ rooms →
  status_of b rooms h !! room_id room = Some (summary b room (occ_of h (room_id room))).
Proof.
  intros Hin. induction h as [|p h IH] using rev_ind.
  - unfold status_of. simpl. rewrite init_status_lookup by done.
    unfold fresh_status, summary. simpl. do 2 f_equal; [lia | by destruct b].
  - rewrite status_of_snoc, occ_of_app. unfold place.
    destruct (decide (room_id p.1 = room_id room)) as [Heq|Hne].
    + rewrite Heq, lookup_insert_eq. unfold lookup_total, map_lookup_total.
      rewrite IH. simpl. rewrite place_status_summary. do 2 f_equal.
      unfold occ_of. simpl. rewrite decide_True by done. by rewrite app_nil_r.
    + rewrite lookup_insert_ne, IH by done. do 2 f_equal.
      unfold occ_of at 2. simpl. rewrite decide_False by done. by rewrite !app_nil_r.
Qed.

Lemma status_of_total b h room :
  room ∈ rooms →
  status_of b rooms h !!! room_id room = summary b room (occ_of h (room_id room)).
Proof.
  intros Hin. unfold lookup_total, map_lookup_total. by rewrite status_of_lookup.
Qed.

End allocator.

Lemma group_years_app a b : group_years (a ++ b) = group_years a ∪ group_years b.
Proof. unfold group_years. by rewrite fmap_app, list_to_set_app_L. Qed.
Lemma group_subjects_app a b : group_subjects (a ++ b) = group_subjects a ∪ group_subjects b.
Proof. unfold group_subjects. by rewrite fmap_app, list_to_set_app_L. Qed.
Lemma group_branches_app a b : group_branches (a ++ b) = group_branches a ∪ group_branches b.
Proof. unfold group_branches. by rewrite fmap_app, list_to_set_app_L. Qed.
Lemma group_departments_app a b :
  group_departments (a ++ b) = group_departments a ∪ group_departments b.
Proof. unfold group_departments. by rewrite fmap_app, list_to_set_app_L. Qed.

Lemma under_ceiling_mono {A : Type} `{Countable A} ceiling (S T : gset A) :
  S ⊆ T → under_ceiling ceiling T → under_ceiling ceiling S.
Proof.
  intros Hsub HT Hpos. specialize (HT Hpos). apply subseteq_size in Hsub. lia.
Qed.

Lemma under_ceiling_empty {A : Type} `{Countable A} ceiling :
  under_ceiling ceiling (∅ : gset A).
Proof. intros ?. rewrite size_empty. lia. Qed.

Section packing.
Variable rooms : list RoomConfig.
Hypothesis rooms_nodup : NoDup (room_id <$> rooms).

Lemma history_ok_nil : history_ok rooms [].
Proof.
  intros room _. unfold occ_of. simpl. split_and!.
  - by intros ?%elem_of_nil.
  - unfold group_years. simpl. set_solver.
  - apply under_ceiling_empty.
  - apply under_ceiling_empty.
  - apply under_ceiling_empty.
  - apply under_ceiling_empty.
Qed.

Lemma history_ok_step b h p :
  history_ok rooms h → p.1 ∈ rooms →
  ffd_accepts p.1 (status_of b rooms h !!! room_id p.1) p.2 = true →
  history_ok rooms (h ++ [p]).
Proof.
  intros Hok Hp Hacc room Hroom.
  rewrite (status_of_total rooms rooms_nodup) in Hacc by done.
  apply ffd_accepts_true in Hacc as (Hcap & Hyears & Hy & Hd & Hs & Hb). simpl in *.
  destruct (Hok room Hroom) as (Gcap & Gyears & Gy & Gd & Gs & Gb).
  rewrite occ_of_app. unfold occ_of at 2 4 6 8 10 12. simpl.
  destruct (decide (room_id p.1 = room_id room)) as [Heq|Hne].
  - assert (p.1 = room) as <- by (by apply (same_room rooms rooms_nodup)).
    rewrite app_nil_r, group_years_app, group_departments_app, group_subjects_app,
      group_branches_app, length_app.
    split_and!; [intros _; lia | set_solver | done..].
  - rewrite !app_nil_r. split_and!; [|done..].
    intros Hin. apply Gcap. rewrite fmap_app in Hin.
    apply elem_of_app in Hin as [?|Hin]; [done|].
    simpl in Hin. apply list_elem_of_singleton in Hin. congruence.
Qed.

Lemma accepted_history_ok b h0 h :
  history_ok rooms h0 → accepted b rooms (status_of b rooms h0) h →
  history_ok rooms (h0 ++ h).
Proof.
  revert h0. induction h as [|p h IH]; intros h0 Hok Hacc.
  - by rewrite app_nil_r.
  - destruct Hacc as (Hp & Hacc & Hrest).
    rewrite <- status_of_snoc in Hrest.
    rewrite cons_middle, (assoc_L (++)). apply IH; [|done].
    by eapply history_ok_step.
Qed.

Lemma accepted_rooms b m h : accepted b rooms m h → ∀ p, p ∈ h → p.1 ∈ rooms.
Proof.
  revert m. induction h as [|q h IH]; intros m Hacc p Hin.
  - by apply elem_of_nil in Hin.
  - destruct Hacc as (Hq & _ & Hrest). apply elem_of_cons in Hin as [->|Hin]; [done|].
    by eapply IH.
Qed.

Lemma accepted_packing_ok b h :
  accepted b rooms (init_status rooms) h → packing_ok rooms h.
Proof.
  intros Hacc p Hp. pose proof (accepted_rooms _ _ _ Hacc p Hp) as Hroom.
  split; [done|].
  destruct (accepted_history_ok b [] h history_ok_nil Hacc p.1 Hroom)
    as (Hcap & ? & ? & ? & ? & ?). simpl in *.
  split_and!; [|done..].
  apply Hcap. by apply (list_elem_of_fmap_2 (λ p, room_id p.1)).
Qed.

Lemma packing_accepted b h0 h :
  (∀ p, p ∈ h → p.1 ∈ rooms ∧ fits_room p.1 (occ_of (h0 ++ h) (room_id p.1))) →
  accepted b rooms (status_of b rooms h0) h.
Proof.
  revert h0. induction h as [|p h IH]; intros h0 Hfit; [done|].
  destruct (Hfit p) as (Hp & Hcap & Hyears & Hy & Hd & Hs & Hb); [by left|].
  rewrite occ_of_app, occ_of_cons, decide_True in Hcap, Hyears, Hy, Hd, Hs, Hb by done.
  split_and!; [done| |].
  - rewrite (status_of_total rooms rooms_nodup) by done.
    apply ffd_accepts_true. simpl.
    rewrite !length_app in Hcap.
    rewrite !group_years_app in Hyears, Hy.
    rewrite !group_departments_app in Hd.
    rewrite !group_subjects_app in Hs. rewrite !group_branches_app in Hb.
    split_and!; [lia | set_solver | ..];
      (eapply under_ceiling_mono; [|done]); set_solver.
  - rewrite <- status_of_snoc. apply IH. intros q Hq.
    rewrite <- (assoc_L (++)). simpl. apply Hfit. by right.
Qed.

Lemma packing_ok_accepted b h :
  packing_ok rooms h → accepted b rooms (init_status rooms) h.
Proof. intros Hok. by apply (packing_accepted b [] h). Qed.

End packing.

(** ** The room lists *)

Lemma asg_matches_nil : asg_matches [] [].
Proof. split_and!; [constructor | done | done]. Qed.

Lemma asg_matches_step h asg p :
  asg_matches h asg →
  asg_matches (h ++ [p]) (dd_extend (room_id p.1) (student_id <$> p.2) asg).
Proof.
  intros (Hnd & Hget & Hperm). split_and!.
  - by apply dd_extend_NoDup.
  - intros rid. rewrite dd_get_extend, occ_of_app, fmap_app, !Hget.
    unfold occ_of at 3 4. simpl. rewrite app_nil_r.
    destruct (decide (room_id p.1 = rid)) as [->|]; [done|]. by rewrite app_nil_r.
  - rewrite dd_extend_concat, Hperm, fmap_app, concat_app, fmap_app. simpl.
    by rewrite app_nil_r.
Qed.

Lemma elem_of_occ_of h rid s : s ∈ occ_of h rid → s ∈ concat h.*2.
Proof.
  unfold occ_of. rewrite list_elem_of_bind. intros ([r g] & Hs & Hin). simpl in Hs.
  case_decide; [|by apply elem_of_nil in Hs].
  apply elem_of_concat. exists g. split; [|done].
  by apply (list_elem_of_fmap_2 snd) in Hin.
Qed.

Lemma asg_matches_undo h asg room g :
  asg_matches (h ++ [(room, g)]) asg →
  (∀ x, x ∈ student_id <$> concat h.*2 → x ∉ student_id <$> g) →
  asg_matches h
    (dict_set (room_id room)
       (filter (λ sid, sid ∉ (student_id <$> g)) (dd_get (room_id room) asg)) asg).
Proof.
  intros (Hnd & Hget & Hperm) Hdisj.
  assert (dd_get (room_id room) asg =
          (student_id <$> occ_of h (room_id room)) ++ (student_id <$> g)) as Hroom.
  { rewrite Hget, occ_of_app, fmap_app. unfold occ_of at 2. simpl.
    by rewrite decide_True, app_nil_r. }
  assert (filter (λ sid, sid ∉ (student_id <$> g)) (dd_get (room_id room) asg) =
          student_id <$> occ_of h (room_id room)) as Hfilter.
  { rewrite Hroom, filter_app.
    rewrite (filter_not_elem_of_drop (student_id <$> g)) by auto.
    rewrite filter_not_elem_of_keep; [by rewrite app_nil_r|].
    intros x (s & -> & Hs)%list_elem_of_fmap. apply Hdisj.
    apply list_elem_of_fmap_2. by eapply elem_of_occ_of. }
  rewrite Hfilter. split_and!.
  - by apply dict_set_NoDup.
  - intros rid. unfold dd_get at 1. rewrite dict_get_set.
    destruct (decide (room_id room = rid)) as [<-|Hne]; [done|].
    fold (dd_get rid asg). rewrite Hget, occ_of_app. unfold occ_of at 2. simpl.
    by rewrite decide_False, !app_nil_r.
  - apply (Permutation_app_inv_r (student_id <$> g)).
    rewrite <- (dict_set_concat_shrink _ _ _ _ Hroom), Hperm.
    rewrite fmap_app, concat_app, fmap_app. simpl. by rewrite app_nil_r.
Qed.

(** ** First-fit-decreasing *)

Section ffd.
Variable rooms : list RoomConfig.
Hypothesis rooms_nodup : NoDup (room_id <$> rooms).

Lemma ffd_place_spec candidates g m asg m' asg' :
  ffd_place candidates g m asg = Some (m', asg') →
  ∃ room, room ∈ candidates ∧ ffd_accepts room (m !!! room_id room) g = true ∧
          m' = place true m (room, g) ∧
          asg' = dd_extend (room_id room) (student_id <$> g) asg.
Proof.
  induction candidates as [|room rest IH]; simpl; [done|].
  destruct (ffd_accepts room _ g) eqn:Hacc.
  - intros [= <- <-]. exists room. split_and!; [left | done | done | done].
  - intros (r & ? & ?)%IH. exists r. split; [by right | done].
Qed.

Lemma ffd_loop_spec gs h asg asg' :
  asg_matches h asg →
  ffd_loop rooms gs (status_of true rooms h) asg = Some asg' →
  ∃ h', h'.*2 = gs ∧ accepted true rooms (status_of true rooms h) h' ∧
        asg_matches (h ++ h') asg'.
Proof.
  revert h asg. induction gs as [|g gs IH]; intros h asg Hm; simpl.
  - intros [= <-]. exists []. by rewrite app_nil_r.
  - destruct (ffd_place _ g _ asg) as [[m1 asg1]|] eqn:Hplace; [|done].
    apply ffd_place_spec in Hplace as (room & Hin & Hacc & -> & ->).
    rewrite sorted_desc_Permutation in Hin.
    rewrite <- status_of_snoc. intros Hloop.
    apply IH in Hloop as (h' & Hgs & Hacc' & Hm'); [|by apply (asg_matches_step h asg (room, g))].
    exists ((room, g) :: h'). split; [csimpl; by rewrite Hgs|].
    split; [|by rewrite cons_middle, (assoc_L (++))].
    rewrite status_of_snoc in Hacc'. simpl. by split_and!.
Qed.

(** ** Backtracking *)

Lemma list_find_room room :
  room ∈ rooms → ∃ i, list_find (λ r, room_id r = room_id room) rooms = Some (i, room).
Proof.
  intros Hin. destruct (list_find_elem_of (λ r, room_id r = room_id room) rooms room)
    as [[i r] Hfind]; [done|done|].
  exists i. rewrite Hfind. do 2 f_equal.
  apply list_find_Some in Hfind as (Hl & Heq & _).
  apply (same_room rooms rooms_nodup); [|done|done].
  by eapply list_elem_of_lookup_2.
Qed.

Lemma can_place_room room_status room g :
  room ∈ rooms →
  can_place rooms room_status (room_id room) g =
  ffd_accepts room (room_status !!! room_id room) g.
Proof.
  intros Hin. rewrite can_place_ffd_accepts.
  by destruct (list_find_room room Hin) as [i ->].
Qed.

Lemma tracks_make_assignment h st room g :
  tracks rooms h st → tracks rooms (h ++ [(room, g)]) (make_assignment st room g).
Proof.
  intros [Hst Hasg]. split; simpl.
  - by rewrite status_of_snoc, Hst.
  - by apply (asg_matches_step h _ (room, g)).
Qed.

Lemma tracks_backtrack h st room g :
  room ∈ rooms → tracks rooms (h ++ [(room, g)]) st →
  (∀ x, x ∈ student_id <$> concat h.*2 → x ∉ student_id <$> g) →
  tracks rooms h (backtrack st room (status_of false rooms h !!! room_id room) g).
Proof.
  intros Hin [Hst Hasg] Hdisj. split; simpl.
  - rewrite Hst, status_of_snoc. unfold place. simpl.
    rewrite insert_insert_eq. apply insert_id.
    rewrite (status_of_total rooms rooms_nodup) by done.
    by apply status_of_lookup.
  - by apply asg_matches_undo.
Qed.

(** The specification of [dfs] on the groups [gs], from the state reached
    by the placements [h]. *)
Definition dfs_spec (gs : list (list Student))
    (search : search_state → bool * search_state) : Prop :=
  ∀ h st, tracks rooms h st →
    NoDup (student_id <$> (concat h.*2 ++ concat gs)) →
    if (search st).1
    then ∃ h', h'.*2 = gs ∧ accepted false rooms (status_of false rooms h) h' ∧
               tracks rooms (h ++ h') (search st).2
    else tracks rooms h (search st).2 ∧
         ∀ h', h'.*2 = gs → ¬ accepted false rooms (status_of false rooms h) h'.

Lemma try_rooms_spec g gs dfs_next candidates h st :
  dfs_spec gs dfs_next → (∀ room, room ∈ candidates → room ∈ rooms) →
  tracks rooms h st →
  NoDup (student_id <$> (concat h.*2 ++ concat (g :: gs))) →
  if (try_rooms rooms dfs_next g candidates st).1
  then ∃ room h', h'.*2 = gs ∧
         accepted false rooms (status_of false rooms h) ((room, g) :: h') ∧
         tracks rooms (h ++ (room, g) :: h') (try_rooms rooms dfs_next g candidates st).2
  else tracks rooms h (try_rooms rooms dfs_next g candidates st).2 ∧
       ∀ room h', room ∈ candidates → h'.*2 = gs →
         ¬ accepted false rooms (status_of false rooms h) ((room, g) :: h').
Proof.
  intros Hnext. revert st.
  induction candidates as [|room cands IH]; intros st Hsub Htr Hnd; simpl.
  - split; [done|]. by intros room h' ?%elem_of_nil.
  - assert (room ∈ rooms) as Hroom by (apply Hsub; left).
    assert (∀ r, r ∈ cands → r ∈ rooms) as Hsub' by (intros; apply Hsub; by right).
    pose proof Htr as [Hst _].
    rewrite can_place_room, Hst by done.
    destruct (ffd_accepts room _ g) eqn:Hacc.
    + pose proof (Hnext (h ++ [(room, g)]) (make_assignment st room g)
                    (tracks_make_assignment h st room g Htr)) as Hrec.
      assert (concat (h ++ [(room, g)]).*2 ++ concat gs = concat h.*2 ++ concat (g :: gs))
        as Heq by (rewrite fmap_app, concat_app; simpl; by rewrite app_nil_r, <- (assoc_L (++))).
      rewrite Heq in Hrec. specialize (Hrec Hnd).
      destruct (dfs_next (make_assignment st room g)) as [[] st2] eqn:Hres; simpl in *.
      * destruct Hrec as (h' & Hgs & Hacc' & Htr').
        exists room, h'. split; [done|].
        split; [|by rewrite cons_middle, (assoc_L (++))].
        rewrite status_of_snoc in Hacc'. simpl. by split_and!.
      * destruct Hrec as [Htr2 Hno].
        assert (∀ x, x ∈ student_id <$> concat h.*2 → x ∉ student_id <$> g) as Hdisj.
        { rewrite !fmap_app in Hnd. apply NoDup_app in Hnd as (_ & Hd & _).
          intros x Hx Hg. apply (Hd x Hx). apply elem_of_app. by left. }
        pose proof (tracks_backtrack h st2 room g Hroom Htr2 Hdisj) as Htr3.
        specialize (IH _ Hsub' Htr3 Hnd).
        destruct (try_rooms rooms dfs_next g cands _) as [[] st4]; simpl in *; [done|].
        destruct IH as [Htr4 Hno']. split; [done|].
        intros r h' [->|Hr]%elem_of_cons Hgs; [|by apply Hno'].
        intros (_ & _ & Hrest). rewrite <- status_of_snoc in Hrest. by eapply Hno.
    + specialize (IH _ Hsub' Htr Hnd).
      destruct (try_rooms rooms dfs_next g cands st) as [[] st4]; simpl in *; [done|].
      destruct IH as [Htr4 Hno']. split; [done|].
      intros r h' [->|Hr]%elem_of_cons Hgs; [|by apply Hno'].
      intros (_ & Hacc' & _). simpl in Hacc'. congruence.
Qed.

Lemma dfs_correct gs : dfs_spec gs (dfs rooms gs).
Proof.
  induction gs as [|g gs IH]; intros h st Htr Hnd; simpl.
  - exists []. by rewrite app_nil_r.
  - pose proof (try_rooms_spec g gs (dfs rooms gs) rooms h st IH (λ _ H, H) Htr Hnd) as H.
    destruct (try_rooms rooms (dfs rooms gs) g rooms st) as [[] st']; simpl in *.
    + destruct H as (room & h' & Hgs & Hacc & Htr'). exists ((room, g) :: h').
      split; [csimpl; by rewrite Hgs|]. by split.
    + destruct H as [Htr' Hno]. split; [done|].
      intros [|[room g'] h'] Hgs; [done|]. csimpl in Hgs. injection Hgs as -> Hgs.
      intros Hacc. pose proof Hacc as (Hroom & _). by eapply Hno.
Qed.

End ffd.

(** ** Both searches together *)

Lemma allocation_core (student_groups : list (nat * list Student)) (rooms : list RoomConfig) :
  NoDup (room_id <$> rooms) →
  NoDup (student_id <$> concat student_groups.*2) →
  match first_fit_decreasing student_groups rooms with
  | Some res =>
      ∃ h asg, h.*2 = sorted_desc group_size student_groups.*2 ∧ packing_ok rooms h ∧
               asg_matches h asg ∧ res = nonempty_rooms asg
  | None =>
      match backtracking_assign student_groups rooms with
      | Returned res =>
          ∃ h asg, h.*2 = sorted_desc group_size student_groups.*2 ∧ packing_ok rooms h ∧
                   asg_matches h asg ∧ res = nonempty_rooms asg
      | Raised e =>
          e = ValueError NoValidAssignment ∧
          ∀ h, h.*2 = sorted_desc group_size student_groups.*2 → ¬ packing_ok rooms h
      end
  end.
Proof.
  intros Hrooms Hids. unfold first_fit_decreasing, backtracking_assign.
  set (gs := sorted_desc group_size student_groups.*2).
  destruct (ffd_loop rooms gs (init_status rooms) []) as [asg|] eqn:Hffd.
  - apply (ffd_loop_spec rooms gs [] [] asg asg_matches_nil) in Hffd
      as (h & Hgs & Hacc & Hm).
    exists h, asg. split_and!; [done | | done | done].
    by apply (accepted_packing_ok rooms Hrooms true).
  - assert (tracks rooms [] (mkSearch (init_status rooms) [])) as Htr
      by (split; [done | apply asg_matches_nil]).
    assert (NoDup (student_id <$> concat ([] : list (RoomConfig * list Student)).*2 ++ concat gs))
      as Hnd.
    { simpl. unfold gs. by rewrite sorted_desc_Permutation. }
    pose proof (dfs_correct rooms Hrooms gs [] _ Htr Hnd) as Hdfs.
    destruct (dfs rooms gs _) as [[] st]; simpl in *.
    + destruct Hdfs as (h & Hgs & Hacc & [_ Hm]).
      exists h, (s_assignments st). split_and!; [done | | done | done].
      by apply (accepted_packing_ok rooms Hrooms false).
    + destruct Hdfs as [_ Hno]. split; [done|].
      intros h Hgs Hok. apply (Hno h Hgs).
      by apply (packing_ok_accepted rooms Hrooms false).
Qed.

(** ** From identifiers to [Student] objects and back *)

Lemma make_students_spec student_metadata sids ss :
  make_students student_metadata sids = Returned ss →
  student_id <$> ss = sids ∧ Forall (from_metadata student_metadata) ss.
Proof.
  revert ss. induction sids as [|sid sids IH]; intros ss; simpl.
  - intros [= <-]. by split.
  - destruct (student_metadata !! sid) as [md|] eqn:Hmd; [|done].
    destruct (make_Student sid md) as [s|] eqn:Hs; [|done].
    destruct (make_students student_metadata sids) as [ss'|]; [|done].
    intros [= <-]. destruct (IH ss' eq_refl) as [Hids Hall].
    assert (student_id s = sid) as Hsid.
    { unfold make_Student in Hs.
      destruct (md_Year md) as [[y|text]|]; [|destruct (int_of_str text)|]; try done;
        by injection Hs as <-. }
    split; [csimpl; by rewrite Hsid, Hids|].
    constructor; [|done]. exists md. by rewrite Hsid.
Qed.

Lemma make_students_from_metadata student_metadata (occ : list Student) :
  Forall (from_metadata student_metadata) occ →
  make_students student_metadata (student_id <$> occ) = Returned occ.
Proof.
  induction 1 as [|s occ (md & Hmd & Hs) _ IH]; csimpl; [done|].
  by rewrite Hmd, Hs, IH.
Qed.




Lemma make_student_groups_spec student_metadata groups acc sg :
  make_student_groups student_metadata groups acc = Returned sg →
  NoDup (acc.*1 ++ groups.*1) →
  ∃ new, sg = acc ++ new ∧
         student_id <$> concat new.*2 = concat groups.*2 ∧
         Forall (from_metadata student_metadata) (concat new.*2).
Proof.
  revert acc. induction groups as [|[color sids] groups IH]; intros acc; simpl.
  - intros [= <-] _. exists []. by rewrite app_nil_r.
  - destruct (make_students student_metadata sids) as [ss|] eqn:Hss; [|done].
    intros Hrec Hnd. apply make_students_spec in Hss as [Hids Hall].
    apply NoDup_app in Hnd as (Hacc & Hdisj & Hg). apply NoDup_cons in Hg as [Hc Hg].
    assert (color ∉ acc.*1) as Hfresh by (intros ?; eapply Hdisj; [done | left]).
    rewrite dict_set_fresh in Hrec by done.
    apply IH in Hrec as (new & -> & Hnew & Hall').
    + exists ((color, ss) :: new). split_and!.
      * by rewrite <- (assoc_L (++)).
      * csimpl. by rewrite fmap_app, Hids, Hnew.
      * csimpl. by apply Forall_app.
    + rewrite fmap_app. simpl. rewrite <- (assoc_L (++)). simpl.
      apply NoDup_app. split_and!; [done | | by constructor].
      intros x Hx [->|Hin]%elem_of_cons; [done|]. eapply Hdisj; [done | by right].
Qed.



(** ** The rooms that are returned *)

Lemma elem_of_nonempty_rooms asg kv : kv ∈ nonempty_rooms asg ↔ kv.2 ≠ [] ∧ kv ∈ asg.
Proof. unfold nonempty_rooms. by rewrite list_elem_of_filter. Qed.

Lemma nonempty_rooms_concat asg : concat (nonempty_rooms asg).*2 = concat asg.*2.
Proof.
  unfold nonempty_rooms. induction asg as [|[k v] asg IH]; [done|].
  destruct v as [|x v].
  - rewrite filter_cons_False by (simpl; auto). by rewrite IH.
  - rewrite filter_cons_True by done. csimpl. by rewrite IH.
Qed.

Lemma nonempty_rooms_NoDup asg : NoDup asg.*1 → NoDup (nonempty_rooms asg).*1.
Proof.
  unfold nonempty_rooms. induction asg as [|[k v] asg IH]; [done|].
  csimpl. intros [Hk Hnd]%NoDup_cons.
  destruct (decide (v ≠ [])).
  - rewrite filter_cons_True by done. csimpl. apply NoDup_cons. split; [|auto].
    intros (kv & -> & [_ Hin]%list_elem_of_filter)%list_elem_of_fmap.
    apply Hk. by apply (list_elem_of_fmap_2 fst) in Hin.
  - rewrite filter_cons_False by done. auto.
Qed.


Lemma occ_of_nonempty h rid :
  occ_of h rid ≠ [] → ∃ p, p ∈ h ∧ room_id p.1 = rid.
Proof.
  induction h as [|p h IH]; [done|]. rewrite occ_of_cons.
  destruct (decide (room_id p.1 = rid)).
  - intros _. exists p. split; [left | done].
  - simpl. intros (q & ? & ?)%IH. exists q. split; [by right | done].
Qed.

(** ** The entry point *)



Lemma room_ids_of_config (rooms_config : list room_config) :
  room_id <$> (make_RoomConfig <$> rooms_config) = cfg_room_name <$> rooms_config.
Proof. rewrite <- list_fmap_compose. done. Qed.

Lemma student_groups_ids student_metadata groups sg :
  make_student_groups student_metadata groups [] = Returned sg →
  NoDup groups.*1 →
  student_id <$> concat sg.*2 = concat groups.*2 ∧
  Forall (from_metadata student_metadata) (concat sg.*2).
Proof.
  intros Hsg Hnd. apply make_student_groups_spec in Hsg as (new & -> & ? & ?); [|done].
  done.
Qed.

Lemma returned_layout groups student_metadata rooms_config res :
  NoDup (cfg_room_name <$> rooms_config) → NoDup groups.*1 → NoDup (concat groups.*2) →
  assign_rooms_to_groups groups student_metadata rooms_config = Returned res →
  ∃ sg h asg,
    make_student_groups student_metadata groups [] = Returned sg ∧
    h.*2 = sorted_desc group_size sg.*2 ∧
    packing_ok (make_RoomConfig <$> rooms_config) h ∧
    asg_matches h asg ∧ res = nonempty_rooms asg.
Proof.
  intros Hrooms Hkeys Hids. unfold assign_rooms_to_groups.
  destruct (make_student_groups student_metadata groups []) as [sg|] eqn:Hsg; [|done].
  case_bool_decide; [done|].
  destruct (student_groups_ids _ _ _ Hsg Hkeys) as [Hsids _].
  pose proof (allocation_core sg (make_RoomConfig <$> rooms_config)) as Hcore.
  rewrite room_ids_of_config, Hsids in Hcore. specialize (Hcore Hrooms Hids).
  destruct (first_fit_decreasing sg _) as [r|].
  - intros [= <-]. destruct Hcore as (h & asg & ?). by exists sg, h, asg.
  - destruct (backtracking_assign sg _) as [r|]; [|done].
    intros [= <-]. destruct Hcore as (h & asg & ?). by exists sg, h, asg.
Qed.

Definition hall : room_config :=
  mkRoomCfg "Hall" 4 None None None (Some 1%Z) None None None None None.
Definition annex : room_config :=
  mkRoomCfg "Annex" 2 None None None None (Some [1%Z]) None None None None.
Definition first_year : Metadata :=
  mkMetadata None (Some (YearInt 1)) (Some "Maths") (Some "CS") None (Some "A") None.
Definition second_year : Metadata :=
  mkMetadata None (Some (YearInt 2)) (Some "Physics") (Some "EE") None (Some "B") None.
Definition four_students : gmap string Metadata :=
  list_to_map [("a", first_year); ("b", first_year); ("c", second_year); ("d", second_year)].
Definition two_groups : list (nat * list string) := [(0, ["a"; "b"]); (1, ["c"; "d"])].

(** C2.  Rooms with distinct names, colour groups with distinct keys and no
    identifier twice: whenever [assign_rooms_to_groups] returns, the rooms
    of the result are distinct, their lists taken together are a
    rearrangement of the input groups (every examinee placed exactly
    once), and every returned room is a room of the catalogue whose
    occupants number at most its capacity, have their years among its
    allowed years, and stay within each of its positive ceilings on
    distinct subjects, branches, departments and years. *)
Theorem assign_rooms_to_groups_sound groups student_metadata rooms_config res :
  NoDup (cfg_room_name <$> rooms_config) → NoDup groups.*1 → NoDup (concat groups.*2) →
  assign_rooms_to_groups groups student_metadata rooms_config = Returned res →
  NoDup res.*1 ∧
  concat res.*2 ≡ₚ concat groups.*2 ∧
  ∀ rid sids, (rid, sids) ∈ res →
    ∃ config occupants,
      config ∈ rooms_config ∧ cfg_room_name config = rid ∧
      make_students student_metadata sids = Returned occupants ∧
      (Z.of_nat (length sids) ≤ capacity (make_RoomConfig config))%Z ∧
      (∀ s, s ∈ occupants → year s ∈ allowed_years (make_RoomConfig config)) ∧
      ((0 < max_subjects (make_RoomConfig config))%Z →
         (Z.of_nat (size (group_subjects occupants)) ≤ max_subjects (make_RoomConfig config))%Z) ∧
      ((0 < max_branches (make_RoomConfig config))%Z →
         (Z.of_nat (size (group_branches occupants)) ≤ max_branches (make_RoomConfig config))%Z) ∧
      ((0 < max_departments (make_RoomConfig config))%Z →
         (Z.of_nat (size (group_departments occupants))
            ≤ max_departments (make_RoomConfig config))%Z) ∧
      ((0 < max_years (make_RoomConfig config))%Z →
         (Z.of_nat (size (group_years occupants)) ≤ max_years (make_RoomConfig config))%Z).
Proof.
  intros Hrooms Hkeys Hids Hres.
  destruct (returned_layout _ _ _ _ Hrooms Hkeys Hids Hres)
    as (sg & h & asg & Hsg & Hgs & Hok & (Hnd & Hget & Hperm) & ->).
  destruct (student_groups_ids _ _ _ Hsg Hkeys) as [Hsids Hmeta].
  assert (concat h.*2 ≡ₚ concat sg.*2) as Hall.
  { rewrite Hgs. by rewrite sorted_desc_Permutation. }
  split_and!.
  - by apply nonempty_rooms_NoDup.
  - by rewrite nonempty_rooms_concat, Hperm, Hall, Hsids.
  - intros rid sids [Hne Hin]%elem_of_nonempty_rooms. simpl in Hne.
    pose proof (dd_get_unique _ _ _ Hnd Hin) as Hsids'. rewrite Hget in Hsids'.
    destruct (occ_of_nonempty h rid) as (p & Hp & Hrid).
    { intros Hnil. rewrite Hnil in Hsids'. by subst. }
    destruct (Hok p Hp) as (Hroom & Hcap & Hyears & Hy & Hd & Hs & Hb).
    apply list_elem_of_fmap in Hroom as (config & Hcfg & Hconfig).
    rewrite Hrid, Hcfg in *.
    exists config, (occ_of h rid). split_and!; try done.
    + rewrite <- Hsids'. apply make_students_from_metadata.
      apply Forall_forall. intros s Hs'%elem_of_occ_of.
      rewrite Hall in Hs'. by eapply (proj1 (Forall_forall _ _) Hmeta).
    + by rewrite <- Hsids', length_fmap.
    + intros s Hs'. apply Hyears. unfold group_years.
      apply elem_of_list_to_set. by apply list_elem_of_fmap_2.
Qed.

Lemma assign_rooms_to_groups_sound_witness :
  assign_rooms_to_groups two_groups four_students [hall; annex]
    = Returned [("Hall", ["c"; "d"]); ("Annex", ["a"; "b"])] ∧
  concat [("Hall", ["c"; "d"]); ("Annex", ["a"; "b"])].*2 ≡ₚ concat two_groups.*2.
Proof.
  assert (assign_rooms_to_groups two_groups four_students [hall; annex]
            = Returned [("Hall", ["c"; "d"]); ("Annex", ["a"; "b"])]) as Hres
    by (vm_compute; reflexivity).
  split; [exact Hres|].
  refine (proj1 (proj2 (assign_rooms_to_groups_sound two_groups four_students
                          [hall; annex] _ _ _ _ Hres)));
    apply (bool_decide_unpack _); vm_compute; exact I.
Defined.






End RoomAssignmentProofs.
(* ===================================================================== *)
(** * Properties of the seat placer *)
(* ===================================================================== *)

Module SeatLayoutProofs.
Import Py PyFacts RoomAssignment SeatLayout.

Definition seat_cell (s : Seat) : Z * Z := (seat_x s, seat_y s).

(** The seat is the cell of a row-major index of the grid, and its number
    is that index plus one. *)
Definition seat_wf (cols rows : Z) (s : Seat) : Prop :=
  ∃ idx, (0 ≤ idx < cols * rows)%Z ∧ seat_cell s = cell_of cols idx ∧
         seat_no s = (idx + 1)%Z.

(** [assigned_positions] as the seats given so far determine it. *)
Definition positions_map (l : list Seat) : gmap (Z * Z) string :=
  list_to_map ((λ s, (seat_cell s, seat_student_id s)) <$> l).

(** Two distinct cells, each in the 8-neighbourhood of the other. *)
Definition neighbours (c1 c2 : Z * Z) : Prop :=
  c1 ≠ c2 ∧ (-1 ≤ c1.1 - c2.1 ≤ 1)%Z ∧ (-1 ≤ c1.2 - c2.2 ≤ 1)%Z.

(** [b] is in the relationship set of [a]. *)
Definition related (friend_graph : gmap string (gset string)) (a b : string) : Prop :=
  ∃ friends, friend_graph !! a = Some friends ∧ b ∈ friends.

(** Cell [c] is next to a seat of [seated] held by someone related to [sid]. *)
Definition beside_friend (friend_graph : gmap string (gset string))
    (seated : list Seat) (c : Z * Z) (sid : string) : Prop :=
  ∃ s, s ∈ seated ∧ related friend_graph sid (seat_student_id s) ∧
       neighbours c (seat_cell s).

(** What holds of the locals of the placement loop. *)
Record placing_inv (cols rows : Z) (st : placing) : Prop := {
  pi_wf : Forall (seat_wf cols rows) (seats st);
  pi_nodup : NoDup (seat_cell <$> seats st);
  pi_assigned : assigned_positions st = positions_map (seats st)
}.

(** A position of [get_spread_positions] is the row-major triple of an
    index of the grid. *)
Definition pos_wf (cols rows : Z) (p : Z * Z * Z) : Prop :=
  ∃ idx, (0 ≤ idx < cols * rows)%Z ∧ p = row_major cols idx.

(** ** Interleaving *)

Lemma concat_heads_tails {A} (qs : list (list A)) :
  concat qs ≡ₚ omap head qs ++ concat (tail <$> qs).
Proof.
  induction qs as [|[|x q] qs IH]; csimpl; [done | done |].
  f_equiv. rewrite IH, !(assoc_L (++)). f_equiv. apply Permutation_app_comm.
Qed.

Lemma no_queue_left {A} (qs : list (list A)) :
  existsb (λ q, bool_decide (q ≠ [])) qs = false → concat qs = [].
Proof.
  induction qs as [|q qs IH]; simpl; [done|].
  intros [Hq Hqs]%orb_false_iff. apply bool_decide_eq_false in Hq.
  apply dec_stable in Hq. subst. simpl. auto.
Qed.

Lemma some_queue_left {A} (qs : list (list A)) :
  existsb (λ q, bool_decide (q ≠ [])) qs = true → 0 < length (omap head qs).
Proof.
  induction qs as [|[|x q] qs IH]; csimpl; [done | done | lia].
Qed.

Lemma interleave_loop_Permutation {A} fuel (qs : list (list A)) :
  length (concat qs) ≤ fuel → interleave_loop fuel qs ≡ₚ concat qs.
Proof.
  revert qs. induction fuel as [|fuel IH]; intros qs Hlen; simpl.
  - destruct (concat qs); [done | simpl in Hlen; lia].
  - destruct (existsb _ qs) eqn:Hany.
    + rewrite (concat_heads_tails qs). f_equiv. apply IH.
      pose proof (some_queue_left qs Hany).
      rewrite (concat_heads_tails qs), length_app in Hlen. lia.
    + by rewrite no_queue_left.
Qed.

(** More fuel changes nothing: the loop has left by then. *)
Lemma interleave_loop_enough {A} fuel fuel' (qs : list (list A)) :
  length (concat qs) ≤ fuel → fuel ≤ fuel' →
  interleave_loop fuel' qs = interleave_loop fuel qs.
Proof.
  revert fuel' qs. induction fuel as [|fuel IH]; intros fuel' qs Hlen Hle.
  - destruct fuel'; simpl; [done|].
    destruct (existsb _ qs) eqn:Hany; [|done].
    apply some_queue_left in Hany.
    rewrite (concat_heads_tails qs), length_app in Hlen. lia.
  - destruct fuel' as [|fuel']; [lia|]. simpl.
    destruct (existsb _ qs) eqn:Hany; [|done]. f_equal. apply IH; [|lia].
    pose proof (some_queue_left qs Hany).
    rewrite (concat_heads_tails qs), length_app in Hlen. lia.
Qed.

Lemma concat_filter_nonempty {A} (gs : list (list A)) :
  concat (filter (λ g, g ≠ []) gs) = concat gs.
Proof.
  induction gs as [|g gs IH]; [done|]. destruct g as [|x g].
  - rewrite filter_cons_False by auto. done.
  - rewrite filter_cons_True by done. simpl. by rewrite IH.
Qed.

Lemma interleave_groups_Permutation {A} (groups : list (list A)) :
  interleave_groups groups ≡ₚ concat groups.
Proof.
  unfold interleave_groups. rewrite <- (concat_filter_nonempty groups).
  destruct (filter _ groups) as [|g gs] eqn:Hf; [done|].
  by apply interleave_loop_Permutation.
Qed.

Lemma queue_Permutation metadata students :
  interleave_groups (year_groups metadata students).*2 ≡ₚ students.
Proof.
  rewrite interleave_groups_Permutation. unfold year_groups.
  destruct (group_by_spec (K:=year_value) (A:=string) (year_of metadata) (λ sid, sid)
              students []) as (_ & Hperm & _).
  rewrite Hperm. simpl. by rewrite list_fmap_id.
Qed.

(** ** The grid *)

Lemma cell_of_inj cols i j : cols ≠ 0%Z → cell_of cols i = cell_of cols j → i = j.
Proof.
  unfold cell_of. intros Hc [= Hm Hd].
  rewrite (Z.div_mod i cols), (Z.div_mod j cols) by done. by rewrite Hm, Hd.
Qed.

Lemma NoDup_grid cols rows : NoDup (cell_of cols <$> range (cols * rows)).
Proof.
  destruct (decide (cols = 0%Z)) as [->|Hc]; [simpl; constructor|].
  apply NoDup_fmap_2_strong; [|apply NoDup_range].
  intros i j _ _. by apply cell_of_inj.
Qed.

Lemma cell_of_bounds cols rows idx :
  (0 < cols)%Z → (0 ≤ idx < cols * rows)%Z →
  (0 ≤ (cell_of cols idx).1 < cols)%Z ∧ (0 ≤ (cell_of cols idx).2 < rows)%Z ∧
  idx = ((cell_of cols idx).2 * cols + (cell_of cols idx).1)%Z.
Proof.
  intros Hc Hidx. unfold cell_of. simpl.
  pose proof (Z.mod_pos_bound idx cols Hc).
  pose proof (Z.div_mod idx cols ltac:(lia)).
  assert (0 ≤ idx `div` cols)%Z by (apply Z.div_pos; lia).
  assert (idx `div` cols < rows)%Z by (apply Z.div_lt_upper_bound; lia).
  lia.
Qed.

(** ** Looking for a cell *)

Lemma find_position_Some (sid : string) (assigned : gmap (Z * Z) string) fg cols rows pos :
  find_non_adjacent_position sid assigned fg cols rows = Some pos →
  ∃ idx, (0 ≤ idx < cols * rows)%Z ∧ pos = (cell_of cols idx, (idx + 1)%Z) ∧
    assigned !! cell_of cols idx = None ∧
    ((∃ j, (0 ≤ j < cols * rows)%Z ∧ assigned !! cell_of cols j = None ∧
           is_adjacent_to_friend (cell_of cols j).1 (cell_of cols j).2 sid assigned
             fg cols rows = false) →
     is_adjacent_to_friend (cell_of cols idx).1 (cell_of cols idx).2 sid assigned
       fg cols rows = false).
Proof.
  unfold find_non_adjacent_position.
  destruct (list_find _ _) as [[i idx]|] eqn:H1.
  - intros [= <-]. apply list_find_Some in H1 as (Hl & [Hfree Hadj] & _).
    exists idx. split_and!; [| | done | done | done].
    + apply list_elem_of_lookup_2, elem_of_range in Hl. lia.
    + apply list_elem_of_lookup_2, elem_of_range in Hl. lia.
  - apply list_find_None in H1. rewrite Forall_forall in H1.
    destruct (list_find _ _) as [[i idx]|] eqn:H2; [|done].
    intros [= <-]. apply list_find_Some in H2 as (Hl & Hfree & _).
    apply list_elem_of_lookup_2, elem_of_range in Hl.
    exists idx. split_and!; [lia | lia | done | done |].
    intros (j & Hj & Hf & Ha). exfalso. apply (H1 j); [by apply elem_of_range | done].
Qed.

Lemma find_position_None (sid : string) (assigned : gmap (Z * Z) string) fg cols rows :
  find_non_adjacent_position sid assigned fg cols rows = None ↔
  ∀ idx, (0 ≤ idx < cols * rows)%Z → is_Some (assigned !! cell_of cols idx).
Proof.
  unfold find_non_adjacent_position. split.
  - destruct (list_find _ _) as [[i idx]|]; [done|].
    destruct (list_find _ _) as [[i idx]|] eqn:H2; [done|]. intros _.
    apply list_find_None in H2. rewrite Forall_forall in H2.
    intros idx Hidx. apply not_eq_None_Some. apply H2. by apply elem_of_range.
  - intros Hfull.
    destruct (list_find _ _) as [[i idx]|] eqn:H1.
    + apply list_find_Some in H1 as (Hl & [Hfree _] & _).
      apply list_elem_of_lookup_2, elem_of_range in Hl.
      destruct (Hfull idx Hl) as [? ?]. congruence.
    + clear H1.
      destruct (list_find _ _) as [[i idx]|] eqn:H2; [|done].
      apply list_find_Some in H2 as (Hl & Hfree & _).
      apply list_elem_of_lookup_2, elem_of_range in Hl.
      destruct (Hfull idx Hl) as [? ?]. congruence.
Qed.

Lemma positions_map_None l c : positions_map l !! c = None ↔ c ∉ seat_cell <$> l.
Proof.
  unfold positions_map. rewrite <- not_elem_of_list_to_map.
  by rewrite <- list_fmap_compose.
Qed.

Lemma positions_map_Some l c sid :
  NoDup (seat_cell <$> l) →
  positions_map l !! c = Some sid ↔
  ∃ s, s ∈ l ∧ seat_cell s = c ∧ seat_student_id s = sid.
Proof.
  intros Hnd. unfold positions_map. rewrite <- elem_of_list_to_map.
  - rewrite list_elem_of_fmap. split.
    + intros (s & [= -> ->] & ?). eauto.
    + intros (s & ? & <- & <-). eauto.
  - by rewrite <- list_fmap_compose.
Qed.

Lemma positions_map_snoc l s :
  seat_cell s ∉ seat_cell <$> l →
  positions_map (l ++ [s]) = <[seat_cell s := seat_student_id s]> (positions_map l).
Proof.
  intros Hfree. unfold positions_map. rewrite fmap_app. simpl.
  apply list_to_map_snoc. by rewrite <- list_fmap_compose.
Qed.

Lemma grid_full cols rows l :
  Forall (seat_wf cols rows) l → NoDup (seat_cell <$> l) →
  (∀ idx, (0 ≤ idx < cols * rows)%Z → is_Some (positions_map l !! cell_of cols idx)) ↔
  Z.to_nat (cols * rows) ≤ length l.
Proof.
  intros Hwf Hnd.
  assert (∀ c, c ∈ seat_cell <$> l → c ∈ cell_of cols <$> range (cols * rows)) as Hsub.
  { intros c (s & -> & Hs)%list_elem_of_fmap. rewrite Forall_forall in Hwf.
    destruct (Hwf s Hs) as (idx & Hidx & -> & _).
    apply list_elem_of_fmap_2. by apply elem_of_range. }
  split.
  - intros Hfull.
    assert (cell_of cols <$> range (cols * rows) ⊆+ seat_cell <$> l) as Hle.
    { apply NoDup_submseteq; [apply NoDup_grid|].
      intros c (idx & -> & Hidx%elem_of_range)%list_elem_of_fmap.
      apply dec_stable. intros Hc%positions_map_None.
      destruct (Hfull idx Hidx) as [? ?]. congruence. }
    apply submseteq_length in Hle. by rewrite !length_fmap, length_range in Hle.
  - intros Hlen idx Hidx.
    assert (seat_cell <$> l ≡ₚ cell_of cols <$> range (cols * rows)) as Hperm.
    { apply submseteq_length_Permutation; [by apply NoDup_submseteq|].
      by rewrite !length_fmap, length_range. }
    apply not_eq_None_Some. rewrite positions_map_None, Hperm.
    intros Hc. apply Hc, list_elem_of_fmap_2. by apply elem_of_range.
Qed.

(** ** The placement loop of one room *)

Lemma make_seat_fields metadata sid pos :
  seat_cell (make_seat metadata sid pos) = pos.1 ∧
  seat_student_id (make_seat metadata sid pos) = sid ∧
  seat_no (make_seat metadata sid pos) = pos.2.
Proof. by destruct pos as [[? ?] ?]. Qed.

Lemma placing_inv_init cols rows v : placing_inv cols rows (mkPlacing [] ∅ v).
Proof. split; simpl; [constructor | constructor | done]. Qed.

Lemma place_student_step metadata fg room cols rows st sid :
  placing_inv cols rows st →
  placing_inv cols rows (place_student metadata fg room cols rows st sid) ∧
  (length (seats st) < Z.to_nat (cols * rows) →
   ∃ pos, seats (place_student metadata fg room cols rows st sid)
          = seats st ++ [make_seat metadata sid pos]) ∧
  (Z.to_nat (cols * rows) ≤ length (seats st) →
   seats (place_student metadata fg room cols rows st sid) = seats st).
Proof.
  intros [Hwf Hnd Hmap]. unfold place_student.
  destruct (find_non_adjacent_position _ _ _ _ _) as [pos|] eqn:Hfind.
  - apply find_position_Some in Hfind as (idx & Hidx & -> & Hfree & _).
    rewrite Hmap in Hfree. apply positions_map_None in Hfree. simpl.
    split_and!.
    + split; simpl.
      * apply Forall_app. split; [done|]. constructor; [|constructor].
        exists idx. split_and!; [lia | lia | reflexivity | reflexivity].
      * rewrite fmap_app. apply NoDup_app. split_and!; [done | | apply NoDup_singleton].
        intros c Hc ->%list_elem_of_singleton. done.
      * rewrite (positions_map_snoc _ (make_seat metadata sid (cell_of cols idx, (idx + 1)%Z)))
          by done.
        by rewrite Hmap.
    + eauto.
    + intros Hlen. exfalso.
      pose proof (proj2 (grid_full cols rows _ Hwf Hnd) Hlen idx Hidx) as [x Hx].
      apply positions_map_None in Hfree. congruence.
  - split_and!; [done | | done].
    intros Hlen. exfalso.
    rewrite find_position_None, Hmap in Hfind.
    apply (proj1 (grid_full cols rows _ Hwf Hnd)) in Hfind. lia.
Qed.

Lemma place_loop metadata fg room cols rows queue st :
  placing_inv cols rows st →
  placing_inv cols rows (foldl (place_student metadata fg room cols rows) st queue) ∧
  seat_student_id <$> seats (foldl (place_student metadata fg room cols rows) st queue)
  = (seat_student_id <$> seats st)
    ++ take (Z.to_nat (cols * rows) - length (seats st)) queue.
Proof.
  revert st. induction queue as [|sid queue IH]; intros st Hinv; simpl.
  - by rewrite take_nil, app_nil_r.
  - destruct (place_student_step metadata fg room cols rows st sid Hinv)
      as (Hinv' & Hroom & Hfull).
    destruct (IH _ Hinv') as [Hfinal Hids]. split; [done|]. rewrite Hids.
    destruct (decide (length (seats st) < Z.to_nat (cols * rows))) as [Hlt|Hge].
    + destruct (Hroom Hlt) as [pos ->]. rewrite fmap_app, length_app. simpl.
      rewrite <- (assoc_L (++)). f_equal. simpl.
      replace (Z.to_nat (cols * rows) - length (seats st))
        with (S (Z.to_nat (cols * rows) - (length (seats st) + 1))) by lia.
      done.
    + rewrite Hfull by lia.
      replace (Z.to_nat (cols * rows) - length (seats st)) with 0 by lia. done.
Qed.

(** ** Spread positions *)

Lemma fill_until_spec num check cells positions :
  (check = false → NoDup (positions ++ cells)) → NoDup positions →
  (Z.of_nat (length positions) < num)%Z →
  match fill_until num check cells positions with
  | inl p => Z.of_nat (length p) = num ∧ NoDup p ∧
             (∀ x, x ∈ p → x ∈ positions ∨ x ∈ cells)
  | inr p => (Z.of_nat (length p) < num)%Z ∧ NoDup p ∧
             (∀ x, x ∈ p → x ∈ positions ∨ x ∈ cells) ∧
             (∀ x, x ∈ positions ∨ x ∈ cells → x ∈ p)
  end.
Proof.
  revert positions. induction cells as [|pos rest IH]; intros positions Hall Hnd Hlen; simpl.
  - split_and!; [done | done | auto |]. intros x [?|?%elem_of_nil]; done.
  - destruct (check && bool_decide (pos ∈ positions)) eqn:Hskip.
    + apply andb_true_iff in Hskip as [-> Hin%bool_decide_eq_true].
      specialize (IH positions ltac:(done) Hnd Hlen).
      destruct (fill_until num true rest positions) as [p|p].
      * destruct IH as (? & ? & Hsub). split_and!; [done | done |].
        intros x Hx. destruct (Hsub x Hx); [by left | right; by right].
      * destruct IH as (? & ? & Hsub & Hsup). split_and!; [done | done | |].
        -- intros x Hx. destruct (Hsub x Hx); [by left | right; by right].
        -- intros x [?| [->|?]%elem_of_cons]; apply Hsup; auto.
    + assert (NoDup (positions ++ [pos])) as Hnd'.
      { apply NoDup_app. split_and!; [done | | apply NoDup_singleton].
        intros x Hx ->%list_elem_of_singleton.
        destruct check; simpl in Hskip.
        - by apply bool_decide_eq_false in Hskip.
        - specialize (Hall eq_refl). apply NoDup_app in Hall as (_ & Hd & _).
          apply (Hd pos Hx). left. }
      assert (∀ x, (x ∈ positions ++ [pos] ∨ x ∈ rest) ↔ (x ∈ positions ∨ x ∈ pos :: rest))
        as Hconv.
      { intros x. rewrite elem_of_app, !elem_of_cons, elem_of_nil. tauto. }
      clear Hskip. case_bool_decide as Hfull.
      * rewrite length_app in *. simpl in *. split_and!; [lia | done |].
        intros x Hx. apply Hconv. by left.
      * rewrite length_app in Hfull. simpl in Hfull.
        assert (check = false → NoDup ((positions ++ [pos]) ++ rest)) as Hall'.
        { intros ->. rewrite <- (assoc_L (++)). by apply Hall. }
        assert (Z.of_nat (length (positions ++ [pos])) < num)%Z as Hlen'
          by (rewrite length_app; simpl; lia).
        specialize (IH (positions ++ [pos]) Hall' Hnd' Hlen').
        destruct (fill_until num check rest (positions ++ [pos])) as [p|p].
        -- destruct IH as (? & ? & Hsub). split_and!; [done | done |].
           intros x Hx. by apply Hconv, Hsub.
        -- destruct IH as (? & ? & Hsub & Hsup). split_and!; [done | done | |].
           ++ intros x Hx. by apply Hconv, Hsub.
           ++ intros x Hx. by apply Hsup, Hconv.
Qed.

Lemma elem_of_checkerboard start_of cols rows p :
  p ∈ checkerboard start_of cols rows ↔
  ∃ row col, (0 ≤ row < rows)%Z ∧ col ∈ range2 (start_of row) cols ∧
             p = ((col, row), (row * cols + col + 1)%Z).
Proof.
  unfold checkerboard. rewrite list_elem_of_bind. split.
  - intros (row & (col & ->%list_elem_of_singleton & Hcol)%list_elem_of_bind
              & Hrow%elem_of_range). eauto.
  - intros (row & col & Hrow & Hcol & ->). exists row.
    split; [|by apply elem_of_range]. apply list_elem_of_bind. exists col.
    split; [by apply list_elem_of_singleton | done].
Qed.

Lemma NoDup_checkerboard start_of cols rows : NoDup (checkerboard start_of cols rows).
Proof.
  unfold checkerboard. apply NoDup_bind; [| |apply NoDup_range].
  - intros r1 r2 p _ _ (c1 & ->%list_elem_of_singleton & _)%list_elem_of_bind
      (c2 & Heq%list_elem_of_singleton & _)%list_elem_of_bind. congruence.
  - intros row _. apply NoDup_bind; [| |apply NoDup_range2].
    + intros c1 c2 p _ _ ->%list_elem_of_singleton Heq%list_elem_of_singleton. congruence.
    + intros col _. apply NoDup_singleton.
Qed.

Lemma row_major_cell cols row col :
  (0 ≤ col < cols)%Z → row_major cols (row * cols + col) = ((col, row), (row * cols + col + 1)%Z).
Proof.
  intros Hcol. unfold row_major, cell_of. do 2 f_equal.
  - symmetry. apply (Z.mod_unique_pos _ _ row); lia.
  - symmetry. apply (Z.div_unique_pos _ _ _ col); lia.
Qed.

Lemma checkerboard_wf start_of cols rows p :
  (∀ row, 0 ≤ start_of row)%Z → p ∈ checkerboard start_of cols rows → pos_wf cols rows p.
Proof.
  intros Hstart (row & col & Hrow & (k & Hk & Hlt)%elem_of_range2 & ->)%elem_of_checkerboard.
  pose proof (Hstart row). exists (row * cols + col)%Z. split; [nia|].
  symmetry. apply row_major_cell. lia.
Qed.

Lemma checkerboard_cover cols rows idx :
  (0 < cols)%Z → (0 ≤ idx < cols * rows)%Z →
  row_major cols idx ∈ checkerboard (λ row, row `mod` 2)%Z cols rows ∨
  row_major cols idx ∈ checkerboard (λ row, 1 - row `mod` 2)%Z cols rows.
Proof.
  intros Hc Hidx. destruct (cell_of_bounds cols rows idx Hc Hidx) as (Hx & Hy & Heq).
  set (c := (cell_of cols idx).1) in *. set (r := (cell_of cols idx).2) in *.
  assert (row_major cols idx = ((c, r), (r * cols + c + 1)%Z)) as ->.
  { rewrite Heq at 1. by apply row_major_cell. }
  pose proof (Z.mod_pos_bound r 2 ltac:(lia)).
  pose proof (Z.mod_pos_bound c 2 ltac:(lia)).
  pose proof (Z.div_mod c 2 ltac:(lia)).
  destruct (decide (c `mod` 2 = r `mod` 2)%Z) as [Hpar|Hpar].
  - left. apply elem_of_checkerboard. exists r, c. split; [done|]. split; [|done].
    apply elem_of_range2. exists (Z.to_nat (c `div` 2)). lia.
  - right. apply elem_of_checkerboard. exists r, c. split; [done|]. split; [|done].
    apply elem_of_range2.
    exists (Z.to_nat ((c - (1 - r `mod` 2)) `div` 2)).
    pose proof (Z.div_mod (c - (1 - r `mod` 2)) 2 ltac:(lia)).
    pose proof (Z.mod_pos_bound (c - (1 - r `mod` 2)) 2 ltac:(lia)).
    assert (0 ≤ (c - (1 - r `mod` 2)) `div` 2)%Z by (apply Z.div_pos; lia).
    assert ((c - (1 - r `mod` 2)) `mod` 2 = 0)%Z; [|lia].
    replace (c - (1 - r `mod` 2))%Z with (c `mod` 2 - (1 - r `mod` 2) + c `div` 2 * 2)%Z by lia.
    rewrite Z.mod_add by lia.
    assert (c `mod` 2 - (1 - r `mod` 2) = 0)%Z as -> by lia. done.
Qed.

Lemma row_major_inj cols i j : cols ≠ 0%Z → (row_major cols i).1 = (row_major cols j).1 → i = j.
Proof. unfold row_major. simpl. apply cell_of_inj. Qed.

Lemma NoDup_cells_of_wf cols rows ps :
  cols ≠ 0%Z → Forall (pos_wf cols rows) ps → NoDup ps → NoDup (ps.*1).
Proof.
  intros Hc Hwf Hnd. apply NoDup_fmap_2_strong; [|done].
  rewrite Forall_forall in Hwf.
  intros p q (i & _ & ->)%Hwf (j & _ & ->)%Hwf Heq.
  by rewrite (row_major_inj cols i j Hc Heq).
Qed.

Lemma spread_positions_full n cols rows :
  (cols * rows ≤ n)%Z → get_spread_positions n cols rows = row_major cols <$> range (cols * rows).
Proof. intros. unfold get_spread_positions. by rewrite bool_decide_eq_true_2. Qed.

Lemma row_major_range_wf cols rows n :
  (n ≤ cols * rows)%Z → Forall (pos_wf cols rows) (row_major cols <$> range n).
Proof.
  intros Hn. apply Forall_forall. intros p (idx & -> & Hidx%elem_of_range)%list_elem_of_fmap.
  exists idx. split; [lia | done].
Qed.

Lemma NoDup_row_major_range cols n : NoDup (row_major cols <$> range n).
Proof.
  apply NoDup_fmap_2; [|apply NoDup_range]. intros i j [= _ ?]. lia.
Qed.

Lemma spread_positions_spec n cols rows :
  (0 < cols)%Z → (1 ≤ n ≤ cols * rows)%Z →
  length (get_spread_positions n cols rows) = Z.to_nat n ∧
  NoDup (get_spread_positions n cols rows) ∧
  Forall (pos_wf cols rows) (get_spread_positions n cols rows).
Proof.
  intros Hc Hn. unfold get_spread_positions.
  case_bool_decide as Hfull.
  { assert (n = cols * rows)%Z as -> by lia.
    split_and!; [by rewrite length_fmap, length_range | apply NoDup_row_major_range |].
    by apply row_major_range_wf. }
  case_bool_decide as Hspacing.
  - pose proof (fill_until_spec n false (checkerboard (λ row, row `mod` 2)%Z cols rows) [])
      as H1.
    simpl in H1. specialize (H1 (λ _, NoDup_checkerboard _ _ _) (NoDup_nil_2) ltac:(lia)).
    assert (∀ p, p ∈ checkerboard (λ row, row `mod` 2)%Z cols rows → pos_wf cols rows p) as Hwf1.
    { intros p. apply checkerboard_wf. intros row. pose proof (Z.mod_pos_bound row 2). lia. }
    assert (∀ p, p ∈ checkerboard (λ row, 1 - row `mod` 2)%Z cols rows → pos_wf cols rows p)
      as Hwf2.
    { intros p. apply checkerboard_wf. intros row. pose proof (Z.mod_pos_bound row 2). lia. }
    destruct (fill_until n false _ []) as [p1|p1].
    + destruct H1 as (Hlen & Hnd & Hsub). split_and!; [lia | done |].
      apply Forall_forall. intros p [?%elem_of_nil|?]%Hsub; [done | auto].
    + destruct H1 as (Hlen1 & Hnd1 & Hsub1 & Hsup1).
      pose proof (fill_until_spec n true
                    (checkerboard (λ row, 1 - row `mod` 2)%Z cols rows) p1
                    ltac:(done) Hnd1 Hlen1) as H2.
      destruct (fill_until n true _ p1) as [p2|p2].
      * destruct H2 as (Hlen & Hnd & Hsub). split_and!; [lia | done |].
        apply Forall_forall. intros p [[?%elem_of_nil|?]%Hsub1|?]%Hsub; [done | auto | auto].
      * exfalso. destruct H2 as (Hlen2 & Hnd2 & _ & Hsup2).
        assert (row_major cols <$> range (cols * rows) ⊆+ p2) as Hle.
        { apply NoDup_submseteq; [apply NoDup_row_major_range|].
          intros p (idx & -> & Hidx%elem_of_range)%list_elem_of_fmap.
          apply Hsup2. destruct (checkerboard_cover cols rows idx Hc Hidx); [|by right].
          left. apply Hsup1. by right. }
        apply submseteq_length in Hle. rewrite length_fmap, length_range in Hle. lia.
  - assert (Z.min n (cols * rows) = n) as -> by lia.
    rewrite take_ge by (rewrite length_fmap, length_range; lia).
    split_and!; [by rewrite length_fmap, length_range | apply NoDup_row_major_range |].
    apply row_major_range_wf. lia.
Qed.

(** ** One room *)

Lemma zip_seat_ids metadata queue ps :
  seat_student_id <$> zip_with (make_seat metadata) queue ps = take (length ps) queue.
Proof.
  revert ps. induction queue as [|sid queue IH]; intros [|p ps]; csimpl; [done..|].
  by rewrite IH.
Qed.

Lemma zip_seat_cells metadata queue ps :
  seat_cell <$> zip_with (make_seat metadata) queue ps = take (length queue) ps.*1.
Proof.
  revert ps. induction queue as [|sid queue IH]; intros [|p ps]; csimpl; [done..|].
  rewrite IH. by destruct p as [[? ?] ?].
Qed.

Lemma zip_seat_wf metadata queue ps cols rows :
  Forall (pos_wf cols rows) ps →
  Forall (seat_wf cols rows) (zip_with (make_seat metadata) queue ps).
Proof.
  intros Hwf. revert queue. induction Hwf as [|p ps (idx & Hidx & ->) _ IH];
    intros [|sid queue]; simpl; constructor; [|apply IH].
  exists idx. split_and!; [lia | lia | done | done].
Qed.

Lemma seat_wf_bounds cols rows s :
  (0 < cols)%Z → seat_wf cols rows s →
  (0 ≤ seat_x s < cols)%Z ∧ (0 ≤ seat_y s < rows)%Z ∧
  seat_no s = (seat_y s * cols + seat_x s + 1)%Z.
Proof.
  intros Hc (idx & Hidx & Hcell & Hno).
  destruct (cell_of_bounds cols rows idx Hc Hidx) as (Hx & Hy & Heq).
  rewrite <- Hcell in Hx, Hy, Heq. simpl in *. lia.
Qed.

Lemma seat_numbers_NoDup cols rows l :
  cols ≠ 0%Z → Forall (seat_wf cols rows) l → NoDup (seat_cell <$> l) →
  NoDup (seat_no <$> l).
Proof.
  intros Hc Hwf Hnd. apply NoDup_fmap_2_strong; [|by eapply NoDup_fmap_1].
  rewrite Forall_forall in Hwf.
  intros s1 s2 H1 H2 Hno.
  destruct (Hwf s1 H1) as (i & _ & Hc1 & Hn1), (Hwf s2 H2) as (j & _ & Hc2 & Hn2).
  assert (i = j) as -> by lia. rewrite <- Hc2 in Hc1.
  assert (∀ l, NoDup (seat_cell <$> l) → s1 ∈ l → s2 ∈ l → seat_cell s1 = seat_cell s2 →
            s1 = s2) as Hinj.
  { clear. induction l as [|s l IH]; [by intros _ ?%elem_of_nil|].
    csimpl. intros [Hs Hl]%NoDup_cons [->|H1]%elem_of_cons [->|H2]%elem_of_cons Heq;
      [done | | | by apply IH].
    - exfalso. apply Hs. rewrite Heq. by apply list_elem_of_fmap_2.
    - exfalso. apply Hs. rewrite <- Heq. by apply list_elem_of_fmap_2. }
  by apply (Hinj l).
Qed.

(** The queue of a room and the seats each path gives it. *)
Definition room_queue (metadata : gmap string Metadata) (students : list string)
  : list string :=
  interleave_groups (year_groups metadata students).*2.

Definition spread_seats (metadata : gmap string Metadata) (cols rows : Z)
    (students : list string) : list Seat :=
  zip_with (make_seat metadata) (room_queue metadata students)
    (get_spread_positions (Z.of_nat (length (room_queue metadata students))) cols rows).

Definition separated (metadata : gmap string Metadata)
    (friend_graph : gmap string (gset string)) (room : string) (cols rows : Z)
    (v : list Violation) (students : list string) : placing :=
  foldl (place_student metadata friend_graph room cols rows) (mkPlacing [] ∅ v)
    (room_queue metadata students).

Lemma length_room_queue metadata students :
  length (room_queue metadata students) = length students.
Proof. unfold room_queue. by rewrite queue_Permutation. Qed.

Lemma spread_seats_within metadata cols rows students :
  (0 < cols)%Z → students ≠ [] → (Z.of_nat (length students) ≤ cols * rows)%Z →
  seat_student_id <$> spread_seats metadata cols rows students = room_queue metadata students ∧
  Forall (seat_wf cols rows) (spread_seats metadata cols rows students) ∧
  NoDup (seat_cell <$> spread_seats metadata cols rows students).
Proof.
  intros Hc Hne Hlen. unfold spread_seats.
  pose proof (length_room_queue metadata students) as Hq. rewrite Hq.
  assert (1 ≤ Z.of_nat (length students))%Z by (destruct students; [done | simpl; lia]).
  destruct (spread_positions_spec (Z.of_nat (length students)) cols rows Hc ltac:(lia))
    as (Hl & Hnd & Hwf).
  rewrite Nat2Z.id in Hl. split_and!.
  - rewrite zip_seat_ids, Hl, <- Hq. by apply take_ge.
  - by apply zip_seat_wf.
  - rewrite zip_seat_cells, Hq, take_ge by (rewrite length_fmap; lia).
    apply (NoDup_cells_of_wf cols rows); [lia | done | done].
Qed.

Lemma spread_seats_over metadata cols rows students :
  (cols * rows ≤ Z.of_nat (length students))%Z →
  seat_student_id <$> spread_seats metadata cols rows students
  = take (Z.to_nat (cols * rows)) (room_queue metadata students).
Proof.
  intros Hlen. unfold spread_seats. rewrite length_room_queue.
  rewrite spread_positions_full by done.
  by rewrite zip_seat_ids, length_fmap, length_range.
Qed.

Lemma separated_spec metadata fg room cols rows v students :
  placing_inv cols rows (separated metadata fg room cols rows v students) ∧
  seat_student_id <$> seats (separated metadata fg room cols rows v students)
  = take (Z.to_nat (cols * rows)) (room_queue metadata students).
Proof.
  unfold separated.
  destruct (place_loop metadata fg room cols rows (room_queue metadata students)
              (mkPlacing [] ∅ v) (placing_inv_init cols rows v)) as [Hinv Hids].
  split; [done|]. rewrite Hids. simpl. by rewrite Nat.sub_0_r.
Qed.

(** ** The rooms of the result *)

Lemma spread_room_other metadata rc ra acc room :
  room ∉ ra.*1 →
  dict_get room (foldl (spread_room metadata rc) acc ra) = dict_get room acc.
Proof.
  revert acc. induction ra as [|[r students] ra IH]; intros acc Hnot; [done|].
  csimpl in *. apply not_elem_of_cons in Hnot as [Hne Hnot]. rewrite IH by done.
  unfold spread_room. simpl. destruct students; [done|].
  by rewrite dict_get_set, decide_False.
Qed.

Lemma spread_room_lookup metadata rc ra acc room students :
  NoDup ra.*1 → (room, students) ∈ ra →
  dict_get room (foldl (spread_room metadata rc) acc ra)
  = match students with
    | [] => dict_get room acc
    | _ => Some (spread_seats metadata (room_layout rc room).1 (room_layout rc room).2
                   students)
    end.
Proof.
  revert acc. induction ra as [|[r ss] ra IH]; intros acc Hnd Hin.
  - by apply elem_of_nil in Hin.
  - csimpl in *. apply NoDup_cons in Hnd as [Hr Hnd].
    apply elem_of_cons in Hin as [[= <- <-]|Hin].
    + rewrite spread_room_other by done. unfold spread_room. simpl.
      destruct students; [done|]. by rewrite dict_get_set, decide_True.
    + rewrite IH by done. destruct students; [|done].
      unfold spread_room. simpl. destruct ss; [done|].
      rewrite dict_get_set, decide_False; [done|].
      intros ->. apply Hr. by apply (list_elem_of_fmap_2 fst) in Hin.
Qed.

Lemma separation_room_other metadata rc fg ra acc room :
  room ∉ ra.*1 →
  dict_get room (foldl (separation_room metadata rc fg) acc ra).1 = dict_get room acc.1.
Proof.
  revert acc. induction ra as [|[r students] ra IH]; intros acc Hnot; [done|].
  csimpl in *. apply not_elem_of_cons in Hnot as [Hne Hnot]. rewrite IH by done.
  unfold separation_room. simpl. destruct students; [done|]. simpl.
  by rewrite dict_get_set, decide_False.
Qed.

Lemma separation_room_lookup metadata rc fg ra acc room students :
  NoDup ra.*1 → (room, students) ∈ ra →
  ∃ v, dict_get room (foldl (separation_room metadata rc fg) acc ra).1
       = match students with
         | [] => dict_get room acc.1
         | _ => Some (seats (separated metadata fg room (room_layout rc room).1
                               (room_layout rc room).2 v students))
         end.
Proof.
  revert acc. induction ra as [|[r ss] ra IH]; intros acc Hnd Hin.
  - by apply elem_of_nil in Hin.
  - csimpl in *. apply NoDup_cons in Hnd as [Hr Hnd].
    apply elem_of_cons in Hin as [[= <- <-]|Hin].
    + rewrite separation_room_other by done. unfold separation_room. simpl.
      destruct students as [|s students]; [by exists []|]. simpl.
      exists acc.2. by rewrite dict_get_set, decide_True.
    + destruct (IH (separation_room metadata rc fg acc (r, ss)) Hnd Hin) as [v Hv].
      exists v. rewrite Hv. destruct students; [|done].
      unfold separation_room. simpl. destruct ss; [done|]. simpl.
      rewrite dict_get_set, decide_False; [done|].
      intros ->. apply Hr. by apply (list_elem_of_fmap_2 fst) in Hin.
Qed.

(** The seats [assign_seats_in_room] gives a room: those of the spread
    path, or those of the relationship-aware path. *)
Lemma assign_seats_in_room_lookup db_friend_graph room_assignment metadata room_config
    friend_graph room students :
  NoDup room_assignment.*1 → (room, students) ∈ room_assignment → students ≠ [] →
  dict_get room (assign_seats_in_room db_friend_graph room_assignment metadata
                   room_config friend_graph)
  = (if truthy friend_graph
     then dict_get room (assign_seats_with_separation db_friend_graph room_assignment
                           metadata room_config friend_graph)
     else Some (spread_seats metadata (room_layout room_config room).1
                  (room_layout room_config room).2 students)) ∧
  ∃ v, dict_get room (assign_seats_with_separation db_friend_graph room_assignment
                        metadata room_config friend_graph)
       = Some (seats (separated metadata (default db_friend_graph friend_graph) room
                        (room_layout room_config room).1 (room_layout room_config room).2
                        v students)).
Proof.
  intros Hnd Hin Hne. split.
  - unfold assign_seats_in_room. destruct (truthy friend_graph); [done|].
    rewrite (spread_room_lookup _ _ _ _ _ students) by done. by destruct students.
  - unfold assign_seats_with_separation, separation_loop.
    destruct (separation_room_lookup metadata room_config
                (default db_friend_graph friend_graph) room_assignment ([], []) room students
                Hnd Hin) as [v Hv].
    exists v. rewrite Hv. by destruct students.
Qed.

Lemma assign_seats_in_room_empty db_friend_graph room_assignment metadata room_config
    friend_graph room :
  NoDup room_assignment.*1 → (room, []) ∈ room_assignment →
  dict_get room (assign_seats_in_room db_friend_graph room_assignment metadata
                   room_config friend_graph) = None.
Proof.
  intros Hnd Hin. unfold assign_seats_in_room, assign_seats_with_separation, separation_loop.
  destruct (truthy friend_graph).
  - destruct (separation_room_lookup metadata room_config
                (default db_friend_graph friend_graph) room_assignment ([], []) room []
                Hnd Hin) as [v Hv]. by rewrite Hv.
  - by rewrite (spread_room_lookup _ _ _ _ _ []).
Qed.

Definition exam_hall : option (gmap string room_config) :=
  Some {[ "R" := mkRoomCfg "R" 6 None None None None None (Some 3%Z) None (Some 2%Z) None ]}.
Definition five_students : list string := ["a"; "b"; "c"; "d"; "e"].
Definition friends_ab : gmap string (gset string) := {[ "a" := {["b"]}; "b" := {["a"]} ]}.

(** C4.  In a room with a positive number of columns whose student list is
    no longer than columns times rows, seat assignment, with or without a
    relationship map, seats every student of the list exactly once, no two
    of them in the same cell or with the same seat number, every x in
    [0, columns) and y in [0, rows), and every seat number equal to the
    row-major index of the cell plus one.  (The rooms of a dict are
    distinct; a room with no students gets no seats.) *)
Theorem seats_unique_and_in_grid db_friend_graph room_assignment metadata room_config
    friend_graph room students :
  NoDup room_assignment.*1 → (room, students) ∈ room_assignment →
  (0 < (room_layout room_config room).1)%Z →
  (Z.of_nat (length students)
     ≤ (room_layout room_config room).1 * (room_layout room_config room).2)%Z →
  let cols := (room_layout room_config room).1 in
  let rows := (room_layout room_config room).2 in
  let room_seats :=
    dd_get room (assign_seats_in_room db_friend_graph room_assignment metadata
                   room_config friend_graph) in
  seat_student_id <$> room_seats ≡ₚ students ∧
  NoDup (seat_cell <$> room_seats) ∧
  NoDup (seat_no <$> room_seats) ∧
  Forall (λ s, (0 ≤ seat_x s < cols)%Z ∧ (0 ≤ seat_y s < rows)%Z ∧
               seat_no s = (seat_y s * cols + seat_x s + 1)%Z) room_seats.
Proof.
  intros Hnd Hin Hc Hlen cols rows. fold cols rows in Hc, Hlen.
  assert (∀ l, seat_student_id <$> l = room_queue metadata students →
               Forall (seat_wf cols rows) l → NoDup (seat_cell <$> l) →
               seat_student_id <$> l ≡ₚ students ∧ NoDup (seat_cell <$> l) ∧
               NoDup (seat_no <$> l) ∧
               Forall (λ s, (0 ≤ seat_x s < cols)%Z ∧ (0 ≤ seat_y s < rows)%Z ∧
                            seat_no s = (seat_y s * cols + seat_x s + 1)%Z) l) as Hgood.
  { intros l Hids Hwf Hcells. split_and!; [| done | |].
    - rewrite Hids. apply queue_Permutation.
    - apply (seat_numbers_NoDup cols rows); [lia | done | done].
    - eapply Forall_impl; [done|]. intros s. by apply seat_wf_bounds. }
  destruct (decide (students = [])) as [->|Hne].
  { simpl. unfold dd_get. rewrite assign_seats_in_room_empty by done. simpl.
    split_and!; [done | constructor | constructor | constructor]. }
  destruct (assign_seats_in_room_lookup db_friend_graph room_assignment metadata
              room_config friend_graph room students Hnd Hin Hne) as [Hpath [v Hsep]].
  simpl. unfold dd_get. rewrite Hpath. destruct (truthy friend_graph).
  - rewrite Hsep. simpl.
    destruct (separated_spec metadata (default db_friend_graph friend_graph) room cols rows
                v students) as [[Hwf Hcells _] Hids].
    apply Hgood; [|done|done].
    etrans; [exact Hids|]. apply take_ge. rewrite length_room_queue. lia.
  - simpl. destruct (spread_seats_within metadata cols rows students Hc Hne Hlen)
      as (Hids & Hwf & Hcells).
    by apply Hgood.
Qed.

Lemma seats_unique_and_in_grid_witness :
  seat_student_id <$> dd_get "R" (assign_seats_in_room ∅ [("R", five_students)] ∅
                                   exam_hall (Some friends_ab))
    ≡ₚ five_students.
Proof.
  refine (proj1 (seats_unique_and_in_grid ∅ [("R", five_students)] ∅ exam_hall
                   (Some friends_ab) "R" five_students _ _ _ _)).
  - apply (bool_decide_unpack _); vm_compute; exact I.
  - left.
  - vm_compute; reflexivity.
  - vm_compute. intros H; discriminate H.
Defined.

(** C9.  A room whose student list is longer than columns times rows gets
    seats for the first columns times rows students of its interleaved
    queue and for no one else, and no error is raised: the students
    beyond that are left out of the room's seats.  On the
    relationship-aware path a student finds no empty cell once that many
    are seated and is skipped; on the spread path only that many positions
    are generated. *)
Theorem excess_students_omitted db_friend_graph room_assignment metadata room_config
    friend_graph room students :
  NoDup room_assignment.*1 → (room, students) ∈ room_assignment →
  ((room_layout room_config room).1 * (room_layout room_config room).2
     < Z.of_nat (length students))%Z →
  let cols := (room_layout room_config room).1 in
  let rows := (room_layout room_config room).2 in
  let room_seats :=
    dd_get room (assign_seats_in_room db_friend_graph room_assignment metadata
                   room_config friend_graph) in
  seat_student_id <$> room_seats
    = take (Z.to_nat (cols * rows)) (room_queue metadata students) ∧
  length room_seats = Z.to_nat (cols * rows) ∧
  (∀ st sid, placing_inv cols rows st → Z.to_nat (cols * rows) ≤ length (seats st) →
     find_non_adjacent_position sid (assigned_positions st)
       (default db_friend_graph friend_graph) cols rows = None ∧
     place_student metadata (default db_friend_graph friend_graph) room cols rows st sid
       = st) ∧
  length (get_spread_positions (Z.of_nat (length (room_queue metadata students))) cols rows)
    = Z.to_nat (cols * rows).
Proof.
  intros Hnd Hin Hlen cols rows. fold cols rows in Hlen. simpl.
  assert (seat_student_id <$>
            dd_get room (assign_seats_in_room db_friend_graph room_assignment metadata
                           room_config friend_graph)
          = take (Z.to_nat (cols * rows)) (room_queue metadata students)) as Hids.
  { destruct (decide (students = [])) as [->|Hne].
    - unfold dd_get. rewrite assign_seats_in_room_empty by done. simpl.
      assert (room_queue metadata [] = []) as -> by reflexivity.
      by rewrite take_nil.
    - destruct (assign_seats_in_room_lookup db_friend_graph room_assignment metadata
                  room_config friend_graph room students Hnd Hin Hne) as [Hpath [v Hsep]].
      unfold dd_get. rewrite Hpath. destruct (truthy friend_graph).
      + rewrite Hsep. simpl. apply separated_spec.
      + simpl. apply spread_seats_over. fold cols rows. lia. }
  split_and!.
  - done.
  - rewrite <- (length_fmap seat_student_id), Hids, length_take, length_room_queue. lia.
  - intros st sid [Hwf Hcells Hmap] Hfull.
    assert (find_non_adjacent_position sid (assigned_positions st)
              (default db_friend_graph friend_graph) cols rows = None) as Hnone.
    { apply find_position_None. rewrite Hmap. by apply (grid_full cols rows). }
    split; [done|]. unfold place_student. by rewrite Hnone.
  - rewrite spread_positions_full by (rewrite length_room_queue; fold cols rows; lia).
    by rewrite length_fmap, length_range.
Qed.

Lemma excess_students_omitted_witness :
  seat_student_id <$> dd_get "R" (assign_seats_in_room ∅ [("R", five_students)] ∅
                                   (Some {[ "R" := mkRoomCfg "R" 4 None None None None None
                                                     (Some 2%Z) None (Some 2%Z) None ]})
                                   (Some friends_ab))
  = ["a"; "b"; "c"; "d"].
Proof.
  refine (proj1 (excess_students_omitted ∅ [("R", five_students)] ∅
                   (Some {[ "R" := mkRoomCfg "R" 4 None None None None None
                                     (Some 2%Z) None (Some 2%Z) None ]})
                   (Some friends_ab) "R" five_students _ _ _)).
  - apply (bool_decide_unpack _); vm_compute; exact I.
  - left.
  - vm_compute; reflexivity.
Defined.

End SeatLayoutProofs.
(* ===================================================================== *)
(** * Relationship-aware placement *)
(* ===================================================================== *)

Module SeparationProofs.
Import Py PyFacts RoomAssignment SeatLayout SeatLayoutProofs.

(** No seat of [l] is in the 8-neighbourhood of the seat of a student
    related to its own. *)
Definition friends_apart (friend_graph : gmap string (gset string)) (l : list Seat)
  : Prop :=
  ∀ s1 s2, s1 ∈ l → s2 ∈ l →
    related friend_graph (seat_student_id s1) (seat_student_id s2) →
    ¬ neighbours (seat_cell s1) (seat_cell s2).

(** Some cell of the grid is free of the seats [before] and away from
    every student of [before] related to [sid]. *)
Definition avoidable (friend_graph : gmap string (gset string)) (cols rows : Z)
    (before : list Seat) (sid : string) : Prop :=
  ∃ idx, (0 ≤ idx < cols * rows)%Z ∧ (cell_of cols idx ∉ seat_cell <$> before) ∧
         ¬ beside_friend friend_graph before (cell_of cols idx) sid.

(** Every seat of [l] is away from the related students seated before it
    whenever that was [avoidable]. *)
Definition greedy (friend_graph : gmap string (gset string)) (cols rows : Z)
    (l : list Seat) : Prop :=
  ∀ i s, l !! i = Some s →
    avoidable friend_graph cols rows (take i l) (seat_student_id s) →
    ¬ beside_friend friend_graph (take i l) (seat_cell s) (seat_student_id s).

(** [s] holds the cell the row-major scan picks for its student when the
    seats [before] are taken: the first free cell that is not next to a
    related student of [before], or, when every free cell is next to one,
    the first free cell; its number is the row-major index plus one. *)
Definition scan_choice (friend_graph : gmap string (gset string)) (cols rows : Z)
    (before : list Seat) (s : Seat) : Prop :=
  let free idx := cell_of cols idx ∉ seat_cell <$> before in
  let beside idx := beside_friend friend_graph before (cell_of cols idx) (seat_student_id s) in
  ∃ idx, (0 ≤ idx < cols * rows)%Z ∧ seat_cell s = cell_of cols idx ∧
         seat_no s = (idx + 1)%Z ∧ free idx ∧
    ((¬ beside idx ∧ ∀ j, (0 ≤ j < idx)%Z → free j → beside j) ∨
     (beside idx ∧ (∀ j, (0 ≤ j < cols * rows)%Z → free j → beside j) ∧
      ∀ j, (0 ≤ j < idx)%Z → ¬ free j)).

(** Every seat of [l] is the choice of the scan after the seats before it. *)
Definition scanned (friend_graph : gmap string (gset string)) (cols rows : Z)
    (l : list Seat) : Prop :=
  ∀ i s, l !! i = Some s → scan_choice friend_graph cols rows (take i l) s.

Definition room_of (columns rows : Z) : option (gmap string room_config) :=
  Some {[ "R" := mkRoomCfg "R" (columns * rows) None None None None None
                   (Some columns) None (Some rows) None ]}.
Definition friends_ac : gmap string (gset string) := {[ "a" := {["c"]}; "c" := {["a"]} ]}.
Definition friends_abcd : gmap string (gset string) :=
  {[ "a" := {["c"; "d"]}; "b" := {["c"; "d"]};
     "c" := {["a"; "b"; "d"]}; "d" := {["a"; "b"; "c"]} ]}.
Definition seat_at (x y : Z) (sid : string) (cols : Z) : Seat :=
  make_seat ∅ sid ((x, y), (y * cols + x + 1)%Z).

(** ** Adjacency *)

Lemma elem_of_deltas (d : Z) : d ∈ [-1; 0; 1]%Z ↔ (-1 ≤ d ≤ 1)%Z.
Proof. rewrite !elem_of_cons, elem_of_nil. lia. Qed.

Lemma neighbours_sym c1 c2 : neighbours c1 c2 → neighbours c2 c1.
Proof. intros (Hne & Hx & Hy). split; [done|]. lia. Qed.

Lemma elem_of_adjacent_positions x y cols rows c :
  c ∈ get_adjacent_positions x y cols rows ↔
  neighbours c (x, y) ∧ (0 ≤ c.1 < cols)%Z ∧ (0 ≤ c.2 < rows)%Z.
Proof.
  unfold get_adjacent_positions, neighbours. destruct c as [nx ny].
  rewrite list_elem_of_bind. split.
  - intros (dx & (dy & Hc & Hdy%elem_of_deltas)%list_elem_of_bind & Hdx%elem_of_deltas).
    case_bool_decide; [by apply elem_of_nil in Hc|].
    case_bool_decide; [|by apply elem_of_nil in Hc].
    apply list_elem_of_singleton in Hc as [= -> ->].
    cbn [fst snd]. split; [|lia]. split; [|lia]. intros [= ? ?]. lia.
  - cbn [fst snd]. intros ((Hne & Hx & Hy) & Hc & Hr). exists (nx - x)%Z.
    split; [|apply elem_of_deltas; lia].
    apply list_elem_of_bind. exists (ny - y)%Z. split; [|apply elem_of_deltas; lia].
    rewrite bool_decide_false.
    + rewrite bool_decide_true by lia. apply list_elem_of_singleton. f_equal; lia.
    + intros [? ?]. apply Hne. f_equal; lia.
Qed.

(** [is_adjacent_to_friend] on the positions of the seats given so far. *)
Lemma is_adjacent_to_friend_spec fg l c sid cols rows :
  (0 < cols)%Z → Forall (seat_wf cols rows) l → NoDup (seat_cell <$> l) →
  is_adjacent_to_friend c.1 c.2 sid (positions_map l) fg cols rows = true ↔
  beside_friend fg l c sid.
Proof.
  intros Hc Hwf Hnd. destruct c as [x y]. cbn [fst snd].
  unfold is_adjacent_to_friend, beside_friend, related. split.
  - destruct (fg !! sid) as [friends|]; [|done].
    intros (adj & Hadj & Hfriend)%existsb_exists.
    apply list_elem_of_In, elem_of_adjacent_positions in Hadj as [Hnb _].
    destruct (positions_map l !! adj) as [other|] eqn:Hother; [|done].
    apply bool_decide_eq_true in Hfriend.
    apply positions_map_Some in Hother as (s & Hs & <- & <-); [|done].
    exists s. split; [done|]. split; [by exists friends|]. by apply neighbours_sym.
  - intros (s & Hs & (friends & -> & Hfriend) & Hnb).
    apply existsb_exists. exists (seat_cell s). split.
    + apply list_elem_of_In, elem_of_adjacent_positions.
      rewrite Forall_forall in Hwf.
      destruct (seat_wf_bounds cols rows s Hc (Hwf s Hs)) as (Hx & Hy & _).
      split; [by apply neighbours_sym|]. done.
    + rewrite (proj2 (positions_map_Some l (seat_cell s) (seat_student_id s) Hnd))
        by (by exists s).
      by apply bool_decide_eq_true.
Qed.

(** A seat is not beside itself: the check made after the student is put
    in [assigned_positions] is the check on the seats given before. *)
Lemma beside_friend_snoc fg l s sid :
  beside_friend fg (l ++ [s]) (seat_cell s) sid ↔ beside_friend fg l (seat_cell s) sid.
Proof.
  unfold beside_friend. split.
  - intros (s' & [Hs' | ->%list_elem_of_singleton]%elem_of_app & Hrel & Hnb).
    + by exists s'.
    + by destruct Hnb as [Hne _].
  - intros (s' & Hs' & Hrel & Hnb). exists s'. split; [|done].
    apply elem_of_app. by left.
Qed.

(** ** The scan *)

Lemma lookup_range_index n (j : nat) idx :
  range n !! j = Some idx ↔ idx = Z.of_nat j ∧ (Z.of_nat j < n)%Z.
Proof.
  unfold range. rewrite list_lookup_fmap, fmap_Some. split.
  - intros (k & [-> ?]%lookup_seq & ->). simpl. lia.
  - intros [-> ?]. exists j. split; [|done]. apply lookup_seq. lia.
Qed.

(** The position found is the first in row-major order: of the free cells
    away from friends, or, when there is none, of the free cells. *)
Lemma find_position_scan (sid : string) (assigned : gmap (Z * Z) string) fg cols rows pos :
  let free idx := assigned !! cell_of cols idx = None in
  let beside idx :=
    is_adjacent_to_friend (cell_of cols idx).1 (cell_of cols idx).2 sid assigned
      fg cols rows = true in
  find_non_adjacent_position sid assigned fg cols rows = Some pos →
  ∃ idx, (0 ≤ idx < cols * rows)%Z ∧ pos = (cell_of cols idx, (idx + 1)%Z) ∧ free idx ∧
    ((¬ beside idx ∧ ∀ j, (0 ≤ j < idx)%Z → free j → beside j) ∨
     (beside idx ∧ (∀ j, (0 ≤ j < cols * rows)%Z → free j → beside j) ∧
      ∀ j, (0 ≤ j < idx)%Z → ¬ free j)).
Proof.
  intros free beside. unfold find_non_adjacent_position.
  destruct (list_find _ _) as [[i idx]|] eqn:H1.
  - intros [= <-].
    apply list_find_Some in H1 as ([-> Hi]%lookup_range_index & [Hfree Hadj] & Hfirst).
    exists (Z.of_nat i). split; [lia|]. split; [done|]. split; [done|].
    left. split; [unfold beside; by rewrite Hadj|].
    intros j Hj Hjfree. unfold beside. apply not_false_iff_true. intros Hjadj.
    apply (Hfirst (Z.to_nat j) j); [apply lookup_range_index; lia | lia | done].
  - apply list_find_None in H1. rewrite Forall_forall in H1.
    assert (∀ j, (0 ≤ j < cols * rows)%Z → free j → beside j) as Hall.
    { intros j Hj Hjfree. unfold beside. apply not_false_iff_true. intros Hjadj.
      apply (H1 j); [by apply elem_of_range | done]. }
    destruct (list_find _ _) as [[i idx]|] eqn:H2; [|done].
    intros [= <-].
    apply list_find_Some in H2 as ([-> Hi]%lookup_range_index & Hfree & Hfirst).
    exists (Z.of_nat i). split; [lia|]. split; [done|]. split; [done|].
    right. split; [apply Hall; [lia | done]|]. split; [done|].
    intros j Hj Hjfree.
    apply (Hfirst (Z.to_nat j) j); [apply lookup_range_index; lia | lia | done].
Qed.

(** ** One student *)

Lemma place_student_scan metadata fg room cols rows st sid s :
  (0 < cols)%Z → placing_inv cols rows st →
  seats (place_student metadata fg room cols rows st sid) = seats st ++ [s] →
  seat_student_id s = sid ∧ scan_choice fg cols rows (seats st) s.
Proof.
  intros Hc [Hwf Hnd Hmap]. unfold place_student.
  destruct (find_non_adjacent_position _ _ _ _ _) as [pos|] eqn:Hfind.
  2:{ intros Hst. apply (f_equal length) in Hst. rewrite length_app in Hst.
      simpl in Hst. lia. }
  simpl. intros [_ <-]%app_inj_tail.
  apply find_position_scan in Hfind as (idx & Hidx & -> & Hfree & Hfirst).
  split; [done|]. rewrite Hmap in Hfree, Hfirst.
  assert (∀ j, positions_map (seats st) !! cell_of cols j = None ↔
               cell_of cols j ∉ seat_cell <$> seats st) as Hfree_iff
    by (intros j; apply positions_map_None).
  assert (∀ j, is_adjacent_to_friend (cell_of cols j).1 (cell_of cols j).2 sid
                 (positions_map (seats st)) fg cols rows = true ↔
               beside_friend fg (seats st) (cell_of cols j) sid) as Hbeside_iff
    by (intros j; by apply is_adjacent_to_friend_spec).
  exists idx. cbn [seat_student_id make_seat].
  split; [done|]. split; [done|]. split; [done|]. split; [by apply Hfree_iff|].
  destruct Hfirst as [[Haway Hbefore]|(Hnext & Hall & Hbefore)].
  - left. split; [by rewrite <- Hbeside_iff|].
    intros j Hj Hjfree. apply Hbeside_iff, Hbefore; [done|]. by apply Hfree_iff.
  - right. split; [by apply Hbeside_iff|]. split.
    + intros j Hj Hjfree. apply Hbeside_iff, Hall; [done|]. by apply Hfree_iff.
    + intros j Hj Hjfree. apply (Hbefore j Hj). by apply Hfree_iff.
Qed.

Lemma place_student_greedy metadata fg room cols rows st sid s :
  (0 < cols)%Z → placing_inv cols rows st →
  seats (place_student metadata fg room cols rows st sid) = seats st ++ [s] →
  seat_student_id s = sid ∧
  (avoidable fg cols rows (seats st) sid → ¬ beside_friend fg (seats st) (seat_cell s) sid) ∧
  ((beside_friend fg (seats st) (seat_cell s) sid ∧
    adjacency_violations (place_student metadata fg room cols rows st sid)
    = adjacency_violations st ++ [mkViolation room sid (seat_cell s)]) ∨
   (¬ beside_friend fg (seats st) (seat_cell s) sid ∧
    adjacency_violations (place_student metadata fg room cols rows st sid)
    = adjacency_violations st)).
Proof.
  intros Hc Hinv.
  destruct (place_student_step metadata fg room cols rows st sid Hinv) as [Hinv' _].
  revert Hinv'. destruct Hinv as [Hwf Hnd Hmap]. unfold place_student.
  destruct (find_non_adjacent_position _ _ _ _ _) as [pos|] eqn:Hfind.
  2:{ intros _ Hst. apply (f_equal length) in Hst. rewrite length_app in Hst.
      simpl in Hst. lia. }
  simpl. intros [Hwf' Hnd' Hmap'] [_ <-]%app_inj_tail. simpl in *.
  apply find_position_Some in Hfind as (idx & Hidx & -> & Hfree & Hfirst).
  set (s := make_seat metadata sid (cell_of cols idx, (idx + 1)%Z)) in *.
  assert (seat_cell s = cell_of cols idx) as Hcell by done.
  rewrite Hmap in Hfree, Hfirst.
  split; [done|]. split.
  - intros (j & Hj & Hjfree & Hjaway).
    rewrite <- (is_adjacent_to_friend_spec fg (seats st) _ sid cols rows Hc Hwf Hnd).
    rewrite Hcell, Hfirst; [done|].
    exists j. split; [done|]. split; [by apply positions_map_None|].
    apply not_true_is_false. intros Hadj. apply Hjaway.
    by apply (is_adjacent_to_friend_spec fg (seats st) _ sid cols rows Hc Hwf Hnd).
  - rewrite Hmap'.
    pose proof (is_adjacent_to_friend_spec fg _ (seat_cell s) sid cols rows Hc Hwf' Hnd')
      as Hspec.
    rewrite (beside_friend_snoc fg (seats st) s sid) in Hspec.
    destruct (is_adjacent_to_friend _ _ _ (positions_map (seats st ++ [s])) _ _ _)
      eqn:Hadj.
    + left. split; [|done]. by apply Hspec.
    + right. split; [|done]. intros Hbeside. apply Hspec in Hbeside.
      discriminate Hbeside.
Qed.

(** ** The loop of a room *)

Lemma greedy_snoc fg cols rows l s :
  greedy fg cols rows l →
  (avoidable fg cols rows l (seat_student_id s) →
   ¬ beside_friend fg l (seat_cell s) (seat_student_id s)) →
  greedy fg cols rows (l ++ [s]).
Proof.
  intros Hl Hs i s0 Hi.
  destruct (decide (i < length l)) as [Hlt|Hge].
  - rewrite lookup_app_l in Hi by done. rewrite take_app_le by lia. by apply Hl.
  - pose proof (lookup_lt_Some _ _ _ Hi) as Hlen. rewrite length_app in Hlen.
    simpl in Hlen. assert (i = length l) as -> by lia.
    rewrite take_app_length. rewrite lookup_app_r, Nat.sub_diag in Hi by lia.
    injection Hi as <-. done.
Qed.

Lemma place_loop_greedy metadata fg room cols rows queue st :
  (0 < cols)%Z → placing_inv cols rows st → greedy fg cols rows (seats st) →
  greedy fg cols rows (seats (foldl (place_student metadata fg room cols rows) st queue)).
Proof.
  intros Hc. revert st. induction queue as [|sid queue IH]; intros st Hinv Hgreedy; [done|].
  simpl. destruct (place_student_step metadata fg room cols rows st sid Hinv)
    as (Hinv' & Hroom & Hfull).
  apply IH; [done|].
  destruct (decide (length (seats st) < Z.to_nat (cols * rows))) as [Hlt|Hge].
  - destruct (Hroom Hlt) as [pos Hpos]. rewrite Hpos.
    destruct (place_student_greedy metadata fg room cols rows st sid _ Hc Hinv Hpos)
      as (Hsid & Haway & _).
    apply greedy_snoc; [done|]. by rewrite Hsid.
  - rewrite Hfull by lia. done.
Qed.

Lemma scanned_snoc fg cols rows l s :
  scanned fg cols rows l → scan_choice fg cols rows l s → scanned fg cols rows (l ++ [s]).
Proof.
  intros Hl Hs i s0 Hi.
  destruct (decide (i < length l)) as [Hlt|Hge].
  - rewrite lookup_app_l in Hi by done. rewrite take_app_le by lia. by apply Hl.
  - pose proof (lookup_lt_Some _ _ _ Hi) as Hlen. rewrite length_app in Hlen.
    simpl in Hlen. assert (i = length l) as -> by lia.
    rewrite take_app_length. rewrite lookup_app_r, Nat.sub_diag in Hi by lia.
    injection Hi as <-. done.
Qed.

Lemma place_loop_scanned metadata fg room cols rows queue st :
  (0 < cols)%Z → placing_inv cols rows st → scanned fg cols rows (seats st) →
  scanned fg cols rows (seats (foldl (place_student metadata fg room cols rows) st queue)).
Proof.
  intros Hc. revert st. induction queue as [|sid queue IH]; intros st Hinv Hscanned; [done|].
  simpl. destruct (place_student_step metadata fg room cols rows st sid Hinv)
    as (Hinv' & Hroom & Hfull).
  apply IH; [done|].
  destruct (decide (length (seats st) < Z.to_nat (cols * rows))) as [Hlt|Hge].
  - destruct (Hroom Hlt) as [pos Hpos]. rewrite Hpos.
    destruct (place_student_scan metadata fg room cols rows st sid _ Hc Hinv Hpos)
      as [_ Hscan].
    by apply scanned_snoc.
  - rewrite Hfull by lia. done.
Qed.

Lemma separated_scanned metadata fg room cols rows v students :
  (0 < cols)%Z →
  scanned fg cols rows (seats (separated metadata fg room cols rows v students)).
Proof.
  intros Hc. apply place_loop_scanned; [done | apply placing_inv_init |].
  by intros i s ?.
Qed.

Lemma separated_greedy metadata fg room cols rows v students :
  (0 < cols)%Z →
  greedy fg cols rows (seats (separated metadata fg room cols rows v students)).
Proof.
  intros Hc. apply place_loop_greedy; [done | apply placing_inv_init |].
  by intros i s ?.
Qed.

(** With a symmetric relationship map, seats given greedily keep every
    related pair apart as long as every student could be kept away from
    the related students seated before. *)
Lemma greedy_friends_apart fg cols rows l :
  (∀ a b, related fg a b → related fg b a) →
  greedy fg cols rows l →
  (∀ i s, l !! i = Some s → avoidable fg cols rows (take i l) (seat_student_id s)) →
  friends_apart fg l.
Proof.
  intros Hsym Hgreedy Hroom s1 s2 [i1 H1]%list_elem_of_lookup [i2 H2]%list_elem_of_lookup
    Hrel Hnb.
  destruct (decide (i1 = i2)) as [->|Hne].
  { rewrite H1 in H2. injection H2 as ->. by destruct Hnb as [? _]. }
  destruct (decide (i2 < i1)) as [Hlt|Hge].
  - apply (Hgreedy i1 s1 H1 (Hroom i1 s1 H1)).
    exists s2. split; [|done]. apply elem_of_take. exists i2. done.
  - apply (Hgreedy i2 s2 H2 (Hroom i2 s2 H2)).
    exists s1. split; [apply elem_of_take; exists i1; split; [done|lia]|].
    split; [by apply Hsym | by apply neighbours_sym].
Qed.

(** ** Deciding the examples *)

#[local] Instance related_dec fg a b : Decision (related fg a b).
Proof.
  unfold related. destruct (fg !! a) as [friends|] eqn:Ha.
  - destruct (decide (b ∈ friends)) as [Hb|Hb].
    + left. by exists friends.
    + right. intros (friends' & [= <-] & ?). done.
  - right. by intros (friends' & [=] & ?).
Defined.

#[local] Instance neighbours_dec c1 c2 : Decision (neighbours c1 c2).
Proof. unfold neighbours. apply _. Defined.

Lemma friends_apart_Forall fg l :
  friends_apart fg l ↔
  Forall (λ s1, Forall (λ s2, related fg (seat_student_id s1) (seat_student_id s2) →
                              ¬ neighbours (seat_cell s1) (seat_cell s2)) l) l.
Proof.
  unfold friends_apart. rewrite Forall_forall. setoid_rewrite Forall_forall.
  split; intros H s1; [intros H1 s2 H2 | intros s2 H1 H2]; by apply H.
Qed.

Lemma friends_ab_symmetric a b : related friends_ab a b → related friends_ab b a.
Proof.
  unfold related, friends_ab. intros (friends & Ha & Hb).
  apply lookup_insert_Some in Ha as [[<- <-]|[_ [<- <-]%lookup_singleton_Some]];
    apply elem_of_singleton in Hb as ->.
  - exists {["a"]}. split; [reflexivity | by apply elem_of_singleton].
  - exists {["b"]}. split; [reflexivity | by apply elem_of_singleton].
Qed.

(** C7, as stated, fails.  Two related students in a room of two columns
    and two rows fill half of it (the spacing factor is 2), the map is
    symmetric and not empty, and they are seated side by side: every cell
    of that grid is next to every other.  In a room of five columns and
    two rows, four students out of ten seats, the fourth student is
    seated next to two related students although another arrangement
    keeps every related pair apart. *)
Lemma related_pair_adjacent_at_half_occupancy :
  let room_seats :=
    dd_get "R" (assign_seats_in_room ∅ [("R", ["a"; "b"])] ∅ (room_of 2 2)
                  (Some friends_ab)) in
  let wide_seats :=
    dd_get "R" (assign_seats_in_room ∅ [("R", ["a"; "b"; "c"; "d"])] ∅ (room_of 5 2)
                  (Some friends_abcd)) in
  truthy (Some friends_ab) = true ∧
  (∀ a b, related friends_ab a b → related friends_ab b a) ∧
  (2 ≤ (2 * 2) `div` Z.of_nat (length ["a"; "b"]))%Z ∧
  room_seats = [seat_at 0 0 "a" 2; seat_at 1 0 "b" 2] ∧
  ¬ friends_apart friends_ab room_seats ∧
  (2 ≤ (5 * 2) `div` Z.of_nat (length ["a"; "b"; "c"; "d"]))%Z ∧
  wide_seats = [seat_at 0 0 "a" 5; seat_at 1 0 "b" 5; seat_at 3 0 "c" 5; seat_at 2 0 "d" 5] ∧
  ¬ friends_apart friends_abcd wide_seats ∧
  friends_apart friends_abcd
    [seat_at 0 0 "a" 5; seat_at 0 1 "b" 5; seat_at 2 0 "c" 5; seat_at 4 0 "d" 5].
Proof.
  assert (dd_get "R" (assign_seats_in_room ∅ [("R", ["a"; "b"])] ∅ (room_of 2 2)
                        (Some friends_ab))
          = [seat_at 0 0 "a" 2; seat_at 1 0 "b" 2]) as Hsmall by (vm_compute; reflexivity).
  assert (dd_get "R" (assign_seats_in_room ∅ [("R", ["a"; "b"; "c"; "d"])] ∅ (room_of 5 2)
                        (Some friends_abcd))
          = [seat_at 0 0 "a" 5; seat_at 1 0 "b" 5; seat_at 3 0 "c" 5; seat_at 2 0 "d" 5])
    as Hwide by (vm_compute; reflexivity).
  cbv zeta. rewrite Hsmall, Hwide.
  split; [vm_compute; reflexivity|]. split; [exact friends_ab_symmetric|].
  split; [vm_compute; intros H; discriminate H|]. split; [reflexivity|].
  split; [rewrite friends_apart_Forall; apply (bool_decide_unpack _); vm_compute; exact I|].
  split; [vm_compute; intros H; discriminate H|]. split; [reflexivity|].
  split; rewrite friends_apart_Forall; apply (bool_decide_unpack _); vm_compute; exact I.
Qed.

(** C7, amended.  On the relationship-aware path, in a room with a
    positive number of columns and no more students than columns times
    rows, every student of the room is seated, in the order of the room's
    interleaved queue, and each in turn takes the first free cell, in
    row-major order, that is not in the 8-neighbourhood of a related
    student seated earlier, or, when every free cell is next to such a
    student, the first free cell.  So a student is seated next to a
    related student seated earlier only if, when their turn came, every
    free cell of the grid was next to such a student.  With a symmetric
    map, no related pair is seated within each other's 8-neighbourhood
    provided every student, at their turn, had a free cell away from the
    related students already seated. *)
Theorem separation_is_greedy db_friend_graph room_assignment metadata room_config
    friend_graph room students :
  NoDup room_assignment.*1 → (room, students) ∈ room_assignment →
  truthy friend_graph = true →
  (0 < (room_layout room_config room).1)%Z →
  (Z.of_nat (length students)
     ≤ (room_layout room_config room).1 * (room_layout room_config room).2)%Z →
  let cols := (room_layout room_config room).1 in
  let rows := (room_layout room_config room).2 in
  let fg := default db_friend_graph friend_graph in
  let room_seats :=
    dd_get room (assign_seats_in_room db_friend_graph room_assignment metadata
                   room_config friend_graph) in
  seat_student_id <$> room_seats ≡ₚ students ∧
  seat_student_id <$> room_seats = interleave_groups (year_groups metadata students).*2 ∧
  (∀ i s, room_seats !! i = Some s → scan_choice fg cols rows (take i room_seats) s) ∧
  (∀ i s, room_seats !! i = Some s →
     avoidable fg cols rows (take i room_seats) (seat_student_id s) →
     ¬ beside_friend fg (take i room_seats) (seat_cell s) (seat_student_id s)) ∧
  ((∀ a b, related fg a b → related fg b a) →
   (∀ i s, room_seats !! i = Some s →
      avoidable fg cols rows (take i room_seats) (seat_student_id s)) →
   friends_apart fg room_seats).
Proof.
  intros Hnd Hin Htruthy Hc Hlen cols rows fg room_seats.
  fold cols rows in Hc, Hlen.
  assert (seat_student_id <$> room_seats
          = interleave_groups (year_groups metadata students).*2 ∧
          scanned fg cols rows room_seats ∧ greedy fg cols rows room_seats)
    as (Hids & Hscanned & Hgreedy).
  { subst room_seats. destruct (decide (students = [])) as [->|Hne].
    { unfold dd_get. rewrite assign_seats_in_room_empty by done. simpl.
      split; [done|]. split; by intros i s ?. }
    destruct (assign_seats_in_room_lookup db_friend_graph room_assignment metadata
                room_config friend_graph room students Hnd Hin Hne) as [Hpath [v Hsep]].
    unfold dd_get. rewrite Hpath, Htruthy, Hsep. simpl. split; [|split].
    - destruct (separated_spec metadata fg room cols rows v students) as [_ Hids].
      etrans; [exact Hids|]. apply take_ge.
      pose proof (length_room_queue metadata students) as Hq.
      unfold room_queue in Hq |- *. lia.
    - by apply separated_scanned.
    - by apply separated_greedy. }
  split; [rewrite Hids; apply queue_Permutation|]. split; [exact Hids|].
  split; [exact Hscanned|]. split; [exact Hgreedy|].
  intros Hsym Hroom. by apply (greedy_friends_apart fg cols rows).
Qed.

Lemma separation_is_greedy_witness :
  seat_student_id <$> dd_get "R" (assign_seats_in_room ∅ [("R", ["a"; "b"; "c"; "d"])] ∅
                                   (room_of 5 2) (Some friends_abcd))
    ≡ₚ ["a"; "b"; "c"; "d"].
Proof.
  refine (proj1 (separation_is_greedy ∅ [("R", ["a"; "b"; "c"; "d"])] ∅ (room_of 5 2)
                   (Some friends_abcd) "R" ["a"; "b"; "c"; "d"] _ _ _ _ _)).
  - apply (bool_decide_unpack _); vm_compute; exact I.
  - left.
  - vm_compute; reflexivity.
  - vm_compute; reflexivity.
  - vm_compute. intros H; discriminate H.
Defined.

(** C5.  Room R has two columns and one row and holds a and b, who are
    related.  b is seated by the fallback next to a, and when the function
    reaches its [return] the list [adjacency_violations] holds the record
    (R, b, (1, 0)); the function returns the seating alone, which is the
    very seating it returns for a map under which b sits next to no related
    student and the list is empty. *)
Theorem adjacency_violations_not_returned :
  let room_assignment := [("R", ["a"; "b"])] in
  separation_loop ∅ (room_of 2 1) friends_ab room_assignment
    = ([("R", [seat_at 0 0 "a" 2; seat_at 1 0 "b" 2])], [mkViolation "R" "b" (1, 0)%Z]) ∧
  separation_loop ∅ (room_of 2 1) friends_ac room_assignment
    = ([("R", [seat_at 0 0 "a" 2; seat_at 1 0 "b" 2])], []) ∧
  assign_seats_in_room ∅ room_assignment ∅ (room_of 2 1) (Some friends_ab)
    = [("R", [seat_at 0 0 "a" 2; seat_at 1 0 "b" 2])] ∧
  assign_seats_in_room ∅ room_assignment ∅ (room_of 2 1) (Some friends_ab)
    = assign_seats_in_room ∅ room_assignment ∅ (room_of 2 1) (Some friends_ac).
Proof. split_and!; vm_compute; reflexivity. Qed.

End SeparationProofs.
(* ===================================================================== *)
(** * Reproducibility of the pipeline *)
(* ===================================================================== *)

Module PipelineProofs.
Import Py PyFacts ConflictGraph ConflictGraphProofs RoomAssignment RoomAssignmentProofs.
Import SeatLayout Pipeline.

(** The pair [p] passes the membership test of the friend loop and joins
    [a] and [b]. *)
Definition friend_joins (student_ids : gset string) (a b : string)
    (p : string * string) : bool :=
  bool_decide (p.1 ∈ student_ids) && bool_decide (p.2 ∈ student_ids) &&
  joins a b (p.1, p.2, 0%Z).

Definition slot_roster : list Row :=
  [mkRow "a" "Mon" "9" "A" 1 "CS"; mkRow "b" "Mon" "9" "B" 2 "EE";
   mkRow "c" "Tue" "9" "A" 1 "CS"; mkRow "d" "Tue" "9" "B" 2 "EE"].

Definition main_hall : room_config :=
  mkRoomCfg "Main" 6 None None None None None (Some 3%Z) None (Some 2%Z) None.

(** ** Graphs the colouring cannot tell apart *)

Lemma graph_equiv_refl g : graph_equiv g g.
Proof. by split. Qed.

Lemma graph_equiv_trans g1 g2 g3 :
  graph_equiv g1 g2 → graph_equiv g2 g3 → graph_equiv g1 g3.
Proof. intros [Hn1 He1] [Hn2 He2]. split; [congruence|]. intros a b. by rewrite He1. Qed.

Lemma nodes_add_node_equiv g1 g2 n :
  nodes g1 = nodes g2 → nodes (add_node g1 n) = nodes (add_node g2 n).
Proof. intros Hn. unfold add_node. rewrite Hn. by case_bool_decide; simpl; rewrite ?Hn. Qed.

Lemma graph_equiv_add_edge g1 g2 u v w :
  graph_equiv g1 g2 → graph_equiv (add_edge g1 u v w) (add_edge g2 u v w).
Proof.
  intros [Hn He]. split.
  - rewrite !nodes_add_edge. by do 2 apply nodes_add_node_equiv.
  - intros a b. by rewrite !has_edge_add_edge, He.
Qed.

Lemma graph_equiv_foldl {A} (f : Graph → A → Graph) l g1 g2 :
  (∀ g1 g2 x, graph_equiv g1 g2 → graph_equiv (f g1 x) (f g2 x)) →
  graph_equiv g1 g2 → graph_equiv (foldl f g1 l) (foldl f g2 l).
Proof.
  intros Hf. revert g1 g2. induction l as [|x l IH]; intros g1 g2 Heq; [done|].
  simpl. by apply IH, Hf.
Qed.

Lemma graph_equiv_add_section_edges students g1 g2 :
  graph_equiv g1 g2 →
  graph_equiv (add_section_edges students g1) (add_section_edges students g2).
Proof.
  revert g1 g2. induction students as [|s1 rest IH]; intros g1 g2 Heq; [done|].
  simpl. apply IH. apply graph_equiv_foldl; [|done].
  intros h1 h2 s2 Hh. rewrite (proj2 Hh s1 s2).
  destruct (has_edge h2 s1 s2); [done|]. by apply graph_equiv_add_edge.
Qed.

(** ** The friend loop *)

Lemma has_edge_joins g a b u v w :
  joins a b (u, v, w) = true → has_edge g a b = has_edge g u v.
Proof.
  unfold joins. intros [[<- <-]|[<- <-]]%bool_decide_eq_true; simpl; [done|].
  apply has_edge_sym.
Qed.

Lemma has_edge_add_friend_edge ids g p a b :
  has_edge (add_friend_edge ids g p) a b = has_edge g a b || friend_joins ids a b p.
Proof.
  unfold add_friend_edge, friend_joins.
  destruct (bool_decide (p.1 ∈ ids) && bool_decide (p.2 ∈ ids)); simpl;
    [|by rewrite orb_false_r].
  destruct (has_edge g p.1 p.2) eqn:Hhas.
  - rewrite has_edge_add_weight.
    destruct (joins a b (p.1, p.2, 0%Z)) eqn:Hj; [|by rewrite orb_false_r].
    by rewrite (has_edge_joins g a b _ _ _ Hj), Hhas.
  - by rewrite has_edge_add_edge.
Qed.

Lemma nodes_add_friend_edge ids g p :
  (∀ x, x ∈ ids → x ∈ nodes g) → nodes (add_friend_edge ids g p) = nodes g.
Proof.
  intros Hids. unfold add_friend_edge.
  destruct (bool_decide (p.1 ∈ ids) && bool_decide (p.2 ∈ ids)) eqn:Hin; [|done].
  apply andb_true_iff in Hin as [H1%bool_decide_eq_true H2%bool_decide_eq_true].
  destruct (has_edge g p.1 p.2); [done|].
  rewrite nodes_add_edge, (add_node_present g) by auto. rewrite add_node_present; auto.
Qed.

Lemma friend_loop_spec ids friend_pairs g :
  (∀ x, x ∈ ids → x ∈ nodes g) →
  nodes (foldl (add_friend_edge ids) g friend_pairs) = nodes g ∧
  ∀ a b, has_edge (foldl (add_friend_edge ids) g friend_pairs) a b
         = has_edge g a b || existsb (friend_joins ids a b) friend_pairs.
Proof.
  revert g. induction friend_pairs as [|p l IH]; intros g Hids; simpl.
  - split; [done|]. intros a b. by rewrite orb_false_r.
  - destruct (IH (add_friend_edge ids g p)) as [Hn He].
    { by rewrite nodes_add_friend_edge. }
    split; [by rewrite Hn, nodes_add_friend_edge|].
    intros a b. by rewrite He, has_edge_add_friend_edge, orb_assoc.
Qed.

Lemma existsb_Permutation {A} (f : A → bool) l1 l2 :
  l1 ≡ₚ l2 → existsb f l1 = existsb f l2.
Proof.
  induction 1 as [|x l1 l2 _ IH|x y l|l1 l2 l3 _ IH1 _ IH2]; simpl.
  - done.
  - by rewrite IH.
  - by rewrite !orb_assoc, (orb_comm (f y)).
  - congruence.
Qed.

(** The friend loop yields the same nodes and the same edges whatever the
    order in which the set yields its pairs. *)
Lemma friend_loop_order ids fp1 fp2 g :
  (∀ x, x ∈ ids → x ∈ nodes g) → fp1 ≡ₚ fp2 →
  graph_equiv (foldl (add_friend_edge ids) g fp1) (foldl (add_friend_edge ids) g fp2).
Proof.
  intros Hids Hperm.
  destruct (friend_loop_spec ids fp1 g Hids) as [Hn1 He1].
  destruct (friend_loop_spec ids fp2 g Hids) as [Hn2 He2].
  split; [congruence|]. intros a b.
  by rewrite He1, He2, (existsb_Permutation _ fp1 fp2).
Qed.

Lemma build_enhanced_conflict_graph_order db_pairs1 db_pairs2 df fp1 fp2 section :
  default db_pairs1 fp1 ≡ₚ default db_pairs2 fp2 →
  graph_equiv (build_enhanced_conflict_graph db_pairs1 df fp1 section)
              (build_enhanced_conflict_graph db_pairs2 df fp2 section).
Proof.
  intros Hperm. unfold build_enhanced_conflict_graph.
  destruct (add_nodes_grows (StudentID <$> df) empty_graph wf_empty_graph)
    as (Hwf0 & _ & Hall).
  destruct (add_slot_edges_grows 10 df _ Hwf0) as [_ [Hn1 _]].
  set (g1 := add_slot_edges 10 df (foldl add_node empty_graph (StudentID <$> df))) in *.
  assert (graph_equiv
            (foldl (add_friend_edge (list_to_set (StudentID <$> df))) g1
               (default db_pairs1 fp1))
            (foldl (add_friend_edge (list_to_set (StudentID <$> df))) g1
               (default db_pairs2 fp2))) as Hfriends.
  { apply friend_loop_order; [|done].
    intros x Hx%elem_of_list_to_set. by apply Hn1, Hall. }
  destruct section; [|done].
  apply graph_equiv_foldl; [|done].
  intros h1 h2 students Hh. case_bool_decide; [|done].
  by apply graph_equiv_add_section_edges.
Qed.

(** ** DSatur on such graphs *)

Lemma degree_equiv g1 g2 v : graph_equiv g1 g2 → degree g1 v = degree g2 v.
Proof.
  intros [_ He]. unfold degree.
  assert (neighbors g1 v ≡ₚ neighbors g2 v) as Hperm.
  { apply NoDup_Permutation; [apply NoDup_neighbors | apply NoDup_neighbors |].
    intros u. by rewrite !elem_of_neighbors, He. }
  rewrite (Permutation_length Hperm).
  by rewrite (bool_decide_ext _ (v ∈ neighbors g2 v)) by (by rewrite Hperm).
Qed.

Lemma used_colors_equiv g1 g2 colors v :
  graph_equiv g1 g2 → used_colors g1 colors v = used_colors g2 colors v.
Proof.
  intros [_ He]. apply set_eq. intros c. rewrite !elem_of_used_colors.
  by setoid_rewrite He.
Qed.

Lemma update_saturation_equiv g1 g2 colors sat :
  graph_equiv g1 g2 → update_saturation g1 colors sat = update_saturation g2 colors sat.
Proof.
  intros Heq. unfold update_saturation. rewrite <- (proj1 Heq).
  generalize (nodes g1). intros l. revert sat.
  induction l as [|node l IH]; intros sat; [done|].
  simpl. by rewrite IH, (used_colors_equiv g1 g2).
Qed.

Lemma max_by_ext {A} (gt1 gt2 : A → A → bool) l :
  (∀ x y, gt1 x y = gt2 x y) → max_by gt1 l = max_by gt2 l.
Proof.
  intros Hgt. destruct l as [|x l]; [done|]. simpl. f_equal. revert x.
  induction l as [|y l IH]; intros x; [done|]. simpl. by rewrite Hgt, IH.
Qed.

Lemma dsatur_loop_equiv g1 g2 fuel colors sat :
  graph_equiv g1 g2 → dsatur_loop g1 fuel colors sat = dsatur_loop g2 fuel colors sat.
Proof.
  intros Heq. revert colors sat.
  induction fuel as [|fuel IH]; intros colors sat; [done|].
  simpl. rewrite <- (proj1 Heq). case_bool_decide; [|done].
  rewrite (update_saturation_equiv g1 g2) by done.
  rewrite (max_by_ext (sat_key_gt g1 _) (sat_key_gt g2 (update_saturation g2 colors sat))).
  2:{ intros x y. unfold sat_key_gt. by rewrite !(degree_equiv g1 g2). }
  destruct (max_by _ _) as [next|]; [|done].
  by rewrite IH, (used_colors_equiv g1 g2).
Qed.

Lemma dsatur_coloring_equiv g1 g2 :
  graph_equiv g1 g2 → dsatur_coloring g1 = dsatur_coloring g2.
Proof.
  intros Heq. unfold dsatur_coloring, dsatur_from. rewrite <- (proj1 Heq).
  rewrite (max_by_ext _ (λ x y, bool_decide (degree g2 y < degree g2 x))).
  2:{ intros x y. by rewrite !(degree_equiv g1 g2). }
  destruct (max_by _ _); [|done]. by apply dsatur_loop_equiv.
Qed.

Lemma get_colored_groups_order db_pairs1 db_pairs2 df fp1 fp2 friends section :
  default db_pairs1 fp1 ≡ₚ default db_pairs2 fp2 →
  get_colored_groups db_pairs1 df fp1 friends section
  = get_colored_groups db_pairs2 df fp2 friends section.
Proof.
  intros Hperm. unfold get_colored_groups.
  destruct (friends || section); [|done]. f_equal. apply dsatur_coloring_equiv.
  destruct friends; by apply build_enhanced_conflict_graph_order.
Qed.

(** C8.  The seating the three stages produce is a function of their
    inputs, and of the pairs of [friend_pairs] (or, when the colouring
    fetches them, of the database) only as a set: two runs of colouring,
    room assignment and seat placement on the same roster, metadata,
    rooms, flags and relationship map whose pair sets yield the same
    pairs, in the same or in any other iteration order, end in the same
    outcome, the same seating or the same error.  [run] is the three
    calls in the order of [process_seating_plan] of app.py, the colouring
    being given the roster. *)
Theorem seating_pipeline_reproducible db_pairs1 db_pairs2 db_friend_graph (df : list Row)
    friend_pairs1 friend_pairs2 (enable_friend_separation enable_section_separation : bool)
    student_metadata (current_rooms_config : list room_config) friend_graph :
  default db_pairs1 friend_pairs1 ≡ₚ default db_pairs2 friend_pairs2 →
  let run (db_pairs : list (string * string)) friend_pairs
        : outcome exn (list (string * list Seat)) :=
    let colored_groups :=
      get_colored_groups db_pairs df friend_pairs enable_friend_separation
        enable_section_separation in
    match assign_rooms_to_groups colored_groups student_metadata current_rooms_config with
    | Raised e => Raised e
    | Returned room_assignments =>
        Returned (assign_seats_in_room db_friend_graph room_assignments student_metadata
                    (Some (room_config_dict current_rooms_config)) friend_graph)
    end in
  run db_pairs1 friend_pairs1 = run db_pairs2 friend_pairs2.
Proof.
  intros Hperm. cbv beta zeta.
  by rewrite (get_colored_groups_order db_pairs1 db_pairs2 df friend_pairs1 friend_pairs2).
Qed.

Lemma seating_pipeline_reproducible_witness :
  match assign_rooms_to_groups
          (get_colored_groups [] slot_roster (Some [("a", "c"); ("b", "d")]) true true)
          four_students [main_hall] with
  | Raised e => Raised e
  | Returned room_assignments =>
      Returned (assign_seats_in_room ∅ room_assignments four_students
                  (Some (room_config_dict [main_hall])) None)
  end
  = match assign_rooms_to_groups
            (get_colored_groups [] slot_roster (Some [("b", "d"); ("a", "c")]) true true)
            four_students [main_hall] with
    | Raised e => Raised e
    | Returned room_assignments =>
        Returned (assign_seats_in_room ∅ room_assignments four_students
                    (Some (room_config_dict [main_hall])) None)
    end.
Proof.
  apply (seating_pipeline_reproducible [] [] ∅ slot_roster (Some [("a", "c"); ("b", "d")])
           (Some [("b", "d"); ("a", "c")]) true true four_students [main_hall] None).
  simpl. apply perm_swap.
Defined.

End PipelineProofs.
(* ===================================================================== *)
(** * More on the colouring *)
(* ===================================================================== *)

Module ColouringFacts.
Import Py PyFacts ConflictGraph ConflictGraphProofs ConflictGraphStats PipelineProofs.

(** Every colour of [colors] is at most the number of neighbours of its
    node, and every smaller colour is in use as well. *)
Definition compact (g : Graph) (colors : list (string * nat)) : Prop :=
  ∀ v c, dict_get v colors = Some c →
    c ≤ length (neighbors g v) ∧ ∀ c', c' < c → ∃ u, dict_get u colors = Some c'.

(** ** The lowest free colour is the least one, and small *)

Lemma lowest_free_from_least used fuel color :
  (∀ i, i < color → i ∈ used) →
  (∀ i, i < lowest_free_from used fuel color → i ∈ used) ∧
  lowest_free_from used fuel color ≤ color + fuel.
Proof.
  revert color. induction fuel as [|fuel IH]; intros color Hlow; simpl.
  - split; [done | lia].
  - case_bool_decide; [|split; [done | lia]].
    destruct (IH (S color)) as [Hleast Hle]; [|split; [done | lia]].
    intros i Hi. destruct (decide (i = color)) as [->|]; [done|]. apply Hlow. lia.
Qed.

Lemma lowest_free_least used :
  (∀ i, i < lowest_free used → i ∈ used) ∧ lowest_free used ≤ size used.
Proof.
  destruct (lowest_free_from_least used (size used) 0) as [Hleast Hle]; [lia|].
  split; [done|]. unfold lowest_free. lia.
Qed.

Lemma size_list_to_set_le (l : list nat) : size (list_to_set l : gset nat) ≤ length l.
Proof.
  induction l as [|x l IH].
  - change (size (∅ : gset nat) ≤ 0). by rewrite size_empty.
  - rewrite list_to_set_cons, size_union_alt, size_singleton. simpl.
    pose proof (subseteq_size (list_to_set l ∖ {[x]}) (list_to_set l : gset nat)) as Hle.
    specialize (Hle ltac:(set_solver)). lia.
Qed.

Lemma length_omap_le {A B} (f : A → option B) l : length (omap f l) ≤ length l.
Proof. induction l as [|x l IH]; csimpl; [done|]. destruct (f x); simpl; lia. Qed.

Lemma size_used_colors g colors node :
  size (used_colors g colors node) ≤ length (neighbors g node).
Proof.
  unfold used_colors. etrans; [apply size_list_to_set_le | apply length_omap_le].
Qed.

(** ** DSatur keeps the colours compact *)

Lemma compact_step g colors next :
  compact g colors → next ∉ colors.*1 →
  compact g (dict_set next (lowest_free (used_colors g colors next)) colors).
Proof.
  intros Hc Hfresh v c. rewrite dict_get_set.
  assert (∀ u c', dict_get u colors = Some c' →
            dict_get u (dict_set next (lowest_free (used_colors g colors next)) colors)
            = Some c') as Hkeep.
  { intros u c' Hu. rewrite dict_get_set. case_decide as Heq; [|done]. subst u.
    exfalso. apply Hfresh, dict_get_is_Some. by exists c'. }
  destruct (lowest_free_least (used_colors g colors next)) as [Hleast Hle].
  case_decide as Heq.
  - intros [= <-]. subst v. split.
    + etrans; [exact Hle | apply size_used_colors].
    + intros c' Hlt. apply Hleast, elem_of_used_colors in Hlt as (nbr & _ & Hnbr).
      exists nbr. by apply Hkeep.
  - intros Hv. destruct (Hc v c Hv) as [Hdeg Hbelow]. split; [done|].
    intros c' Hlt. destruct (Hbelow c' Hlt) as [u Hu]. exists u. by apply Hkeep.
Qed.

Lemma dsatur_loop_compact g fuel colors sat :
  compact g colors → compact g (dsatur_loop g fuel colors sat).
Proof.
  revert colors sat. induction fuel as [|fuel IH]; intros colors sat Hc; [done|].
  simpl. case_bool_decide; [|done].
  destruct (max_by _ _) as [next|] eqn:Hmax; [|done].
  apply next_node_uncolored in Hmax as [_ Hfresh].
  by apply IH, compact_step.
Qed.

Lemma dsatur_coloring_compact g : compact g (dsatur_coloring g).
Proof.
  unfold dsatur_coloring, dsatur_from.
  destruct (max_by _ (nodes g)) as [current|]; [|by intros v c ?].
  apply dsatur_loop_compact. intros v c. simpl. case_decide; [|done].
  intros [= <-]. split; [lia|]. intros c' ?. lia.
Qed.

(** ** The grouping loop *)

Section grouping.
Context {K A X : Type} `{EqDecision K}.
Implicit Types (key : X → K) (val : X → A) (d : list (K * list A)).

Lemma group_by_keeps key val l d0 k a :
  a ∈ dd_get k d0 → a ∈ dd_get k (foldl (λ d x, dd_append (key x) (val x) d) d0 l).
Proof.
  revert d0. induction l as [|x l IH]; intros d0 Ha; [done|].
  simpl. apply IH. unfold dd_append. rewrite dd_get_extend.
  case_decide as Heq; [|done]. subst k. apply elem_of_app. by left.
Qed.

Lemma group_by_complete key val l d0 x :
  x ∈ l → val x ∈ dd_get (key x) (foldl (λ d x, dd_append (key x) (val x) d) d0 l).
Proof.
  revert d0. induction l as [|y l IH]; intros d0 Hx; [by apply elem_of_nil in Hx|].
  apply elem_of_cons in Hx as [<-|Hx]; [|by apply IH].
  simpl. apply group_by_keeps. unfold dd_append. rewrite dd_get_extend, decide_True by done.
  apply elem_of_app. right. by apply list_elem_of_singleton.
Qed.

Lemma group_by_nonempty key val l d0 :
  (∀ k m, (k, m) ∈ d0 → m ≠ []) →
  ∀ k m, (k, m) ∈ foldl (λ d x, dd_append (key x) (val x) d) d0 l → m ≠ [].
Proof.
  revert d0. induction l as [|x l IH]; intros d0 Hd0; [done|].
  simpl. apply IH. intros k m [?|Heq]%elem_of_dict_set; [by eapply Hd0|].
  injection Heq as -> ->. intros [_ Hnil]%app_eq_nil. discriminate Hnil.
Qed.
End grouping.

Lemma group_by_color_complete (colors : list (string * nat)) u c :
  dict_get u colors = Some c → ∃ m, (c, m) ∈ group_by_color colors ∧ u ∈ m.
Proof.
  intros Hu%dict_get_elem. apply elem_of_dd_get.
  apply (group_by_complete (K:=nat) (A:=string) snd fst colors [] (u, c) Hu).
Qed.

Lemma group_by_color_nonempty (colors : list (string * nat)) c m :
  (c, m) ∈ group_by_color colors → m ≠ [].
Proof.
  apply (group_by_nonempty (K:=nat) (A:=string) snd fst colors []).
  by intros k m' ?%elem_of_nil.
Qed.

(** Distinct numbers that hold every smaller number along with each of
    theirs are the numbers below their count. *)
Lemma initial_segment (ks : list nat) :
  NoDup ks → (∀ c c', c ∈ ks → c' < c → c' ∈ ks) → ∀ c, c ∈ ks ↔ c < length ks.
Proof.
  intros Hnd Hdown c. split.
  - intros Hc.
    assert (seq 0 (S c) ⊆+ ks) as Hsub.
    { apply NoDup_submseteq; [apply NoDup_seq|].
      intros i [_ Hi]%elem_of_seq.
      destruct (decide (i = c)) as [->|]; [done|]. apply (Hdown c); [done | lia]. }
    apply submseteq_length in Hsub. rewrite length_seq in Hsub. lia.
  - intros Hlt. destruct (decide (c ∈ ks)) as [|Hnot]; [done|]. exfalso.
    assert (ks ⊆+ seq 0 c) as Hsub.
    { apply NoDup_submseteq; [done|]. intros k Hk. apply elem_of_seq.
      split; [lia|]. destruct (decide (k < c)) as [|Hge]; [lia|].
      exfalso. apply Hnot. destruct (decide (k = c)) as [<-|]; [done|].
      apply (Hdown k); [done | lia]. }
    apply submseteq_length in Hsub. rewrite length_seq in Hsub. lia.
Qed.

(** ** The nodes of the conflict graph *)

Lemma nodes_add_edge_present g u v w :
  u ∈ nodes g → v ∈ nodes g → nodes (add_edge g u v w) = nodes g.
Proof.
  intros Hu Hv. rewrite nodes_add_edge, (add_node_present g u) by done.
  by rewrite add_node_present.
Qed.

Lemma foldl_nodes {A} (f : Graph → A → Graph) l g :
  (∀ g' x, x ∈ l → nodes g' = nodes g → nodes (f g' x) = nodes g) →
  nodes (foldl f g l) = nodes g.
Proof.
  intros Hf. assert (∀ g', nodes g' = nodes g → nodes (foldl f g' l) = nodes g) as H;
    [|by apply H].
  induction l as [|x l IH]; intros g' Hg'; [done|].
  simpl. apply IH.
  - intros g'' y Hy. apply Hf. by right.
  - apply Hf; [by left | done].
Qed.

Lemma add_slot_edges_nodes w df g :
  (∀ r, r ∈ df → StudentID r ∈ nodes g) → nodes (add_slot_edges w df g) = nodes g.
Proof.
  revert g. induction df as [|s1 rest IH]; intros g Hids; [done|].
  simpl.
  assert (nodes (foldl (λ g s2, if same_slot s1 s2
                          then add_edge g (StudentID s1) (StudentID s2) w else g) g rest)
          = nodes g) as Hrow.
  { apply foldl_nodes. intros g' s2 Hs2 Hg'. destruct (same_slot s1 s2); [|done].
    rewrite nodes_add_edge_present; [done | |]; rewrite Hg'; apply Hids; [by left | by right]. }
  rewrite IH; [done|]. intros r Hr. rewrite Hrow. apply Hids. by right.
Qed.

Lemma add_section_edges_nodes students g :
  (∀ s, s ∈ students → s ∈ nodes g) → nodes (add_section_edges students g) = nodes g.
Proof.
  revert g. induction students as [|s1 rest IH]; intros g Hids; [done|].
  simpl.
  assert (nodes (foldl (λ g s2, if has_edge g s1 s2 then g
                          else add_edge g s1 s2 SECTION_EDGE_WEIGHT) g rest)
          = nodes g) as Hrow.
  { apply foldl_nodes. intros g' s2 Hs2 Hg'. destruct (has_edge g' s1 s2); [done|].
    rewrite nodes_add_edge_present; [done | |]; rewrite Hg'; apply Hids; [by left | by right]. }
  rewrite IH; [done|]. intros s Hs. rewrite Hrow. apply Hids. by right.
Qed.

Lemma elem_of_add_nodes ids g n :
  n ∈ nodes (foldl add_node g ids) ↔ n ∈ nodes g ∨ n ∈ ids.
Proof.
  revert g. induction ids as [|x ids IH]; intros g; simpl.
  - rewrite elem_of_nil. tauto.
  - rewrite IH, elem_of_add_node, elem_of_cons. tauto.
Qed.

Lemma NoDup_add_nodes ids g : NoDup (nodes g) → NoDup (nodes (foldl add_node g ids)).
Proof.
  revert g. induction ids as [|x ids IH]; intros g Hnd; [done|].
  simpl. apply IH. unfold add_node. case_bool_decide; [done|]. simpl.
  apply NoDup_app. split_and!; [done | | apply NoDup_singleton].
  by intros y Hy ->%list_elem_of_singleton.
Qed.

Lemma length_add_nodes ids g :
  length (nodes (foldl add_node g ids)) ≤ length (nodes g) + length ids.
Proof.
  revert g. induction ids as [|x ids IH]; intros g; simpl; [lia|].
  etrans; [apply IH|]. unfold add_node. case_bool_decide; simpl; [lia|].
  rewrite length_app. simpl. lia.
Qed.

(** The members of a section list are identifiers of the roster, and two
    rows of one section are in one list. *)
Lemma section_groups_sound df students s :
  students ∈ (section_groups df).*2 → s ∈ students → s ∈ StudentID <$> df.
Proof.
  intros ([k m] & -> & Hin)%list_elem_of_fmap Hs. simpl in Hs.
  destruct (group_by_spec section_key StudentID df []) as (_ & _ & Hmem).
  destruct (Hmem k m s Hin Hs) as [(m0 & ?%elem_of_nil & _)|(r & Hr & _ & <-)]; [done|].
  by apply list_elem_of_fmap_2.
Qed.

Lemma section_groups_complete df r1 r2 :
  r1 ∈ df → r2 ∈ df → section_key r1 = section_key r2 →
  ∃ students, students ∈ (section_groups df).*2 ∧
              StudentID r1 ∈ students ∧ StudentID r2 ∈ students.
Proof.
  intros H1 H2 Hkey.
  pose proof (group_by_complete section_key StudentID df [] r1 H1) as Hm1.
  pose proof (group_by_complete section_key StudentID df [] r2 H2) as Hm2.
  rewrite <- Hkey in Hm2. fold (section_groups df) in Hm1, Hm2.
  exists (dd_get (section_key r1) (section_groups df)). split; [|done].
  apply elem_of_dd_get in Hm1 as (m & Hm & _).
  assert (NoDup (section_groups df).*1) as Hnd.
  { destruct (group_by_spec section_key StudentID df []) as (Hnd & _). apply Hnd. constructor. }
  rewrite (dd_get_unique _ m) by done. by apply (list_elem_of_fmap_2 snd) in Hm.
Qed.

(** ** The edges of friends and of sections *)

Lemma section_row_edges s1 rest g s2 :
  wf_graph g → s2 ∈ rest →
  has_edge (foldl (λ g s2, if has_edge g s1 s2 then g
                           else add_edge g s1 s2 SECTION_EDGE_WEIGHT) g rest) s1 s2 = true.
Proof.
  revert g. induction rest as [|x rest IH]; intros g Hwf Hin.
  - by apply elem_of_nil in Hin.
  - simpl. apply elem_of_cons in Hin as [->|Hin].
    + destruct (section_step_grows s1 g x Hwf) as [Hwf' _].
      destruct (foldl_grows (λ g s2, if has_edge g s1 s2 then g
          else add_edge g s1 s2 SECTION_EDGE_WEIGHT) rest
          (if has_edge g s1 x then g else add_edge g s1 x SECTION_EDGE_WEIGHT))
        as [_ [_ Hext]]; [intros; by apply section_step_grows | done |].
      apply Hext. destruct (has_edge g s1 x) eqn:Hhas; [done|].
      apply has_edge_add_edge_same.
    + apply IH; [|done]. by apply section_step_grows.
Qed.

Lemma add_section_edges_pairs students g s1 s2 :
  wf_graph g → s1 ∈ students → s2 ∈ students → s1 ≠ s2 →
  has_edge (add_section_edges students g) s1 s2 = true.
Proof.
  revert g. induction students as [|x rest IH]; intros g Hwf H1 H2 Hne.
  - by apply elem_of_nil in H1.
  - simpl.
    destruct (foldl_grows (λ g s2, if has_edge g x s2 then g
        else add_edge g x s2 SECTION_EDGE_WEIGHT) rest g) as [Hwf' _];
      [intros; by apply section_step_grows | done |].
    destruct (add_section_edges_grows rest _ Hwf') as [_ [_ Hext]].
    apply elem_of_cons in H1 as [->|H1], H2 as [->|H2].
    + done.
    + apply Hext. by apply section_row_edges.
    + apply Hext. rewrite has_edge_sym. by apply section_row_edges.
    + by apply IH.
Qed.

Lemma friend_joins_elem ids fp a b :
  (a, b) ∈ fp → a ∈ ids → b ∈ ids → existsb (friend_joins ids a b) fp = true.
Proof.
  intros Hin Ha Hb. apply existsb_exists. exists (a, b).
  split; [by apply list_elem_of_In|]. unfold friend_joins, joins. simpl.
  rewrite !bool_decide_eq_true_2; auto.
Qed.

(** What the enhanced graph holds: the roster as its nodes, and an edge for
    every friend pair of the roster and, with section separation, for every
    two students of one section. *)
Lemma build_enhanced_conflict_graph_edges db_pairs df friend_pairs section_separation :
  let g := build_enhanced_conflict_graph db_pairs df friend_pairs section_separation in
  nodes g = nodes (foldl add_node empty_graph (StudentID <$> df)) ∧
  (∀ a b, (a, b) ∈ default db_pairs friend_pairs →
     a ∈ StudentID <$> df → b ∈ StudentID <$> df → has_edge g a b = true) ∧
  (section_separation = true →
   ∀ r1 r2, r1 ∈ df → r2 ∈ df → StudentID r1 ≠ StudentID r2 →
     section_key r1 = section_key r2 →
     has_edge g (StudentID r1) (StudentID r2) = true).
Proof.
  unfold build_enhanced_conflict_graph.
  destruct (add_nodes_grows (StudentID <$> df) empty_graph wf_empty_graph)
    as (Hwf0 & _ & Hall).
  set (g0 := foldl add_node empty_graph (StudentID <$> df)) in *.
  destruct (add_slot_edges_grows 10 df _ Hwf0) as [Hwf1 _].
  assert (nodes (add_slot_edges 10 df g0) = nodes g0) as Hn1.
  { apply add_slot_edges_nodes. intros r Hr. by apply Hall, list_elem_of_fmap_2. }
  set (g1 := add_slot_edges 10 df g0) in *.
  set (ids := list_to_set (StudentID <$> df) : gset string).
  assert (∀ x, x ∈ ids → x ∈ nodes g1) as Hids.
  { intros x Hx%elem_of_list_to_set. rewrite Hn1. by apply Hall. }
  destruct (friend_loop_spec ids (default db_pairs friend_pairs) g1 Hids) as [Hn2 He2].
  destruct (foldl_grows (add_friend_edge ids) (default db_pairs friend_pairs) g1)
    as [Hwf2 _]; [intros; by apply friend_step_grows | done |].
  set (g2 := foldl (add_friend_edge ids) g1 (default db_pairs friend_pairs)) in *.
  assert (∀ a b, (a, b) ∈ default db_pairs friend_pairs →
            a ∈ StudentID <$> df → b ∈ StudentID <$> df → has_edge g2 a b = true) as Hfr.
  { intros a b Hin Ha Hb. rewrite He2, (friend_joins_elem ids _ a b), orb_true_r; [done..| |];
      by apply elem_of_list_to_set. }
  destruct section_separation; [|by split_and!; [congruence | done | done]].
  set (step := λ g students, if bool_decide (1 < length students)
                             then add_section_edges students g else g).
  destruct (foldl_grows step ((section_groups df).*2) g2) as [Hwf3 [_ Hext3]]; [|done|].
  { intros g x Hg. unfold step. case_bool_decide; [by apply add_section_edges_grows|].
    split; [done | apply extends_refl]. }
  assert (∀ l, (∀ students, students ∈ l → students ∈ (section_groups df).*2) →
            ∀ g, wf_graph g → nodes g = nodes g0 →
            nodes (foldl step g l) = nodes g0 ∧
            ∀ students s1 s2, students ∈ l → s1 ∈ students → s2 ∈ students → s1 ≠ s2 →
              has_edge (foldl step g l) s1 s2 = true) as Hsec.
  { induction l as [|x l IH]; intros Hl g Hwf Hn; simpl.
    - split; [done|]. by intros ? ? ? ?%elem_of_nil.
    - assert (wf_graph (step g x) ∧ extends g (step g x)) as [Hwf' _].
      { unfold step. case_bool_decide; [by apply add_section_edges_grows|].
        split; [done | apply extends_refl]. }
      assert (nodes (step g x) = nodes g0) as Hn'.
      { unfold step. case_bool_decide; [|done]. rewrite add_section_edges_nodes; [done|].
        intros s Hs. rewrite Hn. apply Hall. apply (section_groups_sound df x); [|done].
        apply Hl. by left. }
      destruct (IH (λ st Hst, Hl st (list_elem_of_further _ _ _ Hst)) _ Hwf' Hn')
        as [Hnodes Hedges].
      split; [done|]. intros students s1 s2 [->|Hin]%elem_of_cons Hs1 Hs2 Hne;
        [|by eapply Hedges].
      destruct (foldl_grows step l (step g x)) as [_ [_ Hext]]; [|done|].
      { intros g' y Hg'. unfold step. case_bool_decide; [by apply add_section_edges_grows|].
        split; [done | apply extends_refl]. }
      apply Hext. unfold step. rewrite bool_decide_eq_true_2.
      + by apply add_section_edges_pairs.
      + destruct x as [|y1 [|y2 x]]; simpl; [by apply elem_of_nil in Hs1 | | lia].
        apply list_elem_of_singleton in Hs1, Hs2. congruence. }
  destruct (Hsec ((section_groups df).*2) (λ _ H, H) g2 Hwf2 ltac:(congruence))
    as [Hn3 He3].
  split_and!; [done | |].
  - intros a b Hin Ha Hb. apply Hext3. by apply Hfr.
  - intros _ r1 r2 H1 H2 Hne Hkey.
    destruct (section_groups_complete df r1 r2 H1 H2 Hkey) as (students & Hst & Hs1 & Hs2).
    by apply (He3 students).
Qed.

(** ** The graphs of the two entry points *)

Lemma graph_equiv_add_edge_weights g1 g2 u v w1 w2 :
  graph_equiv g1 g2 → graph_equiv (add_edge g1 u v w1) (add_edge g2 u v w2).
Proof.
  intros [Hn He]. split.
  - rewrite !nodes_add_edge. by do 2 apply nodes_add_node_equiv.
  - intros a b. by rewrite !has_edge_add_edge, He.
Qed.

Lemma add_slot_edges_weights w1 w2 df g1 g2 :
  graph_equiv g1 g2 → graph_equiv (add_slot_edges w1 df g1) (add_slot_edges w2 df g2).
Proof.
  revert g1 g2. induction df as [|s1 rest IH]; intros g1 g2 Heq; [done|].
  simpl. apply IH. clear IH. revert g1 g2 Heq.
  induction rest as [|s2 rest IH]; intros g1 g2 Heq; [done|].
  simpl. apply IH. destruct (same_slot s1 s2); [|done].
  by apply graph_equiv_add_edge_weights.
Qed.

Lemma wf_colored_graph db_pairs df friend_pairs (friends section : bool) :
  let g := if friends || section
           then build_enhanced_conflict_graph db_pairs df
                  (if friends then friend_pairs else Some []) section
           else basic_conflict_graph df in
  wf_graph g ∧ ∀ n, n ∈ nodes g ↔ n ∈ StudentID <$> df.
Proof.
  assert (∀ n, n ∈ nodes (foldl add_node empty_graph (StudentID <$> df))
               ↔ n ∈ StudentID <$> df) as Hids.
  { intros n. rewrite elem_of_add_nodes. simpl. rewrite elem_of_nil. tauto. }
  destruct (friends || section); simpl.
  - split; [apply build_enhanced_conflict_graph_spec|].
    intros n. by rewrite (proj1 (build_enhanced_conflict_graph_edges _ _ _ _)).
  - split; [apply basic_conflict_graph_spec|].
    intros n. unfold basic_conflict_graph. rewrite add_slot_edges_nodes; [done|].
    intros r Hr. by apply Hids, list_elem_of_fmap_2.
Qed.

Lemma groups_differ g u v c1 m1 c2 m2 :
  wf_graph g → has_edge g u v = true → u ≠ v →
  (c1, m1) ∈ group_by_color (dsatur_coloring g) →
  (c2, m2) ∈ group_by_color (dsatur_coloring g) →
  u ∈ m1 → v ∈ m2 → c1 ≠ c2.
Proof.
  intros [Hnd _] He Hne Hg1 Hg2 Hu Hv ->.
  destruct (dsatur_coloring_inv g Hnd) as [Hinv _].
  destruct (group_by_color_spec (dsatur_coloring g) (ci_nodup _ _ Hinv)) as (_ & _ & Hmem).
  exact (ci_proper _ _ Hinv u v c2 c2 Hne He (Hmem _ _ _ Hg1 Hu) (Hmem _ _ _ Hg2 Hv) eq_refl).
Qed.

(** X1.  DSatur never uses a colour above the number of neighbours of the node,
    and never skips a colour: below every colour in use, every colour is
    in use. *)
Theorem dsatur_colours_compact (g : Graph) v c :
  dict_get v (dsatur_coloring g) = Some c →
  c ≤ length (neighbors g v) ∧
  ∀ c', c' < c → ∃ u, dict_get u (dsatur_coloring g) = Some c'.
Proof. apply dsatur_coloring_compact. Qed.

Lemma dsatur_colours_compact_witness :
  2 ≤ length (neighbors triangle "c") ∧
  ∀ c', c' < 2 → ∃ u, dict_get u (dsatur_coloring triangle) = Some c'.
Proof. apply (dsatur_colours_compact triangle "c" 2). vm_compute. reflexivity. Defined.

(** X2.  The colour groups are numbered 0, 1, ..., k-1, none of them is empty,
    and together they hold the identifiers of the roster, each once, and
    nothing else: a friend pair that names someone outside the roster brings
    nobody in. *)
Theorem colour_groups_numbered db_pairs (df : list Row) friend_pairs
    (enable_friend_separation enable_section_separation : bool) :
  let groups := get_colored_groups db_pairs df friend_pairs
                  enable_friend_separation enable_section_separation in
  (∀ c, c ∈ groups.*1 ↔ c < length groups) ∧
  (∀ c m, (c, m) ∈ groups → m ≠ []) ∧
  concat groups.*2 ≡ₚ remove_dups (StudentID <$> df).
Proof.
  unfold get_colored_groups.
  destruct (wf_colored_graph db_pairs df friend_pairs enable_friend_separation
              enable_section_separation) as [Hwf Hnodes].
  set (g := if enable_friend_separation || enable_section_separation then _ else _) in *.
  clearbody g. pose proof Hwf as [Hnd _].
  destruct (dsatur_coloring_inv g Hnd) as [Hinv Hall].
  destruct (group_by_color_spec (dsatur_coloring g) (ci_nodup _ _ Hinv))
    as (Hk & Hperm & Hmem).
  simpl. split_and!.
  - rewrite <- (length_fmap fst). apply initial_segment; [done|].
    intros c c' ([c0 m] & -> & Hin)%list_elem_of_fmap Hlt. simpl in Hlt.
    destruct m as [|s m]; [by apply group_by_color_nonempty in Hin|].
    pose proof (Hmem _ _ s Hin ltac:(left)) as Hs.
    destruct (dsatur_coloring_compact g s c0 Hs) as [_ Hbelow].
    destruct (Hbelow c' Hlt) as [u Hu].
    apply group_by_color_complete in Hu as (m' & Hm' & _).
    by apply (list_elem_of_fmap_2 fst) in Hm'.
  - intros c m. apply group_by_color_nonempty.
  - rewrite Hperm. apply NoDup_Permutation;
      [apply (ci_nodup _ _ Hinv) | apply NoDup_remove_dups |].
    intros n. rewrite elem_of_remove_dups, <- Hnodes. split; [apply (ci_nodes _ _ Hinv) | apply Hall].
Qed.

(** X3.  With friend separation on, the two students of a friend pair are never
    in one colour group; with section separation on, neither are two
    students of one section (same batch, year and department): the soft
    edges bind the colouring as the exam conflicts do. *)
Theorem friends_and_sections_in_different_groups db_pairs (df : list Row) friend_pairs
    (enable_friend_separation enable_section_separation : bool) :
  let groups := get_colored_groups db_pairs df friend_pairs
                  enable_friend_separation enable_section_separation in
  (enable_friend_separation = true →
   ∀ a b, (a, b) ∈ default db_pairs friend_pairs → a ≠ b →
     ∀ c1 m1 c2 m2, (c1, m1) ∈ groups → (c2, m2) ∈ groups → a ∈ m1 → b ∈ m2 → c1 ≠ c2) ∧
  (enable_section_separation = true →
   ∀ r1 r2, r1 ∈ df → r2 ∈ df → StudentID r1 ≠ StudentID r2 →
     Batch r1 = Batch r2 → Year r1 = Year r2 → Department r1 = Department r2 →
     ∀ c1 m1 c2 m2, (c1, m1) ∈ groups → (c2, m2) ∈ groups →
       StudentID r1 ∈ m1 → StudentID r2 ∈ m2 → c1 ≠ c2).
Proof.
  unfold get_colored_groups. simpl. split.
  - intros -> a b Hin Hne c1 m1 c2 m2 Hg1 Hg2 Ha Hb. simpl in *.
    destruct (build_enhanced_conflict_graph_spec db_pairs df friend_pairs
                enable_section_separation) as (Hwf & _).
    destruct (build_enhanced_conflict_graph_edges db_pairs df friend_pairs
                enable_section_separation) as (Hn & Hfr & _).
    set (g := build_enhanced_conflict_graph _ _ _ _) in *.
    destruct (dsatur_coloring_inv g (proj1 Hwf)) as [Hinv _].
    destruct (group_by_color_spec (dsatur_coloring g) (ci_nodup _ _ Hinv)) as (_ & _ & Hmem).
    assert (∀ s c m, (c, m) ∈ group_by_color (dsatur_coloring g) → s ∈ m →
              s ∈ StudentID <$> df) as Hroster.
    { intros s c m Hg Hs. pose proof (Hmem _ _ _ Hg Hs) as Hc.
      apply dict_get_elem, (list_elem_of_fmap_2 fst), (ci_nodes _ _ Hinv) in Hc.
      simpl in Hc. rewrite Hn, elem_of_add_nodes in Hc. simpl in Hc.
      rewrite elem_of_nil in Hc. tauto. }
    apply (groups_differ g a b c1 m1 c2 m2); [done | | done..].
    apply Hfr; [done | exact (Hroster _ _ _ Hg1 Ha) | exact (Hroster _ _ _ Hg2 Hb)].
  - intros -> r1 r2 H1 H2 Hne Hb Hy Hd c1 m1 c2 m2 Hg1 Hg2 Hs1 Hs2.
    rewrite orb_true_r in Hg1, Hg2.
    destruct (build_enhanced_conflict_graph_spec db_pairs df
                (if enable_friend_separation then friend_pairs else Some []) true)
      as (Hwf & _).
    destruct (build_enhanced_conflict_graph_edges db_pairs df
                (if enable_friend_separation then friend_pairs else Some []) true)
      as (_ & _ & Hsec).
    apply (groups_differ _ (StudentID r1) (StudentID r2) c1 m1 c2 m2 Hwf); [|done..].
    apply Hsec; [done..|]. unfold section_key. congruence.
Qed.

(** X4.  [get_colored_groups_with_stats] returns the groups of
    [get_colored_groups], whatever the flags (the edge weights, and which of
    the two graph builders ran, change nothing); the number of groups it
    reports is its chromatic number, and that is at most the number of
    rows. *)
Theorem stats_describe_the_groups db_pairs (df : list Row) friend_pairs
    (enable_friend_separation enable_section_separation : bool) :
  let result := get_colored_groups_with_stats db_pairs df friend_pairs
                  enable_friend_separation enable_section_separation in
  result.1 = get_colored_groups db_pairs df friend_pairs
               enable_friend_separation enable_section_separation ∧
  total_groups result.2 = chromatic_number result.2 ∧
  chromatic_number result.2 ≤ total_students result.2.
Proof.
  unfold get_colored_groups_with_stats, get_colored_groups. simpl.
  set (g := build_enhanced_conflict_graph db_pairs df _ enable_section_separation).
  assert (wf_graph g ∧ nodes g = nodes (foldl add_node empty_graph (StudentID <$> df)))
    as [[Hnd _] Hn].
  { split; [apply build_enhanced_conflict_graph_spec|].
    apply build_enhanced_conflict_graph_edges. }
  destruct (dsatur_coloring_inv g Hnd) as [Hinv Hall].
  destruct (group_by_color_spec (dsatur_coloring g) (ci_nodup _ _ Hinv))
    as (Hk & Hperm & Hmem).
  split_and!.
  - f_equal. apply dsatur_coloring_equiv. unfold g.
    destruct enable_friend_separation, enable_section_separation; simpl;
      try apply graph_equiv_refl; try (by destruct friend_pairs; apply graph_equiv_refl).
    unfold build_enhanced_conflict_graph, basic_conflict_graph. simpl.
    apply add_slot_edges_weights, graph_equiv_refl.
  - rewrite <- (length_fmap fst), <- (size_list_to_set (C:=gset nat)) by done.
    f_equal. apply set_eq. intros c. rewrite !elem_of_list_to_set. split.
    + intros ([c0 m] & -> & Hin)%list_elem_of_fmap.
      destruct m as [|s m]; [by apply group_by_color_nonempty in Hin|].
      pose proof (Hmem _ _ s Hin ltac:(left)) as Hs.
      by apply dict_get_elem, (list_elem_of_fmap_2 snd) in Hs.
    + intros ([u c0] & -> & Hin)%list_elem_of_fmap.
      apply (dict_get_unique _ _ _ (ci_nodup _ _ Hinv)) in Hin.
      apply group_by_color_complete in Hin as (m & Hm & _).
      by apply (list_elem_of_fmap_2 fst) in Hm.
  - etrans; [apply size_list_to_set_le|]. rewrite length_fmap, <- (length_fmap fst).
    assert ((dsatur_coloring g).*1 ⊆+ nodes g) as Hsub.
    { apply NoDup_submseteq; [apply (ci_nodup _ _ Hinv) | apply (ci_nodes _ _ Hinv)]. }
    apply submseteq_length in Hsub. etrans; [exact Hsub|]. rewrite Hn.
    etrans; [apply length_add_nodes|]. simpl. by rewrite length_fmap.
Qed.

End ColouringFacts.
(* ===================================================================== *)
(** * More on the seat placer *)
(* ===================================================================== *)

Module SeatFacts.
Import Py PyFacts RoomAssignment SeatLayout SeatLayoutProofs SeparationProofs.

(** ** Interleaving keeps the order inside every group *)

Lemma sublist_singleton {A} (x : A) l : x ∈ l → [x] `sublist_of` l.
Proof.
  intros (l1 & l2 & ->)%list_elem_of_split. apply sublist_inserts_l.
  apply sublist_skip, sublist_nil_l.
Qed.

Lemma concat_nil_elem {A} (qs : list (list A)) q : concat qs = [] → q ∈ qs → q = [].
Proof.
  intros Hnil Hq. destruct q as [|x q]; [done|]. exfalso.
  assert (x ∈ concat qs) as Hx by (apply elem_of_concat; exists (x :: q); split; [done | left]).
  rewrite Hnil in Hx. by apply elem_of_nil in Hx.
Qed.

Lemma interleave_loop_sublist {A} fuel (qs : list (list A)) q :
  length (concat qs) ≤ fuel → q ∈ qs → q `sublist_of` interleave_loop fuel qs.
Proof.
  revert qs q. induction fuel as [|fuel IH]; intros qs q Hlen Hq.
  - rewrite (concat_nil_elem qs q); [apply sublist_nil_l | | done].
    destruct (concat qs); [done | simpl in Hlen; lia].
  - simpl. destruct (existsb _ qs) eqn:Hany.
    + destruct q as [|x q]; [apply sublist_nil_l|].
      apply (sublist_app [x] _ q).
      * apply sublist_singleton. apply list_elem_of_omap. by exists (x :: q).
      * apply IH; [|by apply (list_elem_of_fmap_2 tail) in Hq].
        pose proof (some_queue_left qs Hany).
        rewrite (concat_heads_tails qs), length_app in Hlen. lia.
    + rewrite (concat_nil_elem qs q); [apply sublist_nil_l | by apply no_queue_left | done].
Qed.

Lemma omap_head_nonempty {A} (gs : list (list A)) :
  omap head (filter (λ g, g ≠ []) gs) = omap head gs ∧
  length (omap head gs) = length (filter (λ g, g ≠ []) gs).
Proof.
  induction gs as [|[|x g] gs [IH1 IH2]]; [done | |].
  - rewrite filter_cons_False by auto. done.
  - rewrite filter_cons_True by done. csimpl. by rewrite IH1, IH2.
Qed.

(** X5.  [interleave_groups] ends for every input and returns every element of
    the groups exactly once; each group keeps its order in the result; and
    the result starts with the first element of every non-empty group, in
    the order of the groups. *)
Theorem interleave_groups_round_robin {A} (groups : list (list A)) :
  interleave_groups groups ≡ₚ concat groups ∧
  (∀ group, group ∈ groups → group `sublist_of` interleave_groups groups) ∧
  take (length (filter (λ group, group ≠ []) groups)) (interleave_groups groups)
  = omap head groups.
Proof.
  split; [apply interleave_groups_Permutation|].
  destruct (omap_head_nonempty groups) as [Hheads Hlen].
  unfold interleave_groups.
  destruct (filter (λ group, group ≠ []) groups) as [|g gs] eqn:Hf.
  - split.
    + intros group Hin. destruct group as [|x group]; [apply sublist_nil_l|].
      assert (x :: group ∈ filter (λ group, group ≠ []) groups) as H
        by (by apply list_elem_of_filter).
      rewrite Hf in H. by apply elem_of_nil in H.
    + simpl. by rewrite <- Hheads.
  - split.
    + intros group Hin. destruct group as [|x group]; [apply sublist_nil_l|].
      apply interleave_loop_sublist; [done|]. rewrite <- Hf.
      by apply list_elem_of_filter.
    + rewrite <- Hheads, <- Hlen, <- Hheads.
      assert (g ≠ []) as Hg.
      { assert (g ∈ filter (λ group : list A, group ≠ []) groups) as H
          by (rewrite Hf; left).
        by apply list_elem_of_filter in H as [? _]. }
      destruct g as [|x g]; [done|]. csimpl.
      f_equal. apply take_app_length.
Qed.

(** ** The neighbourhood of a cell *)

Lemma length_guarded_cell (inside : bool) (c : Z * Z) :
  length (if inside then [c] else []) ≤ 1.
Proof. destruct inside; simpl; lia. Qed.

Lemma lookup_range n (j : nat) idx :
  range n !! j = Some idx ↔ idx = Z.of_nat j ∧ (Z.of_nat j < n)%Z.
Proof.
  unfold range. rewrite list_lookup_fmap, fmap_Some. split.
  - intros (k & [-> ?]%lookup_seq & ->). simpl. lia.
  - intros [-> ?]. exists j. split; [|done]. apply lookup_seq. lia.
Qed.

(** X6.  [get_adjacent_positions] lists the cells of the grid at distance one of
    [(x, y)], diagonals included: never [(x, y)] itself, never a cell
    outside the grid, no cell twice; so at most eight cells, and eight for
    a cell inside the border. *)
Theorem get_adjacent_positions_spec x y cols rows :
  (∀ c, c ∈ get_adjacent_positions x y cols rows ↔
     c ≠ (x, y) ∧ (-1 ≤ c.1 - x ≤ 1)%Z ∧ (-1 ≤ c.2 - y ≤ 1)%Z ∧
     (0 ≤ c.1 < cols)%Z ∧ (0 ≤ c.2 < rows)%Z) ∧
  NoDup (get_adjacent_positions x y cols rows) ∧
  length (get_adjacent_positions x y cols rows) ≤ 8 ∧
  ((0 < x < cols - 1)%Z → (0 < y < rows - 1)%Z →
   length (get_adjacent_positions x y cols rows) = 8).
Proof.
  split_and!.
  - intros c. rewrite elem_of_adjacent_positions. unfold neighbours. simpl. tauto.
  - unfold get_adjacent_positions. apply NoDup_bind.
    + intros dx1 dx2 c _ _ (dy1 & H1 & _)%list_elem_of_bind (dy2 & H2 & _)%list_elem_of_bind.
      repeat case_bool_decide; try by apply elem_of_nil in H1.
      all: try by apply elem_of_nil in H2.
      apply list_elem_of_singleton in H1, H2. subst c. injection H2 as ? ?. lia.
    + intros dx _. apply NoDup_bind.
      * intros dy1 dy2 c _ _ H1 H2.
        repeat case_bool_decide; try by apply elem_of_nil in H1.
        all: try by apply elem_of_nil in H2.
        apply list_elem_of_singleton in H1, H2. subst c. injection H2 as ?. lia.
      * intros dy _. repeat case_bool_decide; [constructor | apply NoDup_singleton | constructor].
      * apply (bool_decide_unpack _). vm_compute. exact I.
    + apply (bool_decide_unpack _). vm_compute. exact I.
  - unfold get_adjacent_positions. csimpl. rewrite !length_app. simpl.
    repeat match goal with
           | |- context [length (if ?b then [?c] else [])] =>
               let n := fresh "n" in
               pose proof (length_guarded_cell b c);
               set (n := length (if b then [c] else [])) in *;
               clearbody n
           end.
    lia.
  - intros Hx Hy. unfold get_adjacent_positions.
    csimpl. rewrite !length_app. simpl.
    rewrite !bool_decide_eq_true_2 by lia. done.
Qed.

(** X7.  [is_adjacent_to_friend] is true exactly when some cell of the grid next
    to [(x, y)] is assigned to a student that the relationship set of
    [student_id] holds.  Only that student's own set is read: a student
    missing from the map is next to no friend, whoever lists them. *)
Theorem is_adjacent_to_friend_iff (x y : Z) (student_id : string)
    (assigned_positions : gmap (Z * Z) string)
    (friend_graph : gmap string (gset string)) (cols rows : Z) :
  is_adjacent_to_friend x y student_id assigned_positions friend_graph cols rows = true ↔
  ∃ friends c other,
    friend_graph !! student_id = Some friends ∧
    c ∈ get_adjacent_positions x y cols rows ∧
    assigned_positions !! c = Some other ∧ other ∈ friends.
Proof.
  unfold is_adjacent_to_friend. destruct (friend_graph !! student_id) as [friends|].
  - rewrite existsb_exists. split.
    + intros (c & Hc%list_elem_of_In & Hother).
      destruct (assigned_positions !! c) as [other|] eqn:Hget; [|done].
      apply bool_decide_eq_true in Hother. by exists friends, c, other.
    + intros (friends' & c & other & [= <-] & Hc & Hget & Hother).
      exists c. split; [by apply list_elem_of_In|]. rewrite Hget.
      by apply bool_decide_eq_true.
  - split; [done|]. by intros (? & ? & ? & [=] & _).
Qed.

(** X8.  [find_non_adjacent_position] returns the first free cell, in row-major
    order, that is not next to a friend; when every free cell is next to a
    friend, the first free cell; and [None] only when the grid has no free
    cell.  The seat number is the row-major index plus one. *)
Theorem find_non_adjacent_position_spec (student_id : string)
    (assigned_positions : gmap (Z * Z) string)
    (friend_graph : gmap string (gset string)) (cols rows : Z) :
  let free idx := assigned_positions !! cell_of cols idx = None in
  let beside idx :=
    is_adjacent_to_friend (cell_of cols idx).1 (cell_of cols idx).2 student_id
      assigned_positions friend_graph cols rows = true in
  match find_non_adjacent_position student_id assigned_positions friend_graph cols rows with
  | None => ∀ idx, (0 ≤ idx < cols * rows)%Z → ¬ free idx
  | Some (cell, seat_no) =>
      ∃ idx, (0 ≤ idx < cols * rows)%Z ∧ cell = cell_of cols idx ∧
             seat_no = (idx + 1)%Z ∧ free idx ∧
        ((¬ beside idx ∧ ∀ j, (0 ≤ j < idx)%Z → free j → beside j) ∨
         (beside idx ∧ (∀ j, (0 ≤ j < cols * rows)%Z → free j → beside j) ∧
          ∀ j, (0 ≤ j < idx)%Z → ¬ free j))
  end.
Proof.
  intros free beside. unfold find_non_adjacent_position.
  destruct (list_find _ _) as [[i idx]|] eqn:H1.
  - apply list_find_Some in H1 as ([-> Hi]%lookup_range & [Hfree Hadj] & Hfirst).
    exists (Z.of_nat i). split; [lia|]. split; [done|]. split; [done|]. split; [done|].
    left. split; [unfold beside; by rewrite Hadj|].
    intros j Hj Hjfree. unfold beside. apply not_false_iff_true. intros Hjadj.
    apply (Hfirst (Z.to_nat j) j); [apply lookup_range; lia | lia | done].
  - apply list_find_None in H1. rewrite Forall_forall in H1.
    assert (∀ j, (0 ≤ j < cols * rows)%Z → free j → beside j) as Hall.
    { intros j Hj Hjfree. unfold beside. apply not_false_iff_true. intros Hjadj.
      apply (H1 j); [by apply elem_of_range | done]. }
    destruct (list_find _ _) as [[i idx]|] eqn:H2.
    + apply list_find_Some in H2 as ([-> Hi]%lookup_range & Hfree & Hfirst).
      exists (Z.of_nat i). split; [lia|]. split; [done|]. split; [done|]. split; [done|].
      right. split; [apply Hall; [lia | done]|]. split; [done|].
      intros j Hj Hjfree. apply (Hfirst (Z.to_nat j) j); [apply lookup_range; lia | lia | done].
    + apply list_find_None in H2. rewrite Forall_forall in H2.
      intros idx Hidx. apply H2. by apply elem_of_range.
Qed.

(** ** Spread positions *)

Lemma length_bind_singleton {A B} (f : A → B) (l : list A) :
  length (l ≫= λ x, [f x]) = length l.
Proof. induction l as [|x l IH]; csimpl; [done|]. by rewrite IH. Qed.

Lemma length_range2 start stop :
  length (range2 start stop) = Z.to_nat ((stop - start + 1) `div` 2).
Proof. unfold range2. by rewrite length_fmap, length_seq. Qed.

Lemma checkerboard_snoc start_of cols (k : nat) :
  checkerboard start_of cols (Z.of_nat (S k))
  = checkerboard start_of cols (Z.of_nat k) ++
    (range2 (start_of (Z.of_nat k)) cols ≫=
       λ col, [((col, Z.of_nat k), (Z.of_nat k * cols + col + 1)%Z)]).
Proof.
  unfold checkerboard, range. rewrite !Nat2Z.id, seq_S, fmap_app, bind_app. simpl.
  by rewrite app_nil_r.
Qed.

(** The two passes split the cells of the grid, and the first pass has at
    least as many as the second. *)
Lemma checkerboard_counts cols (k : nat) :
  (0 ≤ cols)%Z →
  let first := Z.of_nat (length (checkerboard (λ row, row `mod` 2)%Z cols (Z.of_nat k))) in
  let second :=
    Z.of_nat (length (checkerboard (λ row, 1 - row `mod` 2)%Z cols (Z.of_nat k))) in
  (first + second = cols * Z.of_nat k)%Z ∧
  (first - second = Z.of_nat k `mod` 2 * ((cols + 1) `div` 2 - cols `div` 2))%Z.
Proof.
  intros Hc. induction k as [|k [IH1 IH2]];
    [cbv zeta; simpl; change (Z.of_nat 0) with 0%Z; rewrite Z.mod_0_l by lia; lia|].
  cbv zeta in *. rewrite !checkerboard_snoc, !length_app, !length_bind_singleton,
    !length_range2.
  pose proof (Z.mod_pos_bound (Z.of_nat k) 2 ltac:(lia)) as Hk.
  pose proof (Z.div_mod (Z.of_nat k) 2 ltac:(lia)) as Hk'.
  pose proof (Z.mod_pos_bound (Z.of_nat (S k)) 2 ltac:(lia)) as HSk.
  pose proof (Z.div_mod (Z.of_nat (S k)) 2 ltac:(lia)) as HSk'.
  pose proof (Z.mod_pos_bound cols 2 ltac:(lia)) as Hcm.
  pose proof (Z.div_mod cols 2 ltac:(lia)) as Hcd.
  pose proof (Z.mod_pos_bound (cols + 1) 2 ltac:(lia)) as Hcm1.
  pose proof (Z.div_mod (cols + 1) 2 ltac:(lia)) as Hcd1.
  assert (Z.of_nat k `mod` 2 = 0 ∨ Z.of_nat k `mod` 2 = 1)%Z as [Hpar|Hpar] by lia;
    rewrite Hpar in *.
  - assert (Z.of_nat (S k) `mod` 2 = 1)%Z as -> by lia.
    replace (cols - 0 + 1)%Z with (cols + 1)%Z by lia.
    replace (cols - (1 - 0) + 1)%Z with cols by lia. lia.
  - assert (Z.of_nat (S k) `mod` 2 = 0)%Z as -> by lia.
    replace (cols - 1 + 1)%Z with cols by lia.
    replace (cols - (1 - 1) + 1)%Z with (cols + 1)%Z by lia. lia.
Qed.

Lemma checkerboard_first_half cols rows :
  (0 ≤ cols)%Z → (0 ≤ rows)%Z →
  (cols * rows ≤ 2 * Z.of_nat (length (checkerboard (λ row, row `mod` 2)%Z cols rows)))%Z.
Proof.
  intros Hc Hr. destruct (checkerboard_counts cols (Z.to_nat rows) Hc) as [Hsum Hdiff].
  rewrite Z2Nat.id in * by done.
  pose proof (Z.mod_pos_bound rows 2 ltac:(lia)).
  pose proof (Z.mod_pos_bound cols 2 ltac:(lia)).
  pose proof (Z.div_mod cols 2 ltac:(lia)).
  pose proof (Z.mod_pos_bound (cols + 1) 2 ltac:(lia)).
  pose proof (Z.div_mod (cols + 1) 2 ltac:(lia)).
  nia.
Qed.

Lemma fill_until_take num (cells positions : list (Z * Z * Z)) :
  (Z.of_nat (length positions) < num ≤ Z.of_nat (length positions + length cells))%Z →
  fill_until num false cells positions
  = inl (positions ++ take (Z.to_nat num - length positions) cells).
Proof.
  revert positions. induction cells as [|pos rest IH]; intros positions Hnum; simpl in *.
  - lia.
  - rewrite length_app. simpl. case_bool_decide.
    + replace (Z.to_nat num - length positions) with 1 by lia. done.
    + rewrite IH by (rewrite length_app; simpl; lia).
      rewrite length_app. simpl.
      replace (Z.to_nat num - length positions)
        with (S (Z.to_nat num - (length positions + 1))) by lia.
      by rewrite <- (assoc_L (++)).
Qed.

(** X9.  For at least one student, in a grid with a positive number of columns,
    [get_spread_positions] returns as many positions as there are students,
    or as there are seats when those are fewer; no cell twice; every cell
    inside the grid, with the row-major index plus one as its seat
    number. *)
Theorem get_spread_positions_spec n cols rows :
  (0 < cols)%Z → (1 ≤ n)%Z →
  length (get_spread_positions n cols rows) = Z.to_nat (Z.min n (cols * rows)) ∧
  NoDup (get_spread_positions n cols rows).*1 ∧
  Forall (λ p, (0 ≤ p.1.1 < cols)%Z ∧ (0 ≤ p.1.2 < rows)%Z ∧
               p.2 = (p.1.2 * cols + p.1.1 + 1)%Z)
         (get_spread_positions n cols rows).
Proof.
  intros Hc Hn.
  assert (length (get_spread_positions n cols rows) = Z.to_nat (Z.min n (cols * rows)) ∧
          NoDup (get_spread_positions n cols rows) ∧
          Forall (pos_wf cols rows) (get_spread_positions n cols rows)) as (Hlen & Hnd & Hwf).
  { destruct (decide (cols * rows ≤ n)%Z) as [Hfull|Hroom].
    - rewrite spread_positions_full by done.
      split_and!; [rewrite length_fmap, length_range; f_equal; lia
                  | apply NoDup_row_major_range | by apply row_major_range_wf].
    - destruct (spread_positions_spec n cols rows Hc ltac:(lia)) as (? & ? & ?).
      split_and!; [|done|done]. replace (Z.min n (cols * rows)) with n by lia. done. }
  split_and!; [done | apply (NoDup_cells_of_wf cols rows); [lia | done | done] |].
  eapply Forall_impl; [exact Hwf|]. intros p (idx & Hidx & ->).
  destruct (cell_of_bounds cols rows idx Hc Hidx) as (Hx & Hy & Heq).
  unfold row_major. simpl in *. lia.
Qed.

Lemma get_spread_positions_spec_witness :
  length (get_spread_positions 28 6 5) = 28.
Proof.
  refine (proj1 (get_spread_positions_spec 28 6 5 _ _)); lia.
Defined.

(** X10.  With at most half of the seats taken (a spacing of 2 or more), the
    positions are the first ones of the checkerboard pass: column and row
    of every position have the same parity, so no two students are given
    cells that share a side. *)
Theorem get_spread_positions_leaves_gaps n cols rows :
  (0 < cols)%Z → (1 ≤ n)%Z → (2 * n ≤ cols * rows)%Z →
  get_spread_positions n cols rows
  = take (Z.to_nat n) (checkerboard (λ row, row `mod` 2)%Z cols rows) ∧
  length (get_spread_positions n cols rows) = Z.to_nat n ∧
  (∀ p, p ∈ get_spread_positions n cols rows → (p.1.1 `mod` 2 = p.1.2 `mod` 2)%Z) ∧
  (∀ p q, p ∈ get_spread_positions n cols rows → q ∈ get_spread_positions n cols rows →
     (Z.abs (p.1.1 - q.1.1) + Z.abs (p.1.2 - q.1.2) ≠ 1)%Z).
Proof.
  intros Hc Hn Hhalf.
  assert (0 ≤ rows)%Z as Hr by nia.
  pose proof (checkerboard_first_half cols rows ltac:(lia) Hr) as Hcount.
  assert (get_spread_positions n cols rows
          = take (Z.to_nat n) (checkerboard (λ row, row `mod` 2)%Z cols rows)) as Heq.
  { unfold get_spread_positions.
    rewrite bool_decide_eq_false_2 by lia.
    assert (2 ≤ (cols * rows) `div` n)%Z by (apply Z.div_le_lower_bound; lia).
    rewrite bool_decide_eq_true_2 by lia.
    rewrite fill_until_take by (simpl; lia). simpl. by rewrite Nat.sub_0_r. }
  assert (∀ p, p ∈ get_spread_positions n cols rows → (p.1.1 `mod` 2 = p.1.2 `mod` 2)%Z)
    as Hparity.
  { intros p. rewrite Heq. intros (i & Hp%list_elem_of_lookup_2 & _)%elem_of_take.
    apply elem_of_checkerboard in Hp as (row & col & _ & (k & Hk & _)%elem_of_range2 & ->).
    simpl. pose proof (Z.mod_pos_bound row 2 ltac:(lia)).
    pose proof (Z.mod_pos_bound col 2 ltac:(lia)).
    pose proof (Z.div_mod col 2 ltac:(lia)). lia. }
  split_and!; [done | | done |].
  - rewrite Heq, length_take. lia.
  - intros p q Hp%Hparity Hq%Hparity.
    pose proof (Z.div_mod p.1.1 2 ltac:(lia)). pose proof (Z.div_mod p.1.2 2 ltac:(lia)).
    pose proof (Z.div_mod q.1.1 2 ltac:(lia)). pose proof (Z.div_mod q.1.2 2 ltac:(lia)).
    lia.
Qed.

Lemma get_spread_positions_leaves_gaps_witness :
  get_spread_positions 3 3 2 = [((0, 0), 1); ((2, 0), 3); ((1, 1), 5)]%Z.
Proof.
  refine (eq_trans (proj1 (get_spread_positions_leaves_gaps 3 3 2 _ _ _)) _);
    [lia | lia | lia | vm_compute; reflexivity].
Defined.

(** ** The rooms of the seating *)

Lemma spread_room_keys metadata rc ra acc :
  NoDup (acc.*1 ++ ra.*1) →
  (foldl (spread_room metadata rc) acc ra).*1
  = acc.*1 ++ (filter (λ entry, entry.2 ≠ []) ra).*1.
Proof.
  revert acc. induction ra as [|[room students] ra IH]; intros acc Hnd; simpl.
  - by rewrite app_nil_r.
  - csimpl in Hnd. apply NoDup_app in Hnd as (Hacc & Hdisj & [Hroom Hra]%NoDup_cons).
    assert (room ∉ acc.*1) as Hfresh by (intros Hin; apply (Hdisj room Hin); left).
    destruct students as [|s students].
    + rewrite filter_cons_False by (simpl; auto). unfold spread_room at 2. simpl.
      apply IH. apply NoDup_app. split_and!; [done | | done].
      intros x Hx Hx'. apply (Hdisj x Hx). by right.
    + rewrite filter_cons_True by done. unfold spread_room at 2. simpl.
      rewrite IH.
      * rewrite dict_set_fresh by done. rewrite fmap_app. simpl.
        by rewrite <- (assoc_L (++)).
      * rewrite dict_set_fresh by done. rewrite fmap_app. simpl.
        rewrite <- (assoc_L (++)). simpl. apply NoDup_app. split_and!; [done | |].
        -- intros x Hx [->|Hx']%elem_of_cons; [done|]. apply (Hdisj x Hx). by right.
        -- by apply NoDup_cons.
Qed.

Lemma separation_room_keys metadata rc fg ra acc :
  NoDup (acc.1.*1 ++ ra.*1) →
  (foldl (separation_room metadata rc fg) acc ra).1.*1
  = acc.1.*1 ++ (filter (λ entry, entry.2 ≠ []) ra).*1.
Proof.
  revert acc. induction ra as [|[room students] ra IH]; intros acc Hnd; simpl.
  - by rewrite app_nil_r.
  - csimpl in Hnd. apply NoDup_app in Hnd as (Hacc & Hdisj & [Hroom Hra]%NoDup_cons).
    assert (room ∉ acc.1.*1) as Hfresh by (intros Hin; apply (Hdisj room Hin); left).
    destruct students as [|s students].
    + rewrite filter_cons_False by (simpl; auto). unfold separation_room at 2. simpl.
      apply IH. apply NoDup_app. split_and!; [done | | done].
      intros x Hx Hx'. apply (Hdisj x Hx). by right.
    + rewrite filter_cons_True by done. unfold separation_room at 2. simpl.
      rewrite IH; simpl.
      * rewrite dict_set_fresh by done. rewrite fmap_app. simpl.
        by rewrite <- (assoc_L (++)).
      * rewrite dict_set_fresh by done. rewrite fmap_app. simpl.
        rewrite <- (assoc_L (++)). simpl. apply NoDup_app. split_and!; [done | |].
        -- intros x Hx [->|Hx']%elem_of_cons; [done|]. apply (Hdisj x Hx). by right.
        -- by apply NoDup_cons.
Qed.

(** X11.  The seating has the rooms that were given students, in the order of the
    room assignment, and no other room; and in a room with a positive
    number of columns the seats go, in order, to the first columns times
    rows students of the room's interleaved queue.  Neither depends on the
    relationship map: it changes the cells, not who is seated. *)
Theorem seating_rooms_and_order db_friend_graph room_assignment metadata room_config
    friend_graph :
  NoDup room_assignment.*1 →
  let seating := assign_seats_in_room db_friend_graph room_assignment metadata
                   room_config friend_graph in
  seating.*1 = (filter (λ entry, entry.2 ≠ []) room_assignment).*1 ∧
  ∀ room students,
    (room, students) ∈ room_assignment → (0 < (room_layout room_config room).1)%Z →
    seat_student_id <$> dd_get room seating
    = take (Z.to_nat ((room_layout room_config room).1 * (room_layout room_config room).2))
        (interleave_groups (year_groups metadata students).*2).
Proof.
  intros Hnd. simpl. split.
  - unfold assign_seats_in_room, assign_seats_with_separation, separation_loop.
    destruct (truthy friend_graph).
    + by rewrite separation_room_keys.
    + by rewrite spread_room_keys.
  - intros room students Hin Hc.
    set (cols := (room_layout room_config room).1) in *.
    set (rows := (room_layout room_config room).2).
    fold (room_queue metadata students).
    destruct (decide (students = [])) as [->|Hne].
    { unfold dd_get. rewrite assign_seats_in_room_empty by done.
      assert (room_queue metadata [] = []) as -> by reflexivity. by rewrite take_nil. }
    destruct (assign_seats_in_room_lookup db_friend_graph room_assignment metadata
                room_config friend_graph room students Hnd Hin Hne) as [Hpath [v Hsep]].
    unfold dd_get. rewrite Hpath. destruct (truthy friend_graph).
    + rewrite Hsep. simpl. apply separated_spec.
    + simpl. destruct (decide (Z.of_nat (length students) ≤ cols * rows)%Z) as [Hle|Hgt].
      * destruct (spread_seats_within metadata cols rows students Hc Hne Hle) as (Hids & _).
        etrans; [exact Hids|]. symmetry. apply take_ge. rewrite length_room_queue. lia.
      * apply spread_seats_over. fold cols rows. lia.
Qed.

Lemma seating_rooms_and_order_witness :
  (assign_seats_in_room ∅ [("R", five_students); ("S", [])] ∅ exam_hall (Some friends_ab)).*1
  = ["R"].
Proof.
  refine (proj1 (seating_rooms_and_order ∅ [("R", five_students); ("S", [])] ∅ exam_hall
                   (Some friends_ab) _)).
  apply (bool_decide_unpack _); vm_compute; exact I.
Defined.

End SeatFacts.
(* ===================================================================== *)
(** * More on the room allocator *)
(* ===================================================================== *)

Module AllocatorFacts.
Import Py PyFacts RoomAssignment RoomAssignmentProofs.

(** ** Groups and their [Student] objects *)

Lemma make_student_groups_each student_metadata groups acc sg :
  make_student_groups student_metadata groups acc = Returned sg →
  NoDup (acc.*1 ++ groups.*1) →
  ∀ color members, (color, members) ∈ groups →
    ∃ ss, (color, ss) ∈ sg ∧ student_id <$> ss = members.
Proof.
  revert acc. induction groups as [|[c sids] groups IH]; intros acc; simpl.
  - intros _ _ color members ?%elem_of_nil. done.
  - destruct (make_students student_metadata sids) as [ss|] eqn:Hss; [|done].
    intros Hrec Hnd color members Hin.
    apply NoDup_app in Hnd as (Hacc & Hdisj & Hg). apply NoDup_cons in Hg as [Hc Hg].
    assert (c ∉ acc.*1) as Hfresh by (intros ?; eapply Hdisj; [done | left]).
    rewrite dict_set_fresh in Hrec by done.
    assert (NoDup ((acc ++ [(c, ss)]).*1 ++ groups.*1)) as Hnd'.
    { rewrite fmap_app. simpl. rewrite <- (assoc_L (++)). simpl.
      apply NoDup_app. split_and!; [done | | by constructor].
      intros x Hx [->|Hin']%elem_of_cons; [done|]. eapply Hdisj; [done | by right]. }
    apply elem_of_cons in Hin as [[= -> ->]|Hin]; [|by eapply IH].
    apply make_students_spec in Hss as [Hids _]. exists ss. split; [|done].
    apply make_student_groups_spec in Hrec as (new & -> & _); [|done].
    apply elem_of_app. left. apply elem_of_app. right. left.
Qed.



Lemma occ_of_elem h room ss :
  (room, ss) ∈ h → ∀ s, s ∈ ss → s ∈ occ_of h (room_id room).
Proof.
  intros Hin s Hs. unfold occ_of. apply list_elem_of_bind. exists (room, ss).
  split; [|done]. simpl. by rewrite decide_True.
Qed.


(** X12.  A returned mapping lists no room without students, and it never splits
    a colour group: all the members of a group are in the list of one
    room. *)
Theorem groups_are_never_split groups student_metadata rooms_config res :
  NoDup (cfg_room_name <$> rooms_config) → NoDup groups.*1 → NoDup (concat groups.*2) →
  assign_rooms_to_groups groups student_metadata rooms_config = Returned res →
  (∀ rid sids, (rid, sids) ∈ res → sids ≠ []) ∧
  (∀ color members, (color, members) ∈ groups → members ≠ [] →
     ∃ rid sids, (rid, sids) ∈ res ∧ ∀ s, s ∈ members → s ∈ sids).
Proof.
  intros Hrooms Hkeys Hids Hres.
  destruct (returned_layout _ _ _ _ Hrooms Hkeys Hids Hres)
    as (sg & h & asg & Hsg & Hgs & Hok & (Hnd & Hget & Hperm) & ->).
  split.
  - by intros rid sids [Hne _]%elem_of_nonempty_rooms.
  - intros color members Hin Hne.
    destruct (make_student_groups_each _ _ _ _ Hsg Hkeys color members Hin)
      as (ss & Hss & Hmem).
    assert (ss ∈ h.*2) as ([room ss'] & Heq & Hh)%list_elem_of_fmap.
    { rewrite Hgs, sorted_desc_Permutation. by apply (list_elem_of_fmap_2 snd) in Hss. }
    simpl in Heq. subst ss'.
    assert (∀ s, s ∈ members → s ∈ dd_get (room_id room) asg) as Hall.
    { intros s Hs. rewrite Hget. rewrite <- Hmem in Hs.
      apply list_elem_of_fmap in Hs as (st & -> & Hst).
      apply list_elem_of_fmap_2. by apply (occ_of_elem h room ss). }
    exists (room_id room), (dd_get (room_id room) asg). split; [|done].
    apply elem_of_nonempty_rooms. simpl.
    destruct members as [|m members]; [done|].
    pose proof (Hall m ltac:(left)) as Hm.
    apply elem_of_dd_get in Hm as (sids & Hsids & Hm).
    rewrite (dd_get_unique _ sids) by done.
    split; [|done]. intros ->. by apply elem_of_nil in Hm.
Qed.

Lemma groups_are_never_split_witness :
  ∃ rid sids, (rid, sids) ∈ [("Hall", ["c"; "d"]); ("Annex", ["a"; "b"])] ∧
              ∀ s, s ∈ ["a"; "b"] → s ∈ sids.
Proof.
  assert (assign_rooms_to_groups two_groups four_students [hall; annex]
            = Returned [("Hall", ["c"; "d"]); ("Annex", ["a"; "b"])]) as Hres
    by (vm_compute; reflexivity).
  refine (proj2 (groups_are_never_split two_groups four_students [hall; annex] _ _ _ _ Hres)
            0 ["a"; "b"] _ _); [apply (bool_decide_unpack _); vm_compute; exact I.. | left | done].
Defined.



End AllocatorFacts.
(* ===================================================================== *)
(** * The relationship table and its two views *)
(* ===================================================================== *)

Module RelationshipFacts.
Import Py PyFacts Relationships.

Definition pair_of (r : StudentRelationship) : Z * Z := (student1_id r, student2_id r).

Definition sample_table : list StudentRelationship :=
  [mkRelationship 1 2 FRIEND None None true;
   mkRelationship 2 5 RELATIVE None (Some "cousins") false].

(** ** The friend graph *)

Lemma graph_add_elem k v (graph : gmap Z (gset Z)) a b :
  b ∈ default ∅ (graph_add k v graph !! a) ↔
  b ∈ default ∅ (graph !! a) ∨ (a = k ∧ b = v).
Proof.
  unfold graph_add. destruct (decide (a = k)) as [->|Hne].
  - rewrite lookup_insert_eq. simpl. rewrite elem_of_union, elem_of_singleton. tauto.
  - rewrite lookup_insert_ne by done. tauto.
Qed.

Lemma graph_add_key k v (graph : gmap Z (gset Z)) a :
  is_Some (graph_add k v graph !! a) ↔ is_Some (graph !! a) ∨ a = k.
Proof.
  unfold graph_add. destruct (decide (a = k)) as [->|Hne].
  - rewrite lookup_insert_eq. split; [auto | by eexists].
  - rewrite lookup_insert_ne by done. tauto.
Qed.

Lemma friend_loop_elem (rows : list StudentRelationship) (graph : gmap Z (gset Z)) a b :
  b ∈ default ∅ (foldl (λ graph rel,
                          graph_add (student2_id rel) (student1_id rel)
                            (graph_add (student1_id rel) (student2_id rel) graph))
                       graph rows !! a) ↔
  b ∈ default ∅ (graph !! a) ∨
  ∃ r, r ∈ rows ∧ (pair_of r = (a, b) ∨ pair_of r = (b, a)).
Proof.
  revert graph. induction rows as [|r rows IH]; intros graph; simpl.
  - split; [auto | intros [?|(r & ?%elem_of_nil & _)]; done].
  - rewrite IH, !graph_add_elem. unfold pair_of. split.
    + intros [[[?|[-> ->]]|[-> ->]]|(r' & ? & ?)]; [by left | | |].
      * right. exists r. split; [left | by left].
      * right. exists r. split; [left | by right].
      * right. exists r'. split; [by right | done].
    + intros [?|(r' & [->|?]%elem_of_cons & Hr')]; [by left; left; left | |].
      * left. destruct Hr' as [[= <- <-]|[= <- <-]]; [left; right | right]; done.
      * right. by exists r'.
Qed.

Lemma friend_loop_key (rows : list StudentRelationship) (graph : gmap Z (gset Z)) a :
  is_Some (foldl (λ graph rel,
                    graph_add (student2_id rel) (student1_id rel)
                      (graph_add (student1_id rel) (student2_id rel) graph))
                 graph rows !! a) ↔
  is_Some (graph !! a) ∨ ∃ r, r ∈ rows ∧ (student1_id r = a ∨ student2_id r = a).
Proof.
  revert graph. induction rows as [|r rows IH]; intros graph; simpl.
  - split; [auto | intros [?|(r & ?%elem_of_nil & _)]; done].
  - rewrite IH, !graph_add_key. split.
    + intros [[[?| ->]| ->]|(r' & ? & ?)]; [by left | | |].
      * right. exists r. split; [left | by left].
      * right. exists r. split; [left | by right].
      * right. exists r'. split; [by right | done].
    + intros [?|(r' & [->|?]%elem_of_cons & Hr')]; [by left; left; left | |].
      * left. destruct Hr' as [<-|<-]; [left; right | right]; done.
      * right. by exists r'.
Qed.

Lemma elem_of_get_all_pairs table p :
  p ∈ get_all_pairs table ↔ ∃ r, r ∈ table ∧ is_active r = true ∧ pair_of r = p.
Proof.
  unfold get_all_pairs. rewrite elem_of_list_to_set, list_elem_of_fmap.
  setoid_rewrite list_elem_of_filter. unfold pair_of. split.
  - intros (r & -> & ? & ?). by exists r.
  - intros (r & ? & ? & <-). by exists r.
Qed.

(** X14.  The two views of the table agree: [b] is in the set [get_friend_graph]
    gives [a] exactly when [get_all_pairs] holds the pair, one way round or
    the other.  So the graph is symmetric; its keys are the students of the
    active rows; and under the table's constraints nobody is their own
    friend. *)
Theorem friend_graph_matches_pairs (table : list StudentRelationship) (a b : Z) :
  let graph := get_friend_graph table in
  let pairs := get_all_pairs table in
  (b ∈ default ∅ (graph !! a) ↔ (a, b) ∈ pairs ∨ (b, a) ∈ pairs) ∧
  (b ∈ default ∅ (graph !! a) ↔ a ∈ default ∅ (graph !! b)) ∧
  (is_Some (graph !! a) ↔ ∃ c, (a, c) ∈ pairs ∨ (c, a) ∈ pairs) ∧
  (constraints table → a ∉ default ∅ (graph !! a)).
Proof.
  intros graph pairs.
  assert (∀ a b, b ∈ default ∅ (graph !! a) ↔ (a, b) ∈ pairs ∨ (b, a) ∈ pairs) as Hiff.
  { intros x y. unfold graph, pairs, get_friend_graph.
    rewrite friend_loop_elem, !elem_of_get_all_pairs, lookup_empty. simpl.
    setoid_rewrite list_elem_of_filter. split.
    - intros [?%elem_of_empty|(r & [? ?] & [?|?])]; [done | left | right]; by exists r.
    - intros [(r & ? & ? & ?)|(r & ? & ? & ?)]; right; exists r; auto. }
  split_and!.
  - apply Hiff.
  - rewrite !Hiff. tauto.
  - unfold graph, pairs, get_friend_graph. rewrite friend_loop_key, lookup_empty.
    setoid_rewrite elem_of_get_all_pairs. setoid_rewrite list_elem_of_filter.
    unfold pair_of. split.
    + intros [[? [=]]|(r & [? ?] & [<-|<-])].
      * exists (student2_id r). left. by exists r.
      * exists (student1_id r). right. by exists r.
    + intros (c & [(r & ? & ? & [= <- <-])|(r & ? & ? & [= <- <-])]);
        right; exists r; auto.
  - intros [Hlt _] Ha. apply Hiff in Ha.
    assert (∃ r, r ∈ table ∧ pair_of r = (a, a)) as (r & Hr & [= H1 H2]).
    { destruct Ha as [Ha|Ha]; apply elem_of_get_all_pairs in Ha as (r & ? & _ & ?);
        by exists r. }
    rewrite Forall_forall in Hlt. specialize (Hlt r Hr). lia.
Qed.

(** ** Adding a relationship *)

Lemma list_find_insert_same {A} (P : A → Prop) `{!∀ x, Decision (P x)} (l : list A) i x u :
  list_find P l = Some (i, x) → P u → list_find P (<[i := u]> l) = Some (i, u).
Proof.
  intros (Hi & _ & Hfirst)%list_find_Some Hu. apply list_find_Some.
  split_and!; [|done|].
  - apply list_lookup_insert_eq. by apply lookup_lt_Some in Hi.
  - intros j y Hj Hlt. rewrite list_lookup_insert_ne in Hj by lia. by apply (Hfirst j).
Qed.

Lemma list_find_snoc {A} (P : A → Prop) `{!∀ x, Decision (P x)} (l : list A) u :
  list_find P l = None → P u → list_find P (l ++ [u]) = Some (length l, u).
Proof.
  intros Hnone%list_find_None Hu. rewrite Forall_forall in Hnone. apply list_find_Some.
  split_and!; [|done|].
  - rewrite lookup_app_r, Nat.sub_diag by lia. done.
  - intros j y Hj Hlt. rewrite lookup_app_l in Hj by done.
    apply Hnone. by apply list_elem_of_lookup_2 in Hj.
Qed.

Lemma pairs_insert_same (table : list StudentRelationship) i x u :
  table !! i = Some x → pair_of u = pair_of x → is_active u = true →
  pair_of <$> <[i := u]> table = pair_of <$> table ∧
  get_all_pairs (<[i := u]> table) = get_all_pairs table ∪ {[ pair_of u ]}.
Proof.
  intros Hi Hpair Hactive. split.
  - rewrite list_fmap_insert, Hpair. apply list_insert_id.
    by rewrite list_lookup_fmap, Hi.
  - apply set_eq. intros p. rewrite elem_of_union, elem_of_singleton, !elem_of_get_all_pairs.
    split.
    + intros (r & Hr & Hact & <-). apply list_elem_of_lookup in Hr as [j Hj].
      destruct (decide (i = j)) as [<-|Hne].
      * rewrite list_lookup_insert_eq in Hj by (by apply lookup_lt_Some in Hi).
        injection Hj as <-. by right.
      * rewrite list_lookup_insert_ne in Hj by done. left. exists r.
        split; [by apply list_elem_of_lookup_2 in Hj | done].
    + intros [(r & Hr & Hact & <-)| ->].
      * apply list_elem_of_lookup in Hr as [j Hj].
        destruct (decide (i = j)) as [<-|Hne].
        -- exists u. split_and!; [|done|congruence].
           apply list_elem_of_lookup. exists i. apply list_lookup_insert_eq.
           by apply lookup_lt_Some in Hi.
        -- exists r. split_and!; [|done|done].
           apply list_elem_of_lookup. exists j. by rewrite list_lookup_insert_ne.
      * exists u. split_and!; [|done|done].
        apply list_elem_of_lookup. exists i. apply list_lookup_insert_eq.
        by apply lookup_lt_Some in Hi.
Qed.

(** X15.  [add_relationship] for two different students keeps the table's
    constraints, makes the ordered pair one of [get_all_pairs] and changes
    no other pair, gives the same table whichever student comes first, adds
    at most one row, and done twice changes nothing more: a pair already
    in the table, active or not, is updated in place and never entered
    twice. *)
Theorem add_relationship_spec (table : list StudentRelationship) (a b : Z)
    (rel_type : RelationshipType) (reporter : option Z) (text : option string) :
  a ≠ b → constraints table →
  let added := add_relationship table a b rel_type reporter text in
  constraints added.1 ∧
  get_all_pairs added.1 = get_all_pairs table ∪ {[ (Z.min a b, Z.max a b) ]} ∧
  add_relationship table b a rel_type reporter text = added ∧
  add_relationship added.1 a b rel_type reporter text = added ∧
  length table ≤ length added.1 ≤ length table + 1.
Proof.
  intros Hne [Hlt Hnd]. cbv zeta.
  assert (add_relationship table b a rel_type reporter text
          = add_relationship table a b rel_type reporter text) as Hsym.
  { unfold add_relationship. by rewrite (Z.min_comm b a), (Z.max_comm b a). }
  rewrite Hsym. clear Hsym. unfold add_relationship.
  set (s1 := Z.min a b) in *. set (s2 := Z.max a b) in *.
  destruct (list_find (λ r, student1_id r = s1 ∧ student2_id r = s2) table)
    as [[i x]|] eqn:Hfind.
  - pose proof Hfind as (Hi & [Hx1 Hx2] & _)%list_find_Some.
    set (u := mkRelationship (student1_id x) (student2_id x) rel_type
                (Relationships.reported_by x)
                (if notes_given text then text else Relationships.notes x) true).
    destruct (pairs_insert_same table i x u Hi eq_refl eq_refl) as [Hpairs Hall].
    simpl. split; [|split; [|split; [|split]]].
    + split.
      * rewrite Forall_forall in Hlt. apply Forall_forall. intros r Hr.
        apply list_elem_of_lookup in Hr as [j Hj].
        destruct (decide (i = j)) as [<-|Hij].
        -- rewrite list_lookup_insert_eq in Hj by (by apply lookup_lt_Some in Hi).
           injection Hj as <-. simpl. apply (Hlt x). by apply list_elem_of_lookup_2 in Hi.
        -- rewrite list_lookup_insert_ne in Hj by done.
           apply Hlt. by apply list_elem_of_lookup_2 in Hj.
      * change (NoDup (pair_of <$> <[i := u]> table)). rewrite Hpairs. exact Hnd.
    + rewrite Hall. unfold pair_of, u. simpl. by rewrite Hx1, Hx2.
    + done.
    + rewrite (list_find_insert_same _ table i x u Hfind) by done. simpl.
      rewrite list_insert_insert_eq. f_equal; [f_equal|]; unfold u; simpl;
        destruct (notes_given text); done.
    + rewrite length_insert. lia.
  - set (rel := mkRelationship s1 s2 rel_type reporter text true).
    pose proof Hfind as Hnone%list_find_None. rewrite Forall_forall in Hnone.
    simpl. split; [|split; [|split; [|split]]].
    + split.
      * apply Forall_app. split; [done|]. constructor; [|done]. simpl. unfold s1, s2. lia.
      * rewrite fmap_app. apply NoDup_app. split_and!; [done | | apply NoDup_singleton].
        intros p (r & -> & Hr)%list_elem_of_fmap [= H1 H2]%list_elem_of_singleton.
        by apply (Hnone r Hr).
    + unfold get_all_pairs. rewrite filter_app, fmap_app, list_to_set_app_L. f_equal.
      rewrite filter_cons_True by done. simpl. set_solver.
    + done.
    + rewrite (list_find_snoc _ table rel Hfind) by done. simpl.
      rewrite insert_app_r_alt, Nat.sub_diag by lia. simpl.
      f_equal; [f_equal|]; unfold rel; by destruct (notes_given text).
    + rewrite length_app. simpl. lia.
Qed.

Lemma add_relationship_spec_witness :
  get_all_pairs (add_relationship sample_table 5 2 FRIEND None None).1
  = get_all_pairs sample_table ∪ {[ (2, 5)%Z ]}.
Proof.
  refine (proj1 (proj2 (add_relationship_spec sample_table 5 2 FRIEND None None _ _)));
    [lia|]. apply (bool_decide_unpack _); vm_compute; exact I.
Defined.

(** ** Soft delete *)

Lemma list_find_pair (table : list StudentRelationship) i u :
  NoDup (pair_of <$> table) → table !! i = Some u →
  list_find (λ r, student1_id r = student1_id u ∧ student2_id r = student2_id u) table
  = Some (i, u).
Proof.
  intros Hnd Hi. apply list_find_Some. split; [done|]. split; [done|].
  intros j y Hj Hlt [H1 H2].
  assert (i = j); [|lia].
  apply (NoDup_lookup _ _ _ (pair_of u) Hnd).
  - by rewrite list_lookup_fmap, Hi.
  - rewrite list_lookup_fmap, Hj. unfold pair_of. simpl. by rewrite H1, H2.
Qed.

(** X21.  [deactivate] is a soft delete: the row stays, the table keeps its
    constraints, and its pair, and no other, leaves [get_all_pairs].
    [add_relationship] for the same two students, in either order and
    without notes, then switches the same row on again rather than adding
    one, so that deactivating an active row and adding it back with its
    type gives the table back. *)
Theorem deactivate_is_soft_delete (table : list StudentRelationship) (i : nat)
    (r : StudentRelationship) (reporter : option Z) :
  constraints table → table !! i = Some r →
  let off := deactivate table i in
  let back := add_relationship off (student2_id r) (student1_id r) (relationship_type r)
                reporter None in
  constraints off ∧
  length off = length table ∧
  get_all_pairs off = get_all_pairs table ∖ {[ pair_of r ]} ∧
  length back.1 = length table ∧
  get_all_pairs back.1 = get_all_pairs table ∪ {[ pair_of r ]} ∧
  (is_active r = true → back.1 = table).
Proof.
  intros [Hlt Hnd] Hi. cbv zeta. unfold deactivate. rewrite Hi.
  set (r_off := mkRelationship (student1_id r) (student2_id r) (relationship_type r)
                  (reported_by r) (Relationships.notes r) false).
  pose proof (lookup_lt_Some _ _ _ Hi) as Hlen.
  assert (pair_of <$> <[i := r_off]> table = pair_of <$> table) as Hpairs.
  { rewrite list_fmap_insert. apply list_insert_id. by rewrite list_lookup_fmap, Hi. }
  assert (student1_id r < student2_id r)%Z as Hr.
  { rewrite Forall_forall in Hlt. apply Hlt. by apply list_elem_of_lookup_2 in Hi. }
  assert (<[i := r_off]> table !! i = Some r_off) as Hoff
    by (by apply list_lookup_insert_eq).
  assert (add_relationship (<[i := r_off]> table) (student2_id r) (student1_id r)
            (relationship_type r) reporter None
          = (<[i := mkRelationship (student1_id r) (student2_id r) (relationship_type r)
                      (reported_by r) (Relationships.notes r) true]> table,
             mkRelationship (student1_id r) (student2_id r) (relationship_type r)
               (reported_by r) (Relationships.notes r) true)) as Hback.
  { unfold add_relationship.
    rewrite Z.min_r, Z.max_l by lia.
    change (student1_id r) with (student1_id r_off) at 1.
    change (student2_id r) with (student2_id r_off) at 2.
    rewrite (list_find_pair _ i r_off) by (by rewrite ?Hpairs).
    simpl. by rewrite list_insert_insert_eq. }
  rewrite Hback. cbn [fst].
  set (r_on := mkRelationship _ _ _ _ _ true).
  split; [|split; [|split; [|split; [|split]]]].
  - split; [|by change (NoDup (pair_of <$> <[i := r_off]> table)); rewrite Hpairs].
    apply Forall_insert; [done | exact Hr].
  - apply length_insert.
  - apply set_eq. intros p.
    rewrite elem_of_difference, elem_of_singleton, !elem_of_get_all_pairs. split.
    + intros (x & Hx & Hact & <-). apply list_elem_of_lookup in Hx as [j Hj].
      destruct (decide (i = j)) as [<-|Hne].
      * rewrite Hoff in Hj. by injection Hj as <-.
      * rewrite list_lookup_insert_ne in Hj by done. split.
        -- exists x. split; [by apply list_elem_of_lookup_2 in Hj | done].
        -- intros Heq. apply Hne. apply (NoDup_lookup _ _ _ (pair_of r) Hnd).
           ++ by rewrite list_lookup_fmap, Hi.
           ++ rewrite list_lookup_fmap, Hj. simpl. f_equal. exact Heq.
    + intros [(x & Hx & Hact & <-) Hne]. apply list_elem_of_lookup in Hx as [j Hj].
      exists x. split; [|done]. apply list_elem_of_lookup. exists j.
      rewrite list_lookup_insert_ne; [done|]. intros <-. rewrite Hi in Hj.
      injection Hj as <-. done.
  - apply length_insert.
  - by destruct (pairs_insert_same table i r r_on Hi eq_refl eq_refl) as [_ ->].
  - intros Hactive. apply list_insert_id. rewrite Hi. f_equal.
    destruct r. simpl in *. by subst.
Qed.

Lemma deactivate_is_soft_delete_witness :
  get_all_pairs (deactivate sample_table 0) = get_all_pairs sample_table ∖ {[ (1, 2)%Z ]} ∧
  (add_relationship (deactivate sample_table 0) 2 1 FRIEND None None).1 = sample_table.
Proof.
  pose proof (deactivate_is_soft_delete sample_table 0
                (mkRelationship 1 2 FRIEND None None true) None) as H.
  destruct H as (_ & _ & Hpairs & _ & _ & Hback); [|reflexivity|].
  - apply (bool_decide_unpack _); vm_compute; exact I.
  - split; [exact Hpairs | exact (Hback eq_refl)].
Defined.

End RelationshipFacts.
(* ===================================================================== *)
(** * The callers: relationship map, dealing out, stored seats *)
(* ===================================================================== *)

Module CallerFacts.
Import Py PyFacts RoomAssignment SeatLayout SeatLayoutProofs SeparationProofs.
Import Relationships Main Models.

(** ** The relationship map of main.py *)

Lemma ensure_key_get k k' (d : list (string * list string)) :
  dd_get k' (ensure_key k d) = dd_get k' d.
Proof.
  unfold ensure_key. destruct (dict_has k d) eqn:Hhas; [done|].
  apply dict_has_false, dict_get_None in Hhas.
  unfold dd_get. rewrite dict_get_set. case_decide; [|done]. subst. by rewrite Hhas.
Qed.

Lemma ensure_key_NoDup k (d : list (string * list string)) :
  NoDup d.*1 → NoDup (ensure_key k d).*1.
Proof. unfold ensure_key. destruct (dict_has k d); [done|]. apply dict_set_NoDup. Qed.

Lemma dd_get_set k k' (v : list string) (d : list (string * list string)) :
  dd_get k' (dict_set k v d) = if decide (k = k') then v else dd_get k' d.
Proof. unfold dd_get. rewrite dict_get_set. by case_decide. Qed.

Lemma friends_map_step_elem (d : list (string * list string)) row a b :
  b ∈ dd_get a (friends_map_step d row) ↔
  b ∈ dd_get a d ∨ (a = row.1.1 ∧ b = row.1.2) ∨ (a = row.1.2 ∧ b = row.1.1).
Proof.
  destruct row as [[s1 s2] rt]. unfold friends_map_step. simpl.
  rewrite !dd_get_set, !ensure_key_get.
  repeat case_decide; subst; rewrite ?elem_of_app, ?list_elem_of_singleton;
    try rewrite !ensure_key_get; rewrite ?elem_of_app, ?list_elem_of_singleton; naive_solver.
Qed.

Lemma friends_map_step_NoDup (d : list (string * list string)) row :
  NoDup d.*1 → NoDup (friends_map_step d row).*1.
Proof.
  intros Hnd. unfold friends_map_step. by do 2 apply dict_set_NoDup; do 2 apply ensure_key_NoDup.
Qed.

Lemma build_friends_map_spec relationships :
  NoDup (build_friends_map relationships).*1 ∧
  ∀ a b, b ∈ dd_get a (build_friends_map relationships) ↔
         ∃ rt, (a, b, rt) ∈ relationships ∨ (b, a, rt) ∈ relationships.
Proof.
  unfold build_friends_map.
  assert (∀ d, NoDup d.*1 →
            NoDup (foldl friends_map_step d relationships).*1 ∧
            ∀ a b, b ∈ dd_get a (foldl friends_map_step d relationships) ↔
                   b ∈ dd_get a d ∨
                   ∃ rt, (a, b, rt) ∈ relationships ∨ (b, a, rt) ∈ relationships) as H.
  { induction relationships as [|row rels IH]; intros d Hnd; simpl.
    - split; [done|]. intros a b. split; [auto|].
      intros [?|(rt & [?%elem_of_nil|?%elem_of_nil])]; done.
    - destruct (IH _ (friends_map_step_NoDup d row Hnd)) as [Hnd' Hiff].
      split; [done|]. intros a b. rewrite Hiff, friends_map_step_elem.
      destruct row as [[s1 s2] rt0]. simpl. setoid_rewrite elem_of_cons. split.
      + intros [[?|[[-> ->]|[-> ->]]]|(rt & [?|?])]; [by left | | | |].
        * right. exists rt0. left. by left.
        * right. exists rt0. right. by left.
        * right. exists rt. left. by right.
        * right. exists rt. right. by right.
      + intros [?|(rt & [[Heq|?]|[Heq|?]])]; [by left; left | | | |];
          try (injection Heq as -> -> ->).
        * left. right. by left.
        * right. exists rt. by left.
        * left. right. by right.
        * right. exists rt. by right. }
  destruct (H [] ltac:(constructor)) as [Hnd Hiff]. split; [done|].
  intros a b. rewrite Hiff. unfold dd_get at 1. simpl. rewrite elem_of_nil. tauto.
Qed.

Lemma as_friend_graph_lookup (fm : list (string * list string)) k :
  NoDup fm.*1 → as_friend_graph fm !! k = list_to_set <$> dict_get k fm.
Proof.
  unfold as_friend_graph.
  assert (∀ g : gmap string (gset string), NoDup fm.*1 →
            foldl (λ g kv, <[kv.1 := list_to_set kv.2]> g) g fm !! k
            = match dict_get k fm with
              | Some v => Some (list_to_set v)
              | None => g !! k
              end) as H.
  { induction fm as [|[k0 v0] fm IH]; intros g Hnd; [done|].
    csimpl in Hnd. apply NoDup_cons in Hnd as [Hk0 Hnd]. simpl.
    rewrite IH by done. case_decide as Heq.
    - subst k0. apply dict_get_None in Hk0. rewrite Hk0. by rewrite lookup_insert_eq.
    - destruct (dict_get k fm); [done|]. by rewrite lookup_insert_ne. }
  intros Hnd. rewrite H by done. by destruct (dict_get k fm).
Qed.

(** X16.  The relationship map main.py builds from the fetched rows relates [a]
    to [b] exactly when a row names the two, in either order: it is
    symmetric, as the placement that reads it expects. *)
Theorem friends_map_symmetric (relationships : list (string * string * string)) :
  let friend_graph := as_friend_graph (build_friends_map relationships) in
  (∀ a b, related friend_graph a b ↔
          ∃ rt, (a, b, rt) ∈ relationships ∨ (b, a, rt) ∈ relationships) ∧
  (∀ a b, related friend_graph a b → related friend_graph b a) ∧
  (truthy (Some friend_graph) = true ↔ relationships ≠ []).
Proof.
  destruct (build_friends_map_spec relationships) as [Hnd Hiff]. simpl.
  assert (∀ a b, related (as_friend_graph (build_friends_map relationships)) a b ↔
                 b ∈ dd_get a (build_friends_map relationships)) as Hrel.
  { intros a b. unfold related. rewrite as_friend_graph_lookup by done. unfold dd_get.
    destruct (dict_get a (build_friends_map relationships)) as [v|]; simpl.
    - split.
      + intros (friends & [= <-] & Hb). by apply elem_of_list_to_set in Hb.
      + intros Hb. eexists. split; [done|]. by apply elem_of_list_to_set.
    - split; [by intros (? & [=] & _) | by intros ?%elem_of_nil]. }
  split_and!.
  - intros a b. by rewrite Hrel, Hiff.
  - intros a b. rewrite !Hrel, !Hiff. intros (rt & [?|?]); exists rt; auto.
  - rewrite negb_true_iff, bool_decide_eq_false. split.
    + intros Hne ->. by apply Hne.
    + intros Hne Hempty. destruct relationships as [|[[s1 s2] rt] rels]; [done|].
      assert (related (as_friend_graph (build_friends_map ((s1, s2, rt) :: rels))) s1 s2)
        as (friends & Hget & _).
      { apply Hrel, Hiff. exists rt. left. left. }
      rewrite Hempty in Hget. by rewrite lookup_empty in Hget.
Qed.

(** ** The dealing loop of main.py *)

Definition total_capacity (configs : list room_config) : Z :=
  foldr Z.add 0%Z (cfg_capacity <$> configs).

Lemma total_capacity_snoc configs rc :
  total_capacity (configs ++ [rc]) = (total_capacity configs + cfg_capacity rc)%Z.
Proof.
  unfold total_capacity. induction configs as [|c configs IH]; csimpl; [lia|].
  rewrite IH. lia.
Qed.

Lemma total_capacity_nonneg configs :
  Forall (λ rc, (0 ≤ cfg_capacity rc)%Z) configs → (0 ≤ total_capacity configs)%Z.
Proof.
  unfold total_capacity. induction 1 as [|c configs Hc _ IH]; csimpl; [done|]. lia.
Qed.

Lemma py_slice_forward {A} (l : list A) (i c : Z) :
  (0 ≤ i ≤ Z.of_nat (length l))%Z → (0 ≤ c)%Z →
  py_slice l i (i + c) = take (Z.to_nat c) (drop (Z.to_nat i) l).
Proof.
  intros Hi Hc. unfold py_slice.
  rewrite !bool_decide_eq_false_2 by lia.
  replace (Z.to_nat (i `min` Z.of_nat (length l))) with (Z.to_nat i) by lia.
  destruct (decide (i + c ≤ Z.of_nat (length l))%Z).
  - f_equal. lia.
  - rewrite !take_ge; [done | |]; rewrite length_drop; lia.
Qed.

Lemma take_next_chunk {A} (l : list A) (t c : nat) :
  take t l ++ take c (drop (t `min` length l) l) = take (t + c) l.
Proof.
  destruct (decide (t ≤ length l)).
  - replace (t `min` length l) with t by lia. apply take_take_drop.
  - rewrite drop_ge by lia. rewrite take_nil, app_nil_r.
    by rewrite !take_ge by lia.
Qed.

Lemma deal_students_inv student_ids configs :
  NoDup (cfg_room_name <$> configs) →
  Forall (λ rc, (0 ≤ cfg_capacity rc)%Z) configs →
  let result := deal_students student_ids configs in
  concat result.1.*2 = take (Z.to_nat (total_capacity configs)) student_ids ∧
  result.2 = Z.min (Z.of_nat (length student_ids)) (total_capacity configs) ∧
  result.1.*1 `sublist_of` cfg_room_name <$> configs ∧
  ∀ room students, (room, students) ∈ result.1 →
    students ≠ [] ∧
    ∃ rc, rc ∈ configs ∧ cfg_room_name rc = room ∧
          (Z.of_nat (length students) ≤ cfg_capacity rc)%Z.
Proof.
  induction configs as [|rc configs IH] using rev_ind; intros Hnd Hcap.
  { simpl. split_and!; [done | unfold total_capacity; simpl; lia | done |].
    by intros ?? ?%elem_of_nil. }
  rewrite fmap_app in Hnd. apply NoDup_app in Hnd as (Hnd & Hfresh & _).
  apply Forall_app in Hcap as [Hcap [Hrc _]%Forall_cons].
  destruct (IH Hnd Hcap) as (Hcat & Hidx & Hsub & Hrooms). clear IH.
  pose proof (total_capacity_nonneg _ Hcap) as Htot.
  unfold deal_students in *. rewrite foldl_snoc. cbn zeta.
  destruct (foldl (deal_room student_ids) ([], 0%Z) configs) as [d idx].
  cbn [fst snd] in *. rewrite total_capacity_snoc. unfold deal_room. cbn [fst snd].
  rewrite py_slice_forward by lia.
  assert (Z.to_nat idx = Z.to_nat (total_capacity configs) `min` length student_ids)
    as Hidx' by lia.
  pose proof (take_next_chunk student_ids (Z.to_nat (total_capacity configs))
                (Z.to_nat (cfg_capacity rc))) as Hchunk.
  rewrite <-Hidx', <-Hcat in Hchunk.
  replace (Z.to_nat (total_capacity configs + cfg_capacity rc))
    with (Z.to_nat (total_capacity configs) + Z.to_nat (cfg_capacity rc)) by lia.
  assert (length (take (Z.to_nat (cfg_capacity rc)) (drop (Z.to_nat idx) student_ids))
          = Z.to_nat (cfg_capacity rc) `min` (length student_ids - Z.to_nat idx))
    as Hlen by (by rewrite length_take, length_drop).
  destruct (take (Z.to_nat (cfg_capacity rc)) (drop (Z.to_nat idx) student_ids))
    as [|sid chunk] eqn:Hslice; cbn [fst snd].
  - rewrite app_nil_r in Hchunk. simpl in Hlen. split_and!.
    + done.
    + lia.
    + rewrite fmap_app. by apply sublist_inserts_r.
    + intros room students Hin. destruct (Hrooms _ _ Hin) as (? & rc' & ? & ? & ?).
      split; [done|]. exists rc'. rewrite elem_of_app. auto.
  - assert (cfg_room_name rc ∉ d.*1) as Hnew.
    { intros Hin. apply (Hfresh (cfg_room_name rc)); [|left].
      by eapply elem_of_sublist. }
    rewrite dict_set_fresh by done. rewrite !fmap_app, concat_app. simpl.
    rewrite app_nil_r. split_and!.
    + done.
    + simpl in Hlen. simpl. lia.
    + apply sublist_app; [done|]. simpl. done.
    + intros room students [Hin|[= -> ->]%list_elem_of_singleton]%elem_of_app.
      * destruct (Hrooms _ _ Hin) as (? & rc' & ? & ? & ?).
        split; [done|]. exists rc'. rewrite elem_of_app. auto.
      * split; [done|]. exists rc. split; [|split; [done|]].
        -- apply elem_of_app. right. left.
        -- simpl in Hlen. simpl. lia.
Qed.

(** X17.  main.py hands the students of a session to the rooms in order: with
    distinct room names and no negative capacity, the rooms read one after
    the other are the first students, as many as the capacities allow; no
    room holds more than its capacity or is kept empty, and students are
    left over exactly when the capacities fall short. *)
Theorem deal_students_fills_rooms_in_order (student_ids : list string)
    (current_rooms_config : list room_config) :
  NoDup (cfg_room_name <$> current_rooms_config) →
  Forall (λ rc, (0 ≤ cfg_capacity rc)%Z) current_rooms_config →
  let result := deal_students student_ids current_rooms_config in
  let room_assignment := result.1 in
  let student_idx := result.2 in
  concat room_assignment.*2
    = take (Z.to_nat (total_capacity current_rooms_config)) student_ids ∧
  student_idx = Z.of_nat (length (concat room_assignment.*2)) ∧
  ((student_idx < Z.of_nat (length student_ids))%Z ↔
   (total_capacity current_rooms_config < Z.of_nat (length student_ids))%Z) ∧
  room_assignment.*1 `sublist_of` cfg_room_name <$> current_rooms_config ∧
  ∀ room students, (room, students) ∈ room_assignment →
    students ≠ [] ∧
    ∃ rc, rc ∈ current_rooms_config ∧ cfg_room_name rc = room ∧
          (Z.of_nat (length students) ≤ cfg_capacity rc)%Z.
Proof.
  intros Hnd Hcap. cbn zeta.
  destruct (deal_students_inv student_ids _ Hnd Hcap) as (Hcat & Hidx & Hsub & Hrooms).
  pose proof (total_capacity_nonneg _ Hcap) as Htot.
  split_and!; [done | | lia | done | done].
  rewrite Hcat, length_take. lia.
Qed.

Definition two_rooms : list room_config :=
  [ mkRoomCfg "R1" 2 None None None None None None None None None;
    mkRoomCfg "R2" 2 None None None None None None None None None ].

Lemma deal_students_fills_rooms_in_order_witness :
  deal_students ["a"; "b"; "c"] two_rooms = ([("R1", ["a"; "b"]); ("R2", ["c"])], 3%Z) ∧
  concat (deal_students ["a"; "b"; "c"] two_rooms).1.*2
    = take (Z.to_nat (total_capacity two_rooms)) ["a"; "b"; "c"].
Proof.
  split; [reflexivity|].
  apply (deal_students_fills_rooms_in_order ["a"; "b"; "c"] two_rooms).
  - apply (bool_decide_unpack _). vm_compute. reflexivity.
  - repeat constructor; simpl; lia.
Defined.

(** ** Stored seats *)

(** [grid[y][x]] *)
Definition cell (grid : list (list (option SeatingAssignment))) (x y : nat)
  : option (option SeatingAssignment) :=
  grid !! y ≫= (.!! x).

(** The body of [for assignment in assignments]. *)
Definition grid_step (layout_columns layout_rows : Z)
    (grid : list (list (option SeatingAssignment))) (assignment : SeatingAssignment)
  : list (list (option SeatingAssignment)) :=
  if bool_decide ((0 ≤ sa_seat_y assignment < layout_rows)%Z ∧
                  (0 ≤ sa_seat_x assignment < layout_columns)%Z)
  then alter (λ row, <[Z.to_nat (sa_seat_x assignment) := Some assignment]> row)
             (Z.to_nat (sa_seat_y assignment)) grid
  else grid.

Definition seated_at (x y : nat) (a : SeatingAssignment) : Prop :=
  sa_seat_x a = Z.of_nat x ∧ sa_seat_y a = Z.of_nat y.

Local Instance seated_at_dec x y a : Decision (seated_at x y a).
Proof. unfold seated_at. apply _. Defined.

Lemma grid_loop_spec layout_columns layout_rows assignments :
  let grid := foldl (grid_step layout_columns layout_rows)
                (replicate (Z.to_nat layout_rows)
                   (replicate (Z.to_nat layout_columns) None)) assignments in
  length grid = Z.to_nat layout_rows ∧
  Forall (λ row, length row = Z.to_nat layout_columns) grid ∧
  ∀ x y, x < Z.to_nat layout_columns → y < Z.to_nat layout_rows →
         cell grid x y = Some (last (filter (seated_at x y) assignments)).
Proof.
  induction assignments as [|a assignments IH] using rev_ind; cbn zeta.
  { cbn [foldl]. split_and!.
    - by rewrite length_replicate.
    - apply Forall_replicate. by rewrite length_replicate.
    - intros x y Hx Hy. unfold cell. simpl.
      rewrite lookup_replicate_2 by done. simpl. by rewrite lookup_replicate_2. }
  rewrite foldl_snoc. cbn zeta in IH. destruct IH as (Hrows & Hcols & Hcell).
  set (grid := foldl _ _ assignments) in *.
  unfold grid_step. case_bool_decide as Hin.
  - split_and!.
    + by rewrite length_alter.
    + apply Forall_lookup. intros i row Hrow.
      destruct (decide (i = Z.to_nat (sa_seat_y a))) as [->|Hne].
      * rewrite list_lookup_alter_eq in Hrow.
        destruct (grid !! Z.to_nat (sa_seat_y a)) as [row0|] eqn:Hrow0; [|done].
        injection Hrow as <-. rewrite length_insert.
        by eapply (Forall_lookup_1 _ _ _ _ Hcols).
      * rewrite list_lookup_alter_ne in Hrow by done.
        by eapply (Forall_lookup_1 _ _ _ _ Hcols).
    + intros x y Hx Hy. rewrite filter_app, last_app, filter_cons, filter_nil.
      specialize (Hcell x y Hx Hy). unfold cell in *.
      destruct (decide (y = Z.to_nat (sa_seat_y a))) as [->|Hy'].
      * rewrite list_lookup_alter_eq.
        destruct (grid !! Z.to_nat (sa_seat_y a)) as [row0|] eqn:Hrow0; [|done].
        simpl in *. pose proof (Forall_lookup_1 _ _ _ _ Hcols Hrow0) as Hlen. cbv beta in Hlen.
        destruct (decide (x = Z.to_nat (sa_seat_x a))) as [->|Hx'].
        -- rewrite list_lookup_insert_eq by lia.
           rewrite decide_True; [done|]. unfold seated_at. lia.
        -- rewrite list_lookup_insert_ne by done.
           rewrite decide_False; [done|]. unfold seated_at. lia.
      * rewrite list_lookup_alter_ne by done.
        rewrite decide_False; [done|]. unfold seated_at. lia.
  - split_and!; [done..|]. intros x y Hx Hy.
    rewrite filter_app, last_app, filter_cons, filter_nil.
    rewrite decide_False; [by apply Hcell|]. unfold seated_at. lia.
Qed.

(** X18.  The grid of a room has [layout_rows] rows of [layout_columns] cells
    (none when a number is negative), and the cell [grid[y][x]] holds the
    last row of the table for this room and exam that is seated at
    [(x, y)], or nothing when there is none: a later row of the same seat
    replaces an earlier one, and a row seated outside the layout is not
    shown. *)
Theorem get_seat_grid_cells (table : list SeatingAssignment)
    (room_id layout_columns layout_rows exam_id : Z) :
  let grid := get_seat_grid table room_id layout_columns layout_rows exam_id in
  length grid = Z.to_nat layout_rows ∧
  Forall (λ row, length row = Z.to_nat layout_columns) grid ∧
  (∀ x y, x < Z.to_nat layout_columns → y < Z.to_nat layout_rows →
     cell grid x y
     = Some (last (filter (λ a, seated_at x y a ∧
                                sa_room_id a = room_id ∧ sa_exam_id a = exam_id) table))) ∧
  (∀ x y a, cell grid x y = Some (Some a) →
     a ∈ table ∧ sa_room_id a = room_id ∧ sa_exam_id a = exam_id ∧
     sa_seat_x a = Z.of_nat x ∧ sa_seat_y a = Z.of_nat y) ∧
  (∀ a, a ∈ table → sa_room_id a = room_id → sa_exam_id a = exam_id →
     (0 ≤ sa_seat_x a < layout_columns)%Z → (0 ≤ sa_seat_y a < layout_rows)%Z →
     ∃ b, cell grid (Z.to_nat (sa_seat_x a)) (Z.to_nat (sa_seat_y a)) = Some (Some b) ∧
          sa_seat_x b = sa_seat_x a ∧ sa_seat_y b = sa_seat_y a).
Proof.
  cbn zeta. unfold get_seat_grid.
  destruct (grid_loop_spec layout_columns layout_rows
              (filter (λ a, sa_room_id a = room_id ∧ sa_exam_id a = exam_id) table))
    as (Hrows & Hcols & Hcell). cbn zeta in *.
  change (foldl _ _ _) with
    (foldl (grid_step layout_columns layout_rows)
       (replicate (Z.to_nat layout_rows) (replicate (Z.to_nat layout_columns) None))
       (filter (λ a, sa_room_id a = room_id ∧ sa_exam_id a = exam_id) table)).
  set (grid := foldl _ _ _) in *.
  assert (∀ x y, x < Z.to_nat layout_columns → y < Z.to_nat layout_rows →
     cell grid x y
     = Some (last (filter (λ a, seated_at x y a ∧
                                sa_room_id a = room_id ∧ sa_exam_id a = exam_id) table)))
    as Hcell'.
  { intros x y Hx Hy. rewrite Hcell by done. by rewrite list_filter_filter. }
  split_and!; [done | done | done | |].
  - intros x y a Ha.
    assert (x < Z.to_nat layout_columns ∧ y < Z.to_nat layout_rows) as [Hx Hy].
    { unfold cell in Ha. destruct (grid !! y) as [row|] eqn:Hrow; [|done]. simpl in Ha.
      pose proof (Forall_lookup_1 _ _ _ _ Hcols Hrow) as Hlen. cbv beta in Hlen.
      apply lookup_lt_Some in Hrow. apply lookup_lt_Some in Ha. lia. }
    rewrite Hcell' in Ha by done. injection Ha as Ha.
    apply last_Some_elem_of, list_elem_of_filter in Ha as [([? ?] & ? & ?) ?]. done.
  - intros a Ha Hroom Hexam Hx Hy.
    rewrite Hcell' by lia.
    destruct (last _) as [b|] eqn:Hlast.
    + exists b. split; [done|].
      apply last_Some_elem_of, list_elem_of_filter in Hlast as [([? ?] & _) _]. lia.
    + apply last_None in Hlast. exfalso.
      eapply (filter_nil_not_elem_of _ _ a Hlast); [|done].
      unfold seated_at. split; [lia | done].
Qed.

(** X19.  The students the cheat detection takes for adjacent are those of the
    8-neighbourhood the seat placer keeps related students out of: for two
    stored rows of one exam and room with different ids and different
    cells, the second inside a [cols] by [rows] grid, being returned by
    [get_adjacent_students] is being at one of [get_adjacent_positions].
    The relation is symmetric and no row is adjacent to itself. *)
Theorem adjacent_students_are_grid_neighbours (table : list SeatingAssignment)
    (self a : SeatingAssignment) (cols rows : Z) :
  a ∈ table → self ∈ table →
  (a ∈ get_adjacent_students table self ↔ self ∈ get_adjacent_students table a) ∧
  (self ∉ get_adjacent_students table self) ∧
  (sa_exam_id a = sa_exam_id self → sa_room_id a = sa_room_id self →
   sa_id a ≠ sa_id self →
   (sa_seat_x a, sa_seat_y a) ≠ (sa_seat_x self, sa_seat_y self) →
   (0 ≤ sa_seat_x a < cols)%Z → (0 ≤ sa_seat_y a < rows)%Z →
   (a ∈ get_adjacent_students table self ↔
    (sa_seat_x a, sa_seat_y a)
      ∈ get_adjacent_positions (sa_seat_x self) (sa_seat_y self) cols rows)).
Proof.
  intros Ha Hself. unfold get_adjacent_students. rewrite !list_elem_of_filter.
  split_and!.
  - split; intros [(Hexam & Hroom & Hid & Hx & Hy) _]; (split; [|done]);
      split_and!; try done; try congruence; lia.
  - intros [(_ & _ & Hid & _) _]. done.
  - intros Hexam Hroom Hid Hcell Hx Hy.
    rewrite elem_of_adjacent_positions. unfold neighbours. cbn [fst snd]. split.
    + intros [(_ & _ & _ & Hdx & Hdy) _]. split_and!; [done | lia..].
    + intros ((_ & Hdx & Hdy) & _ & _). split; [|done]. split_and!; [done.. | lia | lia].
Qed.

Definition stored_seats : list SeatingAssignment :=
  [ mkSeating 1 7 101 3 1 0 0; mkSeating 2 7 102 3 2 1 0; mkSeating 3 7 103 3 4 3 0 ].

Lemma adjacent_students_are_grid_neighbours_witness :
  get_adjacent_students stored_seats (mkSeating 1 7 101 3 1 0 0)
    = [mkSeating 2 7 102 3 2 1 0] ∧
  (mkSeating 2 7 102 3 2 1 0 ∈ get_adjacent_students stored_seats (mkSeating 1 7 101 3 1 0 0)
   ↔ (1%Z, 0%Z) ∈ get_adjacent_positions 0 0 6 5).
Proof.
  split; [reflexivity|].
  refine (proj2 (proj2 (adjacent_students_are_grid_neighbours stored_seats
            (mkSeating 1 7 101 3 1 0 0) (mkSeating 2 7 102 3 2 1 0) 6 5 _ _))
            _ _ _ _ _ _); simpl; try lia; try done.
  - right. left.
  - left.
Defined.

End CallerFacts.
(* ===================================================================== *)
(** * The whole plan: from the roster to the seats *)
(* ===================================================================== *)

Module PlanFacts.
Import Py PyFacts ConflictGraph RoomAssignment SeatLayout Pipeline.
Import ConflictGraphProofs RoomAssignmentProofs SeatLayoutProofs.
Import PipelineProofs ColouringFacts SeatFacts.

(** The [(cols, rows)] the seat placer reads off a room's configuration. *)
Definition grid_of (rc : room_config) : Z * Z :=
  (default (default 6%Z (cfg_columns rc)) (cfg_layout_columns rc),
   default (default 5%Z (cfg_rows rc)) (cfg_layout_rows rc)).

(** The grid of the room has a column and a cell for every place of its
    capacity. *)
Definition grid_covers_capacity (rc : room_config) : Prop :=
  (0 < (grid_of rc).1)%Z ∧ (cfg_capacity rc ≤ (grid_of rc).1 * (grid_of rc).2)%Z.

Lemma room_config_dict_other (configs : list room_config) (d : gmap string room_config) name :
  name ∉ cfg_room_name <$> configs →
  foldl (λ d r, <[cfg_room_name r := r]> d) d configs !! name = d !! name.
Proof.
  revert d. induction configs as [|c configs IH]; intros d Hname; [done|].
  csimpl in Hname. apply not_elem_of_cons in Hname as [? ?]. simpl.
  rewrite IH by done. by rewrite lookup_insert_ne.
Qed.

Lemma room_config_dict_lookup configs rc :
  NoDup (cfg_room_name <$> configs) → rc ∈ configs →
  room_config_dict configs !! cfg_room_name rc = Some rc.
Proof.
  unfold room_config_dict. generalize (∅ : gmap string room_config).
  induction configs as [|c configs IH]; intros d Hnd Hin; [by apply elem_of_nil in Hin|].
  csimpl in Hnd. apply NoDup_cons in Hnd as [Hc Hnd]. simpl.
  apply elem_of_cons in Hin as [->|Hin]; [|by apply IH].
  rewrite room_config_dict_other by done. by rewrite lookup_insert_eq.
Qed.

Lemma room_layout_of configs rc :
  NoDup (cfg_room_name <$> configs) → rc ∈ configs →
  room_layout (Some (room_config_dict configs)) (cfg_room_name rc) = grid_of rc.
Proof. intros Hnd Hin. unfold room_layout. by rewrite room_config_dict_lookup. Qed.

Lemma colored_groups_layout db_pairs (df : list Row) friend_pairs (friends section : bool) :
  let groups := get_colored_groups db_pairs df friend_pairs friends section in
  NoDup groups.*1 ∧ NoDup (concat groups.*2) ∧
  concat groups.*2 ≡ₚ remove_dups (StudentID <$> df).
Proof.
  unfold get_colored_groups.
  destruct (wf_colored_graph db_pairs df friend_pairs friends section) as [Hwf Hnodes].
  set (g := if friends || section then _ else _) in *.
  clearbody g. pose proof Hwf as [Hnd _].
  destruct (dsatur_coloring_inv g Hnd) as [Hinv Hall].
  destruct (group_by_color_spec (dsatur_coloring g) (ci_nodup _ _ Hinv))
    as (Hk & Hperm & Hmem).
  simpl. split_and!; [done | |].
  - rewrite Hperm. apply (ci_nodup _ _ Hinv).
  - rewrite Hperm. apply NoDup_Permutation;
      [apply (ci_nodup _ _ Hinv) | apply NoDup_remove_dups |].
    intros n. rewrite elem_of_remove_dups, <- Hnodes.
    split; [apply (ci_nodes _ _ Hinv) | apply Hall].
Qed.

Lemma returned_rooms groups student_metadata rooms_config res :
  NoDup (cfg_room_name <$> rooms_config) → NoDup groups.*1 → NoDup (concat groups.*2) →
  assign_rooms_to_groups groups student_metadata rooms_config = Returned res →
  NoDup res.*1 ∧
  concat res.*2 ≡ₚ concat groups.*2 ∧
  ∀ rid sids, (rid, sids) ∈ res →
    sids ≠ [] ∧
    ∃ config, config ∈ rooms_config ∧ cfg_room_name config = rid ∧
              (Z.of_nat (length sids) ≤ cfg_capacity config)%Z.
Proof.
  intros Hrooms Hkeys Hids Hres.
  destruct (returned_layout _ _ _ _ Hrooms Hkeys Hids Hres)
    as (sg & h & asg & Hsg & Hgs & Hok & (Hnd & Hget & Hperm) & ->).
  destruct (student_groups_ids _ _ _ Hsg Hkeys) as [Hsids Hmeta].
  assert (concat h.*2 ≡ₚ concat sg.*2) as Hall.
  { rewrite Hgs. by rewrite sorted_desc_Permutation. }
  split_and!.
  - by apply nonempty_rooms_NoDup.
  - by rewrite nonempty_rooms_concat, Hperm, Hall, Hsids.
  - intros rid sids [Hne Hin]%elem_of_nonempty_rooms. simpl in Hne. split; [done|].
    pose proof (dd_get_unique _ _ _ Hnd Hin) as Hsids'. rewrite Hget in Hsids'.
    destruct (occ_of_nonempty h rid) as (p & Hp & Hrid).
    { intros Hnil. rewrite Hnil in Hsids'. by subst. }
    destruct (Hok p Hp) as (Hroom & Hcap & _).
    apply list_elem_of_fmap in Hroom as (config & Hcfg & Hconfig).
    rewrite Hrid, Hcfg in *.
    exists config. split_and!; try done.
    by rewrite <- Hsids', length_fmap.
Qed.

Lemma seating_keys db_friend_graph room_assignment metadata room_config friend_graph :
  NoDup room_assignment.*1 →
  (assign_seats_in_room db_friend_graph room_assignment metadata room_config
     friend_graph).*1
  = (filter (λ entry, entry.2 ≠ []) room_assignment).*1.
Proof.
  intros Hnd. unfold assign_seats_in_room, assign_seats_with_separation, separation_loop.
  destruct (truthy friend_graph).
  - by rewrite separation_room_keys.
  - by rewrite spread_room_keys.
Qed.

Lemma seats_of_room db_friend_graph room_assignment metadata room_config friend_graph
    room students :
  NoDup room_assignment.*1 → (room, students) ∈ room_assignment → students ≠ [] →
  (0 < (room_layout room_config room).1)%Z →
  (Z.of_nat (length students)
     ≤ (room_layout room_config room).1 * (room_layout room_config room).2)%Z →
  ∃ seats,
    dict_get room (assign_seats_in_room db_friend_graph room_assignment metadata
                     room_config friend_graph) = Some seats ∧
    seat_student_id <$> seats ≡ₚ students.
Proof.
  intros Hnd Hin Hne Hc Hle.
  destruct (assign_seats_in_room_lookup db_friend_graph room_assignment metadata
              room_config friend_graph room students Hnd Hin Hne) as [Hpath [v Hsep]].
  rewrite Hpath. destruct (truthy friend_graph).
  - eexists. split; [exact Hsep|].
    rewrite (proj2 (separated_spec _ _ _ _ _ _ _)).
    rewrite take_ge by (rewrite length_room_queue; lia). apply queue_Permutation.
  - eexists. split; [done|].
    destruct (spread_seats_within metadata _ _ students Hc Hne Hle) as (Hids & _).
    rewrite Hids. apply queue_Permutation.
Qed.

Lemma filter_all {A} (P : A → Prop) `{!∀ x, Decision (P x)} (l : list A) :
  Forall P l → filter P l = l.
Proof.
  induction 1 as [|x l Hx _ IH]; [done|]. rewrite filter_cons_True by done. by rewrite IH.
Qed.

Lemma concat_by_keys {A B} (f : A → B) (d1 : list (string * list A))
    (d2 : list (string * list B)) :
  NoDup d1.*1 → d1.*1 = d2.*1 →
  (∀ k v, (k, v) ∈ d2 → ∃ w, dict_get k d1 = Some w ∧ f <$> w ≡ₚ v) →
  f <$> concat d1.*2 ≡ₚ concat d2.*2.
Proof.
  revert d2. induction d1 as [|[k w] d1 IH]; intros [|[k' v] d2]; csimpl; try done.
  intros [Hk Hnd]%NoDup_cons [= <- Hkeys] Hall.
  rewrite fmap_app. f_equiv.
  - destruct (Hall k v ltac:(left)) as (w' & Hw' & Hperm).
    simpl in Hw'. rewrite decide_True in Hw' by done. by injection Hw' as <-.
  - apply IH; [done | done |]. intros k0 v0 Hin.
    destruct (Hall k0 v0 ltac:(by right)) as (w' & Hw' & Hperm).
    simpl in Hw'. rewrite decide_False in Hw'; [by exists w'|].
    intros ->. apply Hk. rewrite Hkeys. by apply (list_elem_of_fmap_2 fst) in Hin.
Qed.

(** X20.  The three stages composed: the colour groups of a roster go to the
    room allocator and the rooms it returns to the seat placer, which
    reads the layouts from the rooms keyed by name.  When every room's
    grid has a cell for each place of its capacity and the room names are
    distinct, every student of the roster is seated exactly once: the
    rooms of the seating are distinct configured rooms, none without seats
    or with more seats than its capacity, and the seated identifiers are
    the roster's, each once. *)
Theorem plan_seats_every_student_once db_pairs db_friend_graph (df : list Row)
    friend_pairs (enable_friend_separation enable_section_separation : bool)
    student_metadata (current_rooms_config : list room_config) friend_graph
    room_assignments :
  NoDup (cfg_room_name <$> current_rooms_config) →
  Forall grid_covers_capacity current_rooms_config →
  assign_rooms_to_groups
    (get_colored_groups db_pairs df friend_pairs enable_friend_separation
       enable_section_separation)
    student_metadata current_rooms_config = Returned room_assignments →
  let seating :=
    assign_seats_in_room db_friend_graph room_assignments student_metadata
      (Some (room_config_dict current_rooms_config)) friend_graph in
  NoDup seating.*1 ∧
  seat_student_id <$> concat seating.*2 ≡ₚ remove_dups (StudentID <$> df) ∧
  ∀ room seats, (room, seats) ∈ seating →
    seats ≠ [] ∧
    ∃ rc, rc ∈ current_rooms_config ∧ cfg_room_name rc = room ∧
          (Z.of_nat (length seats) ≤ cfg_capacity rc)%Z.
Proof.
  intros Hnames Hgrid.
  destruct (colored_groups_layout db_pairs df friend_pairs enable_friend_separation
              enable_section_separation) as (Hkeys & Hids & Hroster). cbn zeta in *.
  set (groups := get_colored_groups _ _ _ _ _) in *.
  intros Hres. rename room_assignments into res.
  destruct (returned_rooms _ _ _ _ Hnames Hkeys Hids Hres) as (Hnd & Hperm & Hrooms).
  pose proof (seating_keys db_friend_graph res student_metadata
                (Some (room_config_dict current_rooms_config)) friend_graph Hnd) as Hsk.
  assert (filter (λ entry : string * list string, entry.2 ≠ []) res = res) as Hall.
  { apply filter_all. apply Forall_forall. intros [rid sids] Hin.
    by destruct (Hrooms _ _ Hin). }
  rewrite Hall in Hsk.
  set (seating := assign_seats_in_room _ _ _ _ _) in *.
  assert (∀ rid sids, (rid, sids) ∈ res →
            ∃ seats, dict_get rid seating = Some seats ∧
                     seat_student_id <$> seats ≡ₚ sids) as Hseats.
  { intros rid sids Hin. destruct (Hrooms _ _ Hin) as (Hne & rc & Hrc & <- & Hcap).
    destruct (proj1 (Forall_forall _ _) Hgrid rc Hrc) as [Hc Hcells].
    apply seats_of_room; [done | done | done | |]; rewrite room_layout_of by done; [done|lia]. }
  split_and!.
  - by rewrite Hsk.
  - rewrite <- Hroster, <- Hperm. apply concat_by_keys; [by rewrite Hsk | done | done].
  - intros room seats Hin.
    assert (room ∈ res.*1) as ([rid sids] & -> & Hres')%list_elem_of_fmap.
    { rewrite <- Hsk. by apply (list_elem_of_fmap_2 fst) in Hin. }
    cbn [fst] in Hin |- *. destruct (Hseats _ _ Hres') as (seats' & Hget & Hp).
    rewrite (dict_get_unique _ _ _ ltac:(by rewrite Hsk) Hin) in Hget.
    injection Hget as <-.
    destruct (Hrooms _ _ Hres') as (Hne & rc & Hrc & Hname & Hcap).
    split.
    + intros ->. apply Hne. symmetry in Hp. by apply Permutation_nil_r in Hp.
    + exists rc. split_and!; [done | done |].
      apply Permutation_length in Hp. rewrite length_fmap in Hp. lia.
Qed.

Lemma plan_seats_every_student_once_witness :
  seat_student_id <$>
    concat (assign_seats_in_room ∅ [("Main", ["a"; "d"; "b"; "c"])] four_students
              (Some (room_config_dict [main_hall])) None).*2
  ≡ₚ ["a"; "b"; "c"; "d"].
Proof.
  refine (proj1 (proj2 (plan_seats_every_student_once [] ∅ slot_roster (Some [("a", "c")])
                          true true four_students [main_hall] None
                          [("Main", ["a"; "d"; "b"; "c"])] _ _ _))).
  - apply (bool_decide_unpack _). vm_compute. exact I.
  - repeat constructor; vm_compute; congruence.
  - vm_compute. reflexivity.
Defined.

End PlanFacts.
